(** * CityVotes Dallas: correlation and derived analytics

    A shallow embedding of the core of [Dallas-TX/extract_dallas.py] (the
    Legistar/Socrata correlator) and of [build_site.py] (vote codec, outcome
    classifier, meeting loader, member statistics, pairwise alignment),
    followed by the properties stated about them.

    Conventions of the embedding.
    - A Python [str] is a Rocq [string]; the character with code [n] stands
      for the code point U+00[n], so the model covers text in the Latin-1
      range, and the character tables below are CPython's for that range.
    - A raised exception is [None] in the option monad.
    - A [dict] that is iterated is an association list in insertion order; a
      [dict] that is only looked up is a [gmap]; a [set] that is iterated is
      enumerated in an order the program does not control.
    - Python integers are unbounded ([Z], [N]).  The interpreter refuses to
      convert a numeral of more than [int_max_str_digits] digits;
      [int_of_digits] is the conversion of the numerals within this limit,
      and [within_int_limit] states the limit where a result rests on it.
    - A float is an IEEE 754 binary64 number, modelled by its exact value, a
      rational: every operation rounds its exact result to the nearest
      float, ties to the even significand ([Py.float]). *)

From Stdlib Require Import ZArith QArith Qround Qabs Qpower Lqa.
From Stdlib Require Import DecimalString DecimalN DecimalFacts.
From Stdlib Require Import Ascii.
From stdpp Require Import gmap strings list sorting.

Local Open Scope Z_scope.

(* ===================================================================== *)
(** * Python string primitives *)
(* ===================================================================== *)

Module PyStr.

Definition ord (c : ascii) : N := Ascii.N_of_ascii c.

(** [str.isspace] on one character: U+0009..U+000D, U+001C..U+0020,
    U+0085 and U+00A0. *)
Definition isspace_char (c : ascii) : bool :=
  let n := ord c in
  ((9 <=? n) && (n <=? 13) || (28 <=? n) && (n <=? 32)
   || (n =? 133) || (n =? 160))%N.

(** Decimal digits (category Nd): the characters [int] accepts. *)
Definition isdecimal_char (c : ascii) : bool :=
  let n := ord c in ((48 <=? n) && (n <=? 57))%N.

(** [str.isdigit] on one character: the decimal digits and the
    superscripts U+00B2, U+00B3, U+00B9. *)
Definition isdigit_char (c : ascii) : bool :=
  let n := ord c in
  (isdecimal_char c || (n =? 178) || (n =? 179) || (n =? 185))%N.

Fixpoint all_chars (p : ascii -> bool) (s : string) : bool :=
  match s with
  | EmptyString => true
  | String c s' => p c && all_chars p s'
  end.

Definition is_empty (s : string) : bool :=
  match s with EmptyString => true | _ => false end.

(** [s.isdigit()]: at least one character, all of them digits. *)
Definition isdigit (s : string) : bool :=
  negb (is_empty s) && all_chars isdigit_char s.

Definition isdecimal (s : string) : bool :=
  negb (is_empty s) && all_chars isdecimal_char s.

Fixpoint lstrip_by (p : ascii -> bool) (s : string) : string :=
  match s with
  | EmptyString => EmptyString
  | String c s' => if p c then lstrip_by p s' else s
  end.

Fixpoint rstrip_by (p : ascii -> bool) (s : string) : string :=
  match s with
  | EmptyString => EmptyString
  | String c s' =>
      let r := rstrip_by p s' in
      if is_empty r && p c then EmptyString else String c r
  end.

(** [s.strip()] *)
Definition strip (s : string) : string :=
  lstrip_by isspace_char (rstrip_by isspace_char s).

(** [s.rstrip(c)] for a one-character argument: every trailing [c]. *)
Definition rstrip_char (c : ascii) (s : string) : string :=
  rstrip_by (Ascii.eqb c) s.

(** [s.upper()], character by character.  U+00DF becomes "SS".  The
    upper-case forms of U+00B5 and U+00FF (U+039C, U+0178) lie outside the
    modelled range; the two characters are left in place, which no caller
    can observe: upper-cased text is only compared with ASCII literals. *)
Definition upper_char (c : ascii) : string :=
  let n := ord c in
  if ((97 <=? n) && (n <=? 122))%N then String (Ascii.ascii_of_N (n - 32)) ""
  else if (n =? 223)%N then "SS"
  else if ((224 <=? n) && (n <=? 254) && negb (n =? 247))%N
       then String (Ascii.ascii_of_N (n - 32)) ""
  else String c "".

Fixpoint upper (s : string) : string :=
  match s with
  | EmptyString => EmptyString
  | String c s' => upper_char c +:+ upper s'
  end.

(** [kw in s] *)
Fixpoint contains (kw s : string) : bool :=
  String.prefix kw s
  || match s with
     | EmptyString => false
     | String _ s' => contains kw s'
     end.

(** [s.startswith(p)] *)
Definition startswith (s p : string) : bool := String.prefix p s.

(** [s[:n]] *)
Definition slice_to (n : nat) (s : string) : string := String.substring 0 n s.

(** [int(s)] on a string of digit characters: [ValueError] unless every
    character is a decimal digit.  This is the conversion of a numeral
    within the interpreter's limit, stated next. *)
Definition int_of_digits (s : string) : option N :=
  N.of_uint <$> NilZero.uint_of_string s.

(** [sys.int_max_str_digits], as the interpreter starts: [int] raises
    [ValueError] on a numeral with more digits than this, leading zeros
    counted. *)
Definition int_max_str_digits : nat := 4300.

Definition within_int_limit (s : string) : bool :=
  (String.length s <=? int_max_str_digits)%nat.

(** [str(n)] for a natural number. *)
Definition str_of_N (n : N) : string := NilZero.string_of_uint (N.to_uint n).

(** [str(z)] for an integer. *)
Definition str_of_Z (z : Z) : string := NilZero.string_of_int (Z.to_int z).

(** Leading zeros removed, keeping one digit. *)
Fixpoint strip_leading_zeros (s : string) : string :=
  match s with
  | EmptyString => "0"
  | String c s' => if Ascii.eqb c "0" then strip_leading_zeros s' else s
  end.

(** [s.split()]: the maximal runs of non-space characters. *)
Fixpoint split_go (cur : string) (s : string) : list string :=
  match s with
  | EmptyString => if is_empty cur then [] else [String.rev cur]
  | String c s' =>
      if isspace_char c
      then (if is_empty cur then [] else [String.rev cur]) ++ split_go "" s'
      else split_go (String c cur) s'
  end.

Definition split (s : string) : list string := split_go "" s.

(** [sep.join(parts)] *)
Definition join (sep : string) (parts : list string) : string :=
  String.concat sep parts.

(** [x or ""] for a value that is text or [None]. *)
Definition or_empty (x : option string) : string := default "" x.

End PyStr.

(* ===================================================================== *)
(** * Python values and sorting *)
(* ===================================================================== *)

(** The values a cell may hold where the program mixes [None], integers and
    text. *)
Inductive PyVal : Type :=
  | PyNone
  | PyInt (z : Z)
  | PyStr (s : string).

Module Py.
Import PyStr.

(** [str(v)] *)
Definition str (v : PyVal) : string :=
  match v with
  | PyNone => "None"
  | PyInt z => str_of_Z z
  | PyStr s => s
  end.

(** [list.sort] and [sorted] are stable: an element goes in front of the
    first element of the sorted remainder that is not smaller than it. *)
Fixpoint insert_sorted {A} (leb : A -> A -> bool) (x : A) (l : list A)
    : list A :=
  match l with
  | [] => [x]
  | y :: l' => if leb x y then x :: l else y :: insert_sorted leb x l'
  end.

Definition sorted {A} (leb : A -> A -> bool) (l : list A) : list A :=
  foldr (insert_sorted leb) [] l.

(** [sorted(l, reverse=True)]: descending, equal elements in their
    original order. *)
Definition sorted_reverse {A} (leb : A -> A -> bool) (l : list A) : list A :=
  sorted (fun x y => leb y x) l.

(** A loop whose body may raise. *)
Fixpoint foldM {A B} (f : B -> A -> option B) (b : B) (l : list A)
    : option B :=
  match l with
  | [] => Some b
  | x :: l' => b' ← f b x; foldM f b' l'
  end.

(** [round(x)] to the nearest integer, ties to the even one. *)
Definition round_half_even (q : Q) : Z :=
  let f := Qfloor q in
  match Qcompare (q - inject_Z f) (1 # 2) with
  | Lt => f
  | Gt => f + 1
  | Eq => if Z.even f then f else f + 1
  end.

(** ** Floats

    A Python float is a binary64 number: a significand of 53 bits and an
    exponent that goes down to -1074 for the last bit of a subnormal
    number.  A finite float is modelled by its exact value.  The quotients,
    products and rounded values computed below are at most 100 times a
    count of records, so they stay far below the largest float, and the
    upper end of the exponent range is not modelled. *)

Definition float_prec : Z := 53.
Definition float_emin : Z := -1074.

(** The binade of a positive number: the [e] with [2^e <= q < 2^(e+1)]. *)
Definition binade (q : Q) : Z :=
  let k := Z.log2 (Qnum q) - Z.log2 (Zpos (Qden q)) in
  if Qle_bool (2 ^ k) q then k else k - 1.

(** The exponent of the last bit of the floats around [q]. *)
Definition ulp_exponent (q : Q) : Z :=
  Z.max (binade (Qabs q) - (float_prec - 1)) float_emin.

(** The float nearest to [q], the one with the even significand when [q]
    is half way between two floats; in lowest terms. *)
Definition float (q : Q) : Q :=
  let e := ulp_exponent q in
  Qred (inject_Z (round_half_even (q / 2 ^ e)) * 2 ^ e).

(** [a / b] on integers: the float nearest to the quotient. *)
Definition truediv (a b : Z) : Q := float (inject_Z a / inject_Z b).

(** [a / b * 100] on integers: a float division and a float
    multiplication. *)
Definition percent (a b : Z) : Q := float (truediv a b * 100).

(** [round(x, 1)] on a float: the exact value of [x] is rounded to one
    decimal place, ties to the even digit, and the result is the float
    nearest to that decimal number. *)
Definition round1 (x : Q) : Q := float (round_half_even (x * 10) # 10).

(** Comparison of text ([<=] on [str]) and of tuples, as [comparison]s. *)
Definition lex (c1 c2 : comparison) : comparison :=
  match c1 with Eq => c2 | _ => c1 end.

Definition is_le (c : comparison) : bool :=
  match c with Gt => false | _ => true end.

End Py.

(* ===================================================================== *)
(** * extract_dallas.py *)
(* ===================================================================== *)

Module Extract.
Import PyStr.

Definition APPROVAL_KEYWORDS : list string :=
  ["APPROVED"; "ADOPTED"; "PASSED"; "CONFIRMED"; "ACCEPTED";
   "GRANTED"; "SUSTAINED"; "RATIFIED"].

Definition DENIAL_KEYWORDS : list string :=
  ["DENIED"; "FAILED"; "REJECTED"; "DEFEATED"].

(** [normalize_agenda_number] *)
Definition normalize_agenda_number (raw : string) : option string :=
  if is_empty raw then Some ""
  else
    let cleaned := rstrip_char "." (strip raw) in
    if isdigit cleaned
    then n ← int_of_digits cleaned; Some (str_of_N n)
    else Some cleaned.

(** [derive_passed]: 1, 0 or [None]. *)
Definition derive_passed (final_action : string) : option Z :=
  if is_empty final_action then None
  else
    let upper := upper final_action in
    if existsb (fun keyword => contains keyword upper) APPROVAL_KEYWORDS
    then Some 1
    else if existsb (fun keyword => contains keyword upper) DENIAL_KEYWORDS
    then Some 0
    else if contains "AMENDED" upper then Some 1
    else None.

(** One Socrata row: one member's vote on one agenda item.  A field is
    read with [r.get(name, '')]; an absent field is the empty string. *)
Record SocrataRecord : Type := {
  date : string;
  agenda_item_number : string;
  agenda_item_description : string;
  item_type : string;
  final_action_taken : string;
  voter_name : string;
  vote : string;
}.

(** The fields of an item that the correlator carries along without
    reading or writing them. *)
Record LegistarDetail : Type := {
  event_id : PyVal;
  event_time : string;
  event_location : string;
  event_item_id : PyVal;
  matter_file : string;
  matter_type : string;
  matter_status : string;
  matter_id : PyVal;
  consent : PyVal;
  tally : PyVal;
  mover : string;
  seconder : string;
  roll_call_flag : PyVal;
  matter_title : string;
  matter_intro_date : string;
  matter_enactment_number : string;
  matter_requester : string;
  matter_body_name : string;
  agenda_link : string;
  attachment_links : string;
}.

(** An agenda item ([item_data]).  [agenda_sequence] is Legistar's integer,
    or [None] for the empty string; [item_votes] maps a voter name to the
    raw vote. *)
Record Item : Type := {
  event_date : string;
  event_body : string;
  agenda_number : string;
  agenda_sequence : option Z;
  title : string;
  passed : option Z;
  vote_type : string;
  minutes_link : string;
  video_link : string;
  socrata_item_number : string;
  socrata_agenda_info : string;
  socrata_final_action : string;
  item_votes : gmap string string;
  detail : LegistarDetail;
}.

Definition blank_detail : LegistarDetail :=
  {| event_id := PyStr ""; event_time := ""; event_location := "";
     event_item_id := PyStr ""; matter_file := ""; matter_type := "";
     matter_status := ""; matter_id := PyStr ""; consent := PyStr "";
     tally := PyStr ""; mover := ""; seconder := "";
     roll_call_flag := PyInt 0; matter_title := ""; matter_intro_date := "";
     matter_enactment_number := ""; matter_requester := "";
     matter_body_name := ""; agenda_link := ""; attachment_links := "" |}.

(** The composite key [(date, normalized agenda number)]. *)
Definition Key : Type := string * string.

(** The per-member vote dict of [_merge_socrata_into_item]. *)
Definition build_votes (socrata_records : list SocrataRecord)
    : gmap string string :=
  foldl (fun votes r =>
           if is_empty (voter_name r) then votes
           else <[voter_name r := vote r]> votes)
        ∅ socrata_records.

(** [_merge_socrata_into_item]: the item after the in-place update.  The
    names are also added to the roster [self.all_members], which no item
    depends on and which is not modelled. *)
Definition merge_socrata_into_item
    (item : Item) (socrata_records : list SocrataRecord) : Item :=
  match socrata_records with
  | [] => item
  | sample :: _ =>
      {| event_date := event_date item;
         event_body := event_body item;
         agenda_number := agenda_number item;
         agenda_sequence := agenda_sequence item;
         title := if is_empty (title item)
                  then agenda_item_description sample else title item;
         passed := derive_passed (final_action_taken sample);
         vote_type := "Socrata Roll Call";
         minutes_link := minutes_link item;
         video_link := video_link item;
         socrata_item_number := agenda_item_number sample;
         socrata_agenda_info := item_type sample;
         socrata_final_action := final_action_taken sample;
         item_votes := build_votes socrata_records;
         detail := detail item |}
  end.

(** [socrata_by_key]: a dict from key to the list of its records, in
    insertion order. *)
Fixpoint group_add (key : Key) (r : SocrataRecord)
    (d : list (Key * list SocrataRecord)) : list (Key * list SocrataRecord) :=
  match d with
  | [] => [(key, [r])]
  | (k, rs) :: d' =>
      if decide (k = key) then (k, rs ++ [r]) :: d'
      else (k, rs) :: group_add key r d'
  end.

Definition socrata_key (r : SocrataRecord) : option Key :=
  item_num ← normalize_agenda_number (agenda_item_number r);
  Some (slice_to 10 (date r), item_num).

Fixpoint build_socrata_by_key (socrata_records : list SocrataRecord)
    (socrata_by_key : list (Key * list SocrataRecord))
    : option (list (Key * list SocrataRecord)) :=
  match socrata_records with
  | [] => Some socrata_by_key
  | r :: rest =>
      key ← socrata_key r;
      build_socrata_by_key rest (group_add key r socrata_by_key)
  end.

(** [legistar_by_key]: a dict from key to the item object, here to the
    item's position in [legistar_items]; an item whose normalized number
    is empty is not entered. *)
Fixpoint build_legistar_by_key (legistar_items : list Item) (pos : nat)
    (legistar_by_key : gmap Key nat) : option (gmap Key nat) :=
  match legistar_items with
  | [] => Some legistar_by_key
  | item :: rest =>
      norm_num ← normalize_agenda_number (agenda_number item);
      build_legistar_by_key rest (S pos)
        (if is_empty norm_num then legistar_by_key
         else <[(event_date item, norm_num) := pos]> legistar_by_key)
  end.

(** The matching loop: the items after the merges, and the keys added to
    [unmatched_socrata_keys] in the order of their insertion. *)
Fixpoint match_groups (socrata_by_key : list (Key * list SocrataRecord))
    (legistar_by_key : gmap Key nat) (items : list Item) (unmatched : list Key)
    : list Item * list Key :=
  match socrata_by_key with
  | [] => (items, unmatched)
  | (key, records) :: rest =>
      match legistar_by_key !! key with
      | Some pos =>
          match_groups rest legistar_by_key
            (alter (fun item => merge_socrata_into_item item records) pos items)
            unmatched
      | None =>
          match_groups rest legistar_by_key items (unmatched ++ [key])
      end
  end.

(** [socrata_by_key[key]] *)
Fixpoint group_lookup (key : Key) (d : list (Key * list SocrataRecord))
    : option (list SocrataRecord) :=
  match d with
  | [] => None
  | (k, rs) :: d' => if decide (k = key) then Some rs else group_lookup key d'
  end.

(** The attributes of the workflow object that phase 3 reads: the
    minutes and video links by meeting date. *)
Record Workflow : Type := {
  _minutes_links : gmap string string;
  _swagit_videos : gmap string string;
}.

(** The order in which a [set] hands out its elements is fixed by the
    interpreter (string hashes differ from run to run), not by the
    program: all that is known is that every element comes once. *)
Record SetOrder : Type := {
  iterate : list Key -> list Key;
  iterate_perm : forall l, iterate l ≡ₚ l;
}.

(** Tuple comparison of two keys. *)
Definition key_leb (k1 k2 : Key) : bool :=
  Py.is_le (Py.lex (String.compare k1.1 k2.1) (String.compare k1.2 k2.2)).

(** The sort key of the merged list:
    [(event_date, int(agenda_sequence or 0), agenda_number)]. *)
Definition seq_number (x : Item) : Z := default 0 (agenda_sequence x).

Definition item_compare (x y : Item) : comparison :=
  Py.lex (String.compare (event_date x) (event_date y))
    (Py.lex (Z.compare (seq_number x) (seq_number y))
       (String.compare (agenda_number x) (agenda_number y))).

Definition item_leb (x y : Item) : bool := Py.is_le (item_compare x y).

(** The dict literal [item_data] of an item that exists only in
    Socrata. *)
Definition item_data (self : Workflow) (key : Key) (sample : SocrataRecord)
    : Item :=
  let '(date_str, norm_num) := key in
  {| event_date := date_str;
     event_body := "City Council";
     agenda_number := agenda_item_number sample;
     agenda_sequence := None;
     title := agenda_item_description sample;
     passed := None;
     vote_type := "";
     minutes_link := default "" (_minutes_links self !! date_str);
     video_link := default "" (_swagit_videos self !! date_str);
     socrata_item_number := "";
     socrata_agenda_info := "";
     socrata_final_action := "";
     item_votes := ∅;
     detail := blank_detail |}.

(** The item synthesized for an unmatched key; [None] stands for the
    [KeyError] or [IndexError] of a key without records. *)
Definition new_item (self : Workflow)
    (socrata_by_key : list (Key * list SocrataRecord)) (key : Key)
    : option Item :=
  records ← group_lookup key socrata_by_key;
  sample ← head records;
  Some (merge_socrata_into_item (item_data self key sample) records).

(** [phase3_correlate] *)
Definition phase3_correlate (order : SetOrder) (self : Workflow)
    (legistar_items : list Item) (socrata_records : list SocrataRecord)
    : option (list Item) :=
  match socrata_records with
  | [] => Some legistar_items
  | _ =>
      socrata_by_key ← build_socrata_by_key socrata_records [];
      legistar_by_key ← build_legistar_by_key legistar_items 0 ∅;
      let '(items, unmatched_socrata_keys) :=
        match_groups socrata_by_key legistar_by_key legistar_items [] in
      new_items ← mapM (new_item self socrata_by_key)
                    (Py.sorted key_leb (iterate order unmatched_socrata_keys));
      let all_items := items ++ new_items in
      Some (Py.sorted item_leb all_items)
  end.

(** Two enumeration orders: by insertion, and its reverse. *)
Program Definition insertion_order : SetOrder :=
  {| iterate := fun l => l |}.
Next Obligation. done. Qed.

Program Definition reverse_order : SetOrder := {| iterate := reverse |}.
Next Obligation. intros l. apply reverse_Permutation. Qed.

End Extract.

(* ===================================================================== *)
(** * build_site.py: codecs and classifiers *)
(* ===================================================================== *)

Inductive VoteChoice : Type := AYE | NAY | ABSTAIN | ABSENT | RECUSAL.

Inductive Outcome : Type := PASS | FAIL | CONTINUED | WITHDRAWN | TABLED.

Inductive Category : Type :=
  | committee_header | first_reading | read_and_filed
  | adopted_no_vote | corrections | other.

Inductive Importance : Type := high | medium | low.

Inductive DisplayType : Type := section_header | legislation | procedural.

Global Instance VoteChoice_eq_dec : EqDecision VoteChoice.
Proof. solve_decision. Defined.
Global Instance Outcome_eq_dec : EqDecision Outcome.
Proof. solve_decision. Defined.
Global Instance Category_eq_dec : EqDecision Category.
Proof. solve_decision. Defined.
Global Instance Importance_eq_dec : EqDecision Importance.
Proof. solve_decision. Defined.

Module BuildSite.
Import PyStr.

Definition NAME_ALIASES : list (string * string) :=
  [("Adam  Bazaldua", "Adam Bazaldua");
   ("Adam  Medrano", "Adam Medrano");
   ("B. Adam McGough", "Adam McGough");
   ("Carolyn Arnold", "Carolyn King Arnold");
   ("Carolyn King  Arnold", "Carolyn King Arnold");
   ("Gay Donnel Willis", "Gay Donnell Willis");
   ("Jaynie Schultz", "Jaynie Shultz");
   ("Jennifer S.  Gates", "Jennifer S. Gates");
   ("Jesse  Moreno", "Jesse Moreno");
   ("Tennel Atkins", "Tennell Atkins");
   ("Tennell  Atkins", "Tennell Atkins");
   ("Zarin D. Gracey", "Zarin Gracey")].

(** [table.get(key)] on a literal dict. *)
Fixpoint table_get {V} (table : list (string * V)) (key : string)
    : option V :=
  match table with
  | [] => None
  | (k, v) :: rest => if String.eqb k key then Some v else table_get rest key
  end.

(** [normalize_name] *)
Definition normalize_name (name : string) : string :=
  let name := strip name in
  let name := join " " (split name) in
  default name (table_get NAME_ALIASES name).

Definition VOTE_MAP : list (string * VoteChoice) :=
  [("YES", AYE);
   ("NO", NAY);
   ("AWVT", ABSENT);
   ("ABSNT", ABSENT);
   ("ABSNT_CB", ABSENT);
   ("ABST", ABSTAIN)].

(** [map_vote]: [None] is "not on the council for this vote". *)
Definition map_vote (raw_vote : string) : option VoteChoice :=
  let v := upper (strip raw_vote) in
  if is_empty v || String.eqb v "N/A" then None
  else table_get VOTE_MAP v.

(** [derive_outcome] *)
Definition derive_outcome (passed_val : PyVal)
    (final_action matter_status : option string) : Outcome :=
  let p := strip (Py.str passed_val) in
  let fa := upper (strip (or_empty final_action)) in
  let ms := upper (strip (or_empty matter_status)) in
  if String.eqb p "1" then PASS
  else if String.eqb p "0" then
    if contains "DENIED" fa then FAIL
    else if contains "DEFERRED" fa then CONTINUED
    else if contains "DELETED" fa then WITHDRAWN
    else if contains "DID NOT PASS" fa then FAIL
    else FAIL
  else if existsb (fun kw => contains kw fa)
            ["APPROVED"; "ADOPTED"; "PASSED"; "CONFIRMED"; "ACCEPTED";
             "GRANTED"; "SUSTAINED"; "RATIFIED"] then PASS
  else if contains "AMENDED" fa then PASS
  else if existsb (fun kw => contains kw fa)
            ["DENIED"; "REJECTED"; "DEFEATED"; "FAILED"] then FAIL
  else if contains "DEFERRED" fa || contains "HELD" fa then CONTINUED
  else if contains "DELETED" fa || contains "WITHDRAWN" fa then WITHDRAWN
  else if contains "REMANDED" fa then CONTINUED
  else if contains "TABLED" fa then TABLED
  else if contains "APPROVED" ms then PASS
  else if contains "DEFERRED" ms then CONTINUED
  else PASS.

Definition SECTION_HEADERS : list string :=
  ["AGENDA"; "ORDER OF BUSINESS"; "INVOCATION"; "PLEDGE OF ALLEGIANCE";
   "OPEN MICROPHONE"; "MINUTES"; "CONSENT AGENDA";
   "ITEMS FOR INDIVIDUAL CONSIDERATION"; "ADDITIONS"; "ZONING";
   "PUBLIC HEARINGS AND RELATED ACTIONS"; "ADJOURNMENT";
   "BRIEFINGS"; "PRESENTATIONS"].

(** [classify_non_voted_item] *)
Definition classify_non_voted_item
    (title matter_type matter_status final_action : option string)
    : Category * Importance * DisplayType :=
  let t_upper := upper (strip (or_empty title)) in
  let mt := upper (strip (or_empty matter_type)) in
  let ms := upper (strip (or_empty matter_status)) in
  let fa := upper (strip (or_empty final_action)) in
  if existsb (fun sh => String.eqb t_upper sh
                        || startswith t_upper (sh +:+ String "010" ""))
       SECTION_HEADERS
  then (committee_header, medium, section_header)
  else if contains "FIRST" fa && contains "READ" fa
  then (first_reading, high, legislation)
  else if contains "FIRST READING" t_upper
  then (first_reading, high, legislation)
  else if contains "READ" fa && contains "FILED" fa
  then (read_and_filed, low, procedural)
  else if contains "ADOPTED" fa || contains "APPROVED" ms
  then (adopted_no_vote, medium, legislation)
  else if contains "CORRECT" fa || contains "CORRECT" ms
  then (corrections, low, procedural)
  else if contains "HEARING" t_upper
  then (other, medium, legislation)
  else (other, low, procedural).

(** ** The builder's data *)

(** The roster entry of a council member ([self.members[name]]). *)
Record Member : Type := {
  full_name : string;
  short_name : string;
  district : string;
  titles : gset string;
  first_seen : string;
  last_seen : string;
  raw_names : gset string;
}.

Inductive ItemType : Type := voted | non_voted.

(** The tallies shown with a voted agenda item. *)
Record VoteSummary : Type := {
  vs_id : Z;
  vs_outcome : Outcome;
  vs_ayes : Z;
  vs_noes : Z;
  vs_abstain : Z;
  vs_absent : Z;
}.

(** One entry of a meeting's [agenda_items].  A voted entry has no
    category; text fields copied from the row without a decision taken on
    them (section, topics, matter file and type, description, action) are
    left out. *)
Record AgendaItem : Type := {
  agenda_sequence : Z;
  item_type : ItemType;
  category : option Category;
  importance : option Importance;
  display_type : option DisplayType;
  ai_title : string;
  ai_vote : option VoteSummary;
}.

Record Meeting : Type := {
  id : Z;
  event_id : string;
  meeting_date : string;
  agenda_url : option string;
  minutes_url : option string;
  video_url : option string;
  vote_count : Z;
  non_voted_count : Z;
  first_reading_count : Z;
  agenda_item_count : Z;
  agenda_items : list AgendaItem;
}.

(** A vote record ([self.votes]); [member_votes] maps a canonical name to
    the member's choice.  The text fields copied from the row without a
    decision taken on them are left out, as in [AgendaItem]. *)
Record Vote : Type := {
  v_id : Z;
  outcome : Outcome;
  ayes : Z;
  noes : Z;
  abstain : Z;
  absent : Z;
  item_number : string;
  title : string;
  v_meeting_date : string;
  meeting_id : Z;
  member_votes : gmap string VoteChoice;
}.

(** The builder object.  [members] is a dict in insertion order. *)
Record Builder : Type := {
  members : list (string * Member);
  _current_members : gset string;
  meetings : list Meeting;
  votes : list Vote;
  vote_id_counter : Z;
  meeting_id_counter : Z;
}.

(** One [*-Votes.csv] file as [csv.DictReader] hands it over: the header
    and the rows, each a dict from column name to cell. *)
Record VotesFile : Type := {
  fieldnames : list string;
  rows : list (gmap string string);
}.

Definition fixed_cols : list string :=
  ["event_id"; "event_date"; "event_time"; "event_body";
   "event_location"; "event_item_id"; "agenda_number";
   "agenda_sequence"; "title"; "matter_file"; "matter_type";
   "matter_status"; "matter_id"; "matter_title";
   "matter_intro_date"; "matter_enactment_number";
   "matter_requester"; "matter_body_name"; "passed";
   "vote_type"; "consent"; "tally"; "mover"; "seconder";
   "roll_call_flag"; "socrata_item_number";
   "socrata_agenda_info"; "socrata_final_action";
   "agenda_link"; "minutes_link"; "video_link";
   "attachment_links"].

Definition in_list (x : string) (l : list string) : bool :=
  existsb (String.eqb x) l.

(** [row.get(col) or ""] *)
Definition cell (row : gmap string string) (col : string) : string :=
  or_empty (row !! col).

(** [x or None] for text. *)
Definition or_none (x : string) : option string :=
  if is_empty x then None else Some x.

(** The number of members with a given choice:
    [sum(1 for v in member_votes.values() if v == c)]. *)
Definition tally (c : VoteChoice) (member_votes : gmap string VoteChoice)
    : Z :=
  Z.of_nat (length (filter (fun kv => kv.2 = c) (map_to_list member_votes))).

(** The member votes of one row. *)
Definition collect_member_votes (members : list (string * Member))
    (member_cols : list string) (row : gmap string string)
    : gmap string VoteChoice :=
  foldl (fun member_votes col =>
           let canonical := normalize_name col in
           let raw_vote := strip (cell row col) in
           match map_vote raw_vote with
           | Some mapped =>
               if bool_decide (is_Some (table_get members canonical))
               then <[canonical := mapped]> member_votes
               else member_votes
           | None => member_votes
           end)
        ∅ member_cols.

(** ** The loader *)

Definition MeetingKey : Type := string * string.

(** The loader's state while rows are read: its locals [meetings_by_key]
    and [seen_items], and the builder's votes and counters. *)
Record LoadState : Type := {
  meetings_by_key : list (MeetingKey * Meeting);
  seen_items : gset (string * string);
  ls_votes : list Vote;
  ls_vote_id_counter : Z;
  ls_meeting_id_counter : Z;
}.

Fixpoint meetings_get (key : MeetingKey) (d : list (MeetingKey * Meeting))
    : option Meeting :=
  match d with
  | [] => None
  | (k, m) :: d' => if decide (k = key) then Some m else meetings_get key d'
  end.

Fixpoint meetings_set (key : MeetingKey) (m : Meeting)
    (d : list (MeetingKey * Meeting)) : list (MeetingKey * Meeting) :=
  match d with
  | [] => [(key, m)]
  | (k, m0) :: d' =>
      if decide (k = key) then (k, m) :: d'
      else (k, m0) :: meetings_set key m d'
  end.

Definition new_meeting (counter : Z) (event_id date : string)
    (row : gmap string string) : Meeting :=
  {| id := counter; event_id := event_id; meeting_date := date;
     agenda_url := or_none (cell row "agenda_link");
     minutes_url := or_none (cell row "minutes_link");
     video_url := or_none (cell row "video_link");
     vote_count := 0; non_voted_count := 0; first_reading_count := 0;
     agenda_item_count := 0; agenda_items := [] |}.

(** [if val and not meeting[json_field]: meeting[json_field] = val] *)
Definition update_link (current : option string)
    (row : gmap string string) (link_field : string) : option string :=
  let val := strip (cell row link_field) in
  if negb (is_empty val) && is_empty (or_empty current)
  then Some val else current.

(** [int(seq) if seq.isdigit() else meeting["agenda_item_count"] - 1] *)
Definition item_sequence (seq : string) (agenda_item_count : Z) : option Z :=
  if isdigit seq then Z.of_N <$> int_of_digits seq
  else Some (agenda_item_count - 1).

(** The meeting after one row: links filled in where they were missing,
    the counters as given, one more agenda item. *)
Definition record_entry (meeting : Meeting) (row : gmap string string)
    (vc nvc frc : Z) (entry : AgendaItem) : Meeting :=
  {| id := id meeting; event_id := event_id meeting;
     meeting_date := meeting_date meeting;
     agenda_url := update_link (agenda_url meeting) row "agenda_link";
     minutes_url := update_link (minutes_url meeting) row "minutes_link";
     video_url := update_link (video_url meeting) row "video_link";
     vote_count := vc; non_voted_count := nvc; first_reading_count := frc;
     agenda_item_count := agenda_item_count meeting + 1;
     agenda_items := agenda_items meeting ++ [entry] |}.

(** The body of the loop over the rows of one file.  The list kept for
    [agenda-items.json] ([self.all_items]) is a separate output on which no
    meeting or vote depends; it is not modelled. *)
Definition process_row (members : list (string * Member))
    (member_cols : list string) (st : LoadState) (row : gmap string string)
    : option LoadState :=
  let date := strip (cell row "event_date") in
  if is_empty date then Some st else
  let event_id := strip (cell row "event_id") in
  let seq := strip (cell row "agenda_sequence") in
  let item_num := strip (cell row "agenda_number") in
  let title := strip (cell row "title") in
  let eid := strip (cell row "event_item_id") in
  if is_empty title then Some st else
  let item_key :=
    (date, if is_empty eid
           then seq +:+ "_" +:+ item_num +:+ "_" +:+ slice_to 50 title
           else eid) in
  if bool_decide (item_key ∈ seen_items st) then Some st else
  let seen := {[item_key]} ∪ seen_items st in
  let meeting_key := (event_id, date) in
  let '(counter, meeting) :=
    match meetings_get meeting_key (meetings_by_key st) with
    | Some m => (ls_meeting_id_counter st, m)
    | None => (ls_meeting_id_counter st + 1,
               new_meeting (ls_meeting_id_counter st + 1) event_id date row)
    end in
  let member_votes := collect_member_votes members member_cols row in
  let has_votes := negb (bool_decide (member_votes = ∅)) in
  let count := agenda_item_count meeting + 1 in
  agenda_sequence ← item_sequence seq count;
  if has_votes then
    let vote_id := ls_vote_id_counter st + 1 in
    let outcome :=
      derive_outcome (PyStr (default "" (row !! "passed")))
        (Some (default "" (row !! "socrata_final_action")))
        (Some (default "" (row !! "matter_status"))) in
    let ayes := tally AYE member_votes in
    let noes := tally NAY member_votes in
    let abstain := tally ABSTAIN member_votes in
    let absent := tally ABSENT member_votes in
    let stripped := rstrip_char "." item_num in
    let vote_record :=
      {| v_id := vote_id; outcome := outcome; ayes := ayes; noes := noes;
         abstain := abstain; absent := absent;
         item_number := if is_empty stripped then seq else stripped;
         title := title; v_meeting_date := date; meeting_id := id meeting;
         member_votes := member_votes |} in
    let entry :=
      {| agenda_sequence := agenda_sequence; item_type := voted;
         category := None; importance := None; display_type := None;
         ai_title := title;
         ai_vote := Some {| vs_id := vote_id; vs_outcome := outcome;
                            vs_ayes := ayes; vs_noes := noes;
                            vs_abstain := abstain; vs_absent := absent |} |} in
    Some {| meetings_by_key :=
              meetings_set meeting_key
                (record_entry meeting row (vote_count meeting + 1)
                   (non_voted_count meeting) (first_reading_count meeting)
                   entry)
                (meetings_by_key st);
            seen_items := seen;
            ls_votes := ls_votes st ++ [vote_record];
            ls_vote_id_counter := vote_id;
            ls_meeting_id_counter := counter |}
  else
    let fa := strip (cell row "socrata_final_action") in
    let '(category, importance, display_type) :=
      classify_non_voted_item (Some title)
        (Some (default "" (row !! "matter_type")))
        (Some (default "" (row !! "matter_status"))) (Some fa) in
    let entry :=
      {| agenda_sequence := agenda_sequence; item_type := non_voted;
         category := Some category; importance := Some importance;
         display_type := Some display_type;
         ai_title := title; ai_vote := None |} in
    Some {| meetings_by_key :=
              meetings_set meeting_key
                (record_entry meeting row (vote_count meeting)
                   (non_voted_count meeting + 1)
                   (if bool_decide (category = first_reading)
                    then first_reading_count meeting + 1
                    else first_reading_count meeting) entry)
                (meetings_by_key st);
            seen_items := seen;
            ls_votes := ls_votes st;
            ls_vote_id_counter := ls_vote_id_counter st;
            ls_meeting_id_counter := counter |}.

Definition process_file (members : list (string * Member))
    (st : LoadState) (f : VotesFile) : option LoadState :=
  let member_cols :=
    List.filter (fun c => negb (in_list c fixed_cols)) (fieldnames f) in
  Py.foldM (process_row members member_cols) st (rows f).

Definition sequence_leb (x y : AgendaItem) : bool :=
  agenda_sequence x <=? agenda_sequence y.

Definition sort_agenda (m : Meeting) : Meeting :=
  {| id := id m; event_id := event_id m; meeting_date := meeting_date m;
     agenda_url := agenda_url m; minutes_url := minutes_url m;
     video_url := video_url m; vote_count := vote_count m;
     non_voted_count := non_voted_count m;
     first_reading_count := first_reading_count m;
     agenda_item_count := agenda_item_count m;
     agenda_items := Py.sorted sequence_leb (agenda_items m) |}.

Definition meeting_date_leb (x y : Meeting) : bool :=
  String.leb (meeting_date x) (meeting_date y).

Definition vote_leb (x y : Vote) : bool :=
  Py.is_le (Py.lex (String.compare (v_meeting_date x) (v_meeting_date y))
                   (String.compare (item_number x) (item_number y))).

(** [_load_all_csv_data] *)
Definition _load_all_csv_data (self : Builder) (votes_files : list VotesFile)
    : option Builder :=
  st ← Py.foldM (process_file (members self))
         {| meetings_by_key := []; seen_items := ∅; ls_votes := votes self;
            ls_vote_id_counter := vote_id_counter self;
            ls_meeting_id_counter := meeting_id_counter self |}
         votes_files;
  let sorted_meetings :=
    (fun km => sort_agenda km.2) <$> meetings_by_key st in
  Some {| members := members self;
          _current_members := _current_members self;
          meetings := Py.sorted_reverse meeting_date_leb sorted_meetings;
          votes := Py.sorted_reverse vote_leb (ls_votes st);
          vote_id_counter := ls_vote_id_counter st;
          meeting_id_counter := ls_meeting_id_counter st |}.

(** ** Member statistics *)

Record Counters : Type := {
  total : Z;
  aye_count : Z;
  nay_count : Z;
  abstain_count : Z;
  absent_count : Z;
  recusal_count : Z;
  votes_on_losing_side : Z;
  close_vote_dissents : Z;
}.

Definition is_decisive (o : Outcome) : bool :=
  match o with PASS | FAIL => true | _ => false end.

Definition on_losing (o : Outcome) (mv : VoteChoice) : bool :=
  match o, mv with
  | PASS, NAY | FAIL, AYE => true
  | _, _ => false
  end.

Definition bump (b : bool) (n : Z) : Z := if b then n + 1 else n.

(** The body of the loop over [self.votes] in [_compute_member_stats]. *)
Definition count_vote (name : string) (c : Counters) (vote : Vote)
    : Counters :=
  match member_votes vote !! name with
  | None => c
  | Some mv =>
      let losing :=
        is_decisive (outcome vote) && on_losing (outcome vote) mv in
      let margin := Z.abs (ayes vote - noes vote) in
      {| total := total c + 1;
         aye_count := bump (bool_decide (mv = AYE)) (aye_count c);
         nay_count := bump (bool_decide (mv = NAY)) (nay_count c);
         abstain_count := bump (bool_decide (mv = ABSTAIN)) (abstain_count c);
         absent_count := bump (bool_decide (mv = ABSENT)) (absent_count c);
         recusal_count := bump (bool_decide (mv = RECUSAL)) (recusal_count c);
         votes_on_losing_side := bump losing (votes_on_losing_side c);
         close_vote_dissents :=
           bump (losing && (margin <=? 2)) (close_vote_dissents c) |}
  end.

Definition zero_counters : Counters :=
  {| total := 0; aye_count := 0; nay_count := 0; abstain_count := 0;
     absent_count := 0; recusal_count := 0; votes_on_losing_side := 0;
     close_vote_dissents := 0 |}.

Definition count_votes (name : string) (votes : list Vote) : Counters :=
  foldl (count_vote name) zero_counters votes.

(** The records a member takes part in whose outcome is neither PASS nor
    FAIL. *)
Definition special_outcomes (name : string) (votes : list Vote) : Z :=
  Z.of_nat (length (List.filter
    (fun v => bool_decide (is_Some (member_votes v !! name))
              && negb (is_decisive (outcome v))) votes)).

Definition dissent_denom (name : string) (votes : list Vote) : Z :=
  let c := count_votes name votes in
  let valid_votes := total c - absent_count c - abstain_count c in
  let special := special_outcomes name votes in
  if valid_votes >? special then valid_votes - special else 1.

Record MemberStats : Type := {
  s_total_votes : Z;
  s_aye_count : Z;
  s_nay_count : Z;
  s_abstain_count : Z;
  s_absent_count : Z;
  s_recusal_count : Z;
  s_aye_percentage : Q;
  s_participation_rate : Q;
  s_dissent_rate : Q;
  s_votes_on_losing_side : Z;
  s_votes_on_winning_side : Z;
  s_close_vote_dissents : Z;
}.

(** [_compute_member_stats] *)
Definition _compute_member_stats (self : Builder) (name : string)
    : MemberStats :=
  let c := count_votes name (votes self) in
  let denom := dissent_denom name (votes self) in
  {| s_total_votes := total c;
     s_aye_count := aye_count c;
     s_nay_count := nay_count c;
     s_abstain_count := abstain_count c;
     s_absent_count := absent_count c;
     s_recusal_count := recusal_count c;
     s_aye_percentage :=
       if total c =? 0 then 0%Q
       else Py.round1 (Py.percent (aye_count c) (total c));
     s_participation_rate :=
       if total c =? 0 then 0%Q
       else Py.round1 (Py.percent (total c - absent_count c - abstain_count c)
                         (total c));
     s_dissent_rate :=
       if denom =? 0 then 0%Q
       else Py.round1 (Py.percent (votes_on_losing_side c) denom);
     s_votes_on_losing_side := votes_on_losing_side c;
     s_votes_on_winning_side :=
       total c - votes_on_losing_side c - absent_count c - abstain_count c
       - recusal_count c;
     s_close_vote_dissents := close_vote_dissents c |}.

(** ** Pairwise alignment *)

Record AlignmentPair : Type := {
  member1 : string;
  member2 : string;
  shared_votes : Z;
  agreements : Z;
  agreement_rate : Q;
}.

Record Alignment : Type := {
  al_members : list string;
  alignment_pairs : list AlignmentPair;
  most_aligned : list AlignmentPair;
  least_aligned : list AlignmentPair;
}.

(** [itertools.combinations(l, 2)] *)
Fixpoint combinations2 {A} (l : list A) : list (A * A) :=
  match l with
  | [] => []
  | x :: l' => map (pair x) l' ++ combinations2 l'
  end.

(** [v in ("AYE", "NAY")] for the result of [member_votes.get]. *)
Definition aye_or_nay (v : option VoteChoice) : bool :=
  match v with
  | Some AYE | Some NAY => true
  | _ => false
  end.

(** The inner loop over [self.votes]: [(shared, agreements)]. *)
Definition pair_step (m1 m2 : string) (acc : Z * Z) (vote : Vote) : Z * Z :=
  let v1 := member_votes vote !! m1 in
  let v2 := member_votes vote !! m2 in
  if aye_or_nay v1 && aye_or_nay v2
  then (acc.1 + 1, if bool_decide (v1 = v2) then acc.2 + 1 else acc.2)
  else acc.

Definition pair_tally (votes : list Vote) (m1 m2 : string) : Z * Z :=
  foldl (pair_step m1 m2) (0, 0) votes.

(** [self.members[name]["short_name"]]; the names looked up are keys of
    [members]. *)
Definition short_of (self : Builder) (name : string) : string :=
  match table_get (members self) name with
  | Some m => short_name m
  | None => ""
  end.

Definition pair_entry (self : Builder) (p : string * string)
    : list AlignmentPair :=
  let '(shared, agreements) := pair_tally (votes self) p.1 p.2 in
  if shared >? 0
  then [ {| member1 := short_of self p.1;
            member2 := short_of self p.2;
            shared_votes := shared;
            agreements := agreements;
            agreement_rate := Py.round1 (Py.percent agreements shared) |} ]
  else [].

Definition current_names (self : Builder) : list string :=
  Py.sorted String.leb
    (List.filter (fun name => bool_decide (name ∈ _current_members self))
       (members self).*1).

Definition rate_leb (p q : AlignmentPair) : bool :=
  Qle_bool (agreement_rate p) (agreement_rate q).

(** [_generate_alignment_json]: the document written to
    [alignment.json]. *)
Definition _generate_alignment_json (self : Builder) : Alignment :=
  let names := current_names self in
  let pairs := flat_map (pair_entry self) (combinations2 names) in
  let pairs := Py.sorted rate_leb pairs in
  let n := length pairs in
  {| al_members := short_of self <$> names;
     alignment_pairs := pairs;
     most_aligned := if (3 <=? n)%nat then reverse (drop (n - 3) pairs)
                     else reverse pairs;
     least_aligned := if (3 <=? n)%nat then take 3 pairs else pairs |}.

End BuildSite.

(* ===================================================================== *)
(** * The documented rules, as written *)
(* ===================================================================== *)

(** These definitions follow the prose of the specification; the theorems
    below compare them with the program. *)

Module Documented.
Import PyStr.

(** Key normalizer: "strip one trailing period". *)
Fixpoint strip_one_period (s : string) : string :=
  match s with
  | EmptyString => EmptyString
  | String c s' =>
      if is_empty s'
      then (if Ascii.eqb c "." then EmptyString else s)
      else String c (strip_one_period s')
  end.

(** "Trim surrounding whitespace, strip one trailing period, then if the
    remainder is entirely digits, strip leading zeros by integer
    round-trip." *)
Definition normalize (raw : string) : string :=
  let cleaned := strip_one_period (strip raw) in
  if isdecimal cleaned then strip_leading_zeros cleaned else cleaned.

(** What the program leaves of a raw number before looking at its
    digits: surrounding whitespace and every trailing period removed. *)
Definition trimmed (raw : string) : string := rstrip_char "." (strip raw).

(** The rule with every trailing period stripped. *)
Definition normalize_amended (raw : string) : string :=
  if isdecimal (trimmed raw) then strip_leading_zeros (trimmed raw)
  else trimmed raw.

(** The explicit passed/failed flag read from a cell. *)
Definition flag_of (passed_val : PyVal) : option bool :=
  let p := strip (Py.str passed_val) in
  if String.eqb p "1" then Some true
  else if String.eqb p "0" then Some false
  else None.

Definition any_in (kws : list string) (text : string) : bool :=
  existsb (fun kw => contains kw text) kws.

(** Rules 2 to 4 of the outcome classifier: no explicit flag. *)
Definition outcome_from_text (fa ms : string) : Outcome :=
  if any_in ["APPROVED"; "ADOPTED"; "PASSED"; "CONFIRMED"; "ACCEPTED";
             "GRANTED"; "SUSTAINED"; "RATIFIED"; "AMENDED"] fa then PASS
  else if any_in ["DENIED"; "REJECTED"; "DEFEATED"; "FAILED"] fa then FAIL
  else if any_in ["DEFERRED"; "HELD"] fa then CONTINUED
  else if any_in ["DELETED"; "WITHDRAWN"] fa then WITHDRAWN
  else if contains "REMANDED" fa then CONTINUED
  else if contains "TABLED" fa then TABLED
  else if contains "APPROVED" ms then PASS
  else if contains "DEFERRED" ms then CONTINUED
  else PASS.

(** Rule 1 as documented: "DENIED" or "DID NOT PASS" first. *)
Definition classify (flag : option bool) (fa ms : string) : Outcome :=
  match flag with
  | Some true => PASS
  | Some false =>
      if contains "DENIED" fa || contains "DID NOT PASS" fa then FAIL
      else if contains "DEFERRED" fa then CONTINUED
      else if contains "DELETED" fa then WITHDRAWN
      else FAIL
  | None => outcome_from_text fa ms
  end.

(** Rule 1 in the order the program applies it: "DENIED" decides first,
    then "DEFERRED" and "DELETED"; "DID NOT PASS" no longer changes the
    result. *)
Definition classify_amended (flag : option bool) (fa ms : string) : Outcome :=
  match flag with
  | Some true => PASS
  | Some false =>
      if contains "DENIED" fa then FAIL
      else if contains "DEFERRED" fa then CONTINUED
      else if contains "DELETED" fa then WITHDRAWN
      else FAIL
  | None => outcome_from_text fa ms
  end.

(** The text the classifier looks at: trimmed and upper-cased. *)
Definition text_of (x : option string) : string :=
  upper (strip (or_empty x)).

End Documented.

(** ** Vocabulary for the correlator *)

Module Correlation.
Import PyStr Extract.

(** The inputs on which the key normalizer returns. *)
Definition normalizable (legistar_items : list Item)
    (socrata_records : list SocrataRecord) : Prop :=
  Forall (fun item => is_Some (normalize_agenda_number (agenda_number item)))
    legistar_items
  ∧ Forall (fun r => is_Some (normalize_agenda_number (agenda_item_number r)))
      socrata_records.

(** The composite key of a source-A item; an item whose normalized number
    is empty has none. *)
Definition legistar_key (item : Item) : option Key :=
  match normalize_agenda_number (agenda_number item) with
  | Some norm_num =>
      if is_empty norm_num then None else Some (event_date item, norm_num)
  | None => None
  end.

Definition has_key (k : Key) (item : Item) : bool :=
  bool_decide (legistar_key item = Some k).

Definition in_group (k : Key) (r : SocrataRecord) : bool :=
  bool_decide (socrata_key r = Some k).

(** The source-B group of a key: its records, in input order. *)
Definition group_of (socrata_records : list SocrataRecord) (k : Key)
    : list SocrataRecord :=
  List.filter (in_group k) socrata_records.

(** The key under which the item at position [i] is found in the index:
    its own key, provided no later item has the same key. *)
Definition indexed_key (legistar_items : list Item) (i : nat) (item : Item)
    : option Key :=
  k ← legistar_key item;
  if existsb (has_key k) (drop (S i) legistar_items) then None else Some k.

(** The dict of groups built from a list of records: one entry for each
    key with records, holding them in input order. *)
Definition groups_of (P : list SocrataRecord)
    (d : list (Key * list SocrataRecord)) : Prop :=
  NoDup d.*1
  ∧ forall k, group_lookup k d
              = if decide (group_of P k = []) then None else Some (group_of P k).

(** The position the index holds for a key after a scan that starts at
    [pos] with [found] already entered. *)
Fixpoint last_position (k : Key) (items : list Item) (pos : nat)
    (found : option nat) : option nat :=
  match items with
  | [] => found
  | item :: rest =>
      last_position k rest (S pos) (if has_key k item then Some pos else found)
  end.

(** The index built from a list of items, starting from the empty
    dict. *)
Definition index_of (items : list Item) (idx : gmap Key nat) : Prop :=
  forall k, idx !! k = last_position k items 0 None.

(** What becomes of the source-A item at position [i]. *)
Definition merged_item (legistar_items : list Item)
    (socrata_records : list SocrataRecord) (i : nat) (item : Item) : Item :=
  match indexed_key legistar_items i item with
  | Some k => merge_socrata_into_item item (group_of socrata_records k)
  | None => item
  end.

(** A source-B group without a source-A counterpart. *)
Definition unmatched (legistar_items : list Item)
    (socrata_records : list SocrataRecord) (k : Key) : Prop :=
  group_of socrata_records k ≠ []
  ∧ forall item, item ∈ legistar_items -> legistar_key item ≠ Some k.

(** The item synthesized for an unmatched group. *)
Definition synthesized (self : Workflow)
    (socrata_records : list SocrataRecord) (k : Key) (item : Item) : Prop :=
  exists sample rest,
    group_of socrata_records k = sample :: rest
    ∧ item = merge_socrata_into_item (item_data self k sample)
               (sample :: rest).

(** The last vote recorded under a name in a group. *)
Definition last_vote (name : string) (records : list SocrataRecord)
    : option string :=
  vote <$> last (List.filter (fun r => String.eqb (voter_name r) name) records).

End Correlation.

(** ** Vocabulary for the meeting counts and the member statistics *)

Module Aggregates.
Import PyStr BuildSite.

Definition unit_of (b : bool) : Z := if b then 1 else 0.

(** The number of entries of a list that pass a test. *)
Definition count_where {X} (f : X -> bool) (l : list X) : Z :=
  Z.of_nat (length (List.filter f l)).

Definition is_voted (x : AgendaItem) : bool :=
  match item_type x with voted => true | non_voted => false end.

Definition is_non_voted (x : AgendaItem) : bool :=
  match item_type x with voted => false | non_voted => true end.

Definition is_first_reading (x : AgendaItem) : bool :=
  bool_decide (category x = Some first_reading).

(** The derived counts of a meeting agree with its agenda items. *)
Definition counts_consistent (m : Meeting) : Prop :=
  agenda_item_count m = Z.of_nat (length (agenda_items m))
  ∧ vote_count m = count_where is_voted (agenda_items m)
  ∧ non_voted_count m = count_where is_non_voted (agenda_items m)
  ∧ first_reading_count m = count_where is_first_reading (agenda_items m).

Definition meetings_consistent (st : LoadState) : Prop :=
  Forall (fun km => counts_consistent km.2) (meetings_by_key st).

(** A row whose sequence cell, when made of digit characters, is made of
    decimal digits: the rows on which [int(seq)] returns. *)
Definition sequence_ok (row : gmap string string) : Prop :=
  isdigit (strip (cell row "agenda_sequence")) = true ->
  isdecimal (strip (cell row "agenda_sequence")) = true.

Definition files_ok (votes_files : list VotesFile) : Prop :=
  Forall (fun f => Forall sequence_ok (rows f)) votes_files.

(** A vote record in which nobody is recorded with RECUSAL. *)
Definition no_recusal (v : Vote) : Prop :=
  forall name, member_votes v !! name ≠ Some RECUSAL.

(** The member is in the record's vote mapping, with whatever choice. *)
Definition took_part (name : string) (v : Vote) : bool :=
  bool_decide (is_Some (member_votes v !! name)).

(** The member is in the record's vote mapping with the given choice. *)
Definition chose (c : VoteChoice) (name : string) (v : Vote) : bool :=
  bool_decide (member_votes v !! name = Some c).

(** A record counted among the special outcomes of a member. *)
Definition special_record (name : string) (v : Vote) : bool :=
  took_part name v && negb (is_decisive (outcome v)).

(** A vote on the losing side: NAY on a PASS, AYE on a FAIL. *)
Definition losing_side (name : string) (v : Vote) : bool :=
  match member_votes v !! name with
  | Some NAY => bool_decide (outcome v = PASS)
  | Some AYE => bool_decide (outcome v = FAIL)
  | _ => false
  end.

(** A close dissent: a losing-side vote with an aye/nay margin of at most
    two. *)
Definition close_dissent (name : string) (v : Vote) : bool :=
  losing_side name v && (Z.abs (ayes v - noes v) <=? 2).

(** The records of the documented dissent denominator: the member took
    part with a choice other than ABSENT or ABSTAIN, and the outcome is PASS
    or FAIL. *)
Definition in_dissent_denominator (name : string) (v : Vote) : bool :=
  match member_votes v !! name with
  | None | Some ABSENT | Some ABSTAIN => false
  | Some _ => is_decisive (outcome v)
  end.

(** The records the program subtracts a second time: the member was
    ABSENT or ABSTAIN and the outcome is neither PASS nor FAIL. *)
Definition excluded_twice (name : string) (v : Vote) : bool :=
  match member_votes v !! name with
  | Some ABSENT | Some ABSTAIN => negb (is_decisive (outcome v))
  | _ => false
  end.

(** The documented denominator, floored at one, and the documented rate. *)
Definition dissent_denominator (name : string) (votes : list Vote) : Z :=
  Z.max 1 (count_where (in_dissent_denominator name) votes).

Definition dissent_rate (name : string) (votes : list Vote) : Q :=
  Py.round1 (Py.percent (count_where (losing_side name) votes)
               (dissent_denominator name votes)).

(** A record shared by two members: both voted AYE or NAY. *)
Definition shared_record (m1 m2 : string) (v : Vote) : bool :=
  aye_or_nay (member_votes v !! m1) && aye_or_nay (member_votes v !! m2).

(** A shared record on which the two choices are equal. *)
Definition agreeing_record (m1 m2 : string) (v : Vote) : bool :=
  shared_record m1 m2 v
  && bool_decide (member_votes v !! m1 = member_votes v !! m2).

End Aggregates.

(* ===================================================================== *)
(** * Sample data *)
(* ===================================================================== *)

(** Small inputs on which the theorems are instantiated. *)

Module Samples.
Import Extract.

Definition legistar_item (d n t : string) (s : option Z) : Item :=
  {| event_date := d; event_body := "City Council"; agenda_number := n;
     agenda_sequence := s; title := t; passed := None; vote_type := "";
     minutes_link := ""; video_link := ""; socrata_item_number := "";
     socrata_agenda_info := ""; socrata_final_action := "";
     item_votes := ∅; detail := blank_detail |}.

Definition socrata_row (d n who v : string) : SocrataRecord :=
  {| date := d; agenda_item_number := n;
     agenda_item_description := "Authorize a contract";
     item_type := "CONSENT"; final_action_taken := "APPROVED";
     voter_name := who; vote := v |}.

Definition workflow : Workflow :=
  {| _minutes_links := ∅; _swagit_videos := ∅ |}.

(** Two Legistar items with the same key, and one more. *)
Definition legistar_items : list Item :=
  [legistar_item "2025-10-15" "12" "Zoning case" (Some 3);
   legistar_item "2025-10-15" "012." "Zoning case, revised" (Some 4);
   legistar_item "2025-10-15" "13" "Street repair" (Some 5)].

(** A group for key ("2025-10-15", "12") and a group without a Legistar
    counterpart. *)
Definition socrata_records : list SocrataRecord :=
  [socrata_row "2025-10-15T00:00:00" "12." "Adam Bazaldua" "YES";
   socrata_row "2025-10-15T00:00:00" "12" "Cara Mendelsohn" "NO";
   socrata_row "2025-10-15T00:00:00" "7" "Adam Bazaldua" "YES"].

(** A vote record of the site builder. *)
Definition vote_record (n : Z) (o : Outcome) (a b : Z)
    (mv : list (string * VoteChoice)) : BuildSite.Vote :=
  {| BuildSite.v_id := n; BuildSite.outcome := o; BuildSite.ayes := a;
     BuildSite.noes := b; BuildSite.abstain := 0; BuildSite.absent := 0;
     BuildSite.item_number := "1"; BuildSite.title := "Item";
     BuildSite.v_meeting_date := "2025-10-15"; BuildSite.meeting_id := 1;
     BuildSite.member_votes := list_to_map mv |}.

Definition member (name short : string) : string * BuildSite.Member :=
  (name, {| BuildSite.full_name := name; BuildSite.short_name := short;
            BuildSite.district := ""; BuildSite.titles := ∅;
            BuildSite.first_seen := "2023-06-20";
            BuildSite.last_seen := "2025-10-15";
            BuildSite.raw_names := ∅ |}).

Definition builder (vs : list BuildSite.Vote) : BuildSite.Builder :=
  {| BuildSite.members := [member "Ann Ames" "Ames"; member "Bo Burke" "Burke"];
     BuildSite._current_members := {["Ann Ames"; "Bo Burke"]};
     BuildSite.meetings := [];
     BuildSite.votes := vs;
     BuildSite.vote_id_counter := 0;
     BuildSite.meeting_id_counter := 0 |}.

(** Ann dissents on two passed items and is absent from a continued one. *)
Definition dissent_votes : list BuildSite.Vote :=
  [vote_record 1 PASS 1 1 [("Ann Ames", NAY); ("Bo Burke", AYE)];
   vote_record 2 PASS 1 1 [("Ann Ames", NAY); ("Bo Burke", AYE)];
   vote_record 3 CONTINUED 1 0 [("Ann Ames", ABSENT); ("Bo Burke", AYE)]].

(** Ann and Bo share three records and agree on one. *)
Definition alignment_votes : list BuildSite.Vote :=
  [vote_record 1 PASS 2 0 [("Ann Ames", AYE); ("Bo Burke", AYE)];
   vote_record 2 PASS 1 1 [("Ann Ames", NAY); ("Bo Burke", AYE)];
   vote_record 3 PASS 1 1 [("Ann Ames", AYE); ("Bo Burke", NAY)];
   vote_record 4 PASS 1 0 [("Ann Ames", AYE); ("Bo Burke", ABSENT)]].

(** One votes file: a header row, a first reading, a voted item, and a
    duplicate of the voted item. *)
Definition csv_row (cells : list (string * string)) : gmap string string :=
  list_to_map cells.

Definition votes_file : BuildSite.VotesFile :=
  {| BuildSite.fieldnames :=
       ["event_id"; "event_date"; "event_item_id"; "agenda_number";
        "agenda_sequence"; "title"; "passed"; "socrata_final_action";
        "Ann Ames"; "Bo  Burke"];
     BuildSite.rows :=
       [csv_row [("event_id", "77"); ("event_date", "2025-10-15");
                 ("event_item_id", "1"); ("agenda_sequence", "1");
                 ("title", "CONSENT AGENDA")];
        csv_row [("event_id", "77"); ("event_date", "2025-10-15");
                 ("event_item_id", "2"); ("agenda_sequence", "3");
                 ("title", "An ordinance, first reading")];
        csv_row [("event_id", "77"); ("event_date", "2025-10-15");
                 ("event_item_id", "3"); ("agenda_number", "12.");
                 ("agenda_sequence", "2"); ("title", "Zoning case");
                 ("passed", "1"); ("Ann Ames", "YES"); ("Bo  Burke", "NO")];
        csv_row [("event_id", "77"); ("event_date", "2025-10-15");
                 ("event_item_id", "3"); ("agenda_number", "12.");
                 ("agenda_sequence", "2"); ("title", "Zoning case");
                 ("passed", "1"); ("Ann Ames", "YES"); ("Bo  Burke", "NO")]] |}.

End Samples.

(* ===================================================================== *)
(** * extract_dallas.py: what is handed to the site builder *)
(* ===================================================================== *)

Module Output.
Import PyStr Extract.

(** The value [_write_csv_file] puts in a fixed column:
    ['' if val is None else val]. *)
Definition row_value (val : PyVal) : PyVal :=
  match val with
  | PyNone => PyStr ""
  | _ => val
  end.

(** The text [csv.DictWriter] writes for a value, [str(val)]; it is the
    text the site builder reads from the cell. *)
Definition cell_text (val : PyVal) : string := Py.str (row_value val).

(** [item['passed']] as a Python value: 1, 0 or [None]. *)
Definition passed_value (passed : option Z) : PyVal :=
  match passed with
  | Some z => PyInt z
  | None => PyNone
  end.

End Output.

(** ** Vocabulary for the loader's bookkeeping *)

Module Bookkeeping.
Import PyStr BuildSite.

(** The deduplication key of a row: the date with the event item id, or,
    without one, with sequence, number and the first 50 characters of the
    title. *)
Definition item_key (row : gmap string string) : string * string :=
  let date := strip (cell row "event_date") in
  let seq := strip (cell row "agenda_sequence") in
  let item_num := strip (cell row "agenda_number") in
  let title := strip (cell row "title") in
  let eid := strip (cell row "event_item_id") in
  (date, if is_empty eid
         then seq +:+ "_" +:+ item_num +:+ "_" +:+ slice_to 50 title
         else eid).

(** A row the loader passes over: it has no date, or no title, or its key
    has been seen. *)
Definition settled (st : LoadState) (row : gmap string string) : Prop :=
  is_empty (strip (cell row "event_date")) = true
  ∨ is_empty (strip (cell row "title")) = true
  ∨ item_key row ∈ seen_items st.

(** The tallies of a vote record as its agenda entry shows them. *)
Definition summary_of (v : Vote) : VoteSummary :=
  {| vs_id := v_id v; vs_outcome := outcome v; vs_ayes := ayes v;
     vs_noes := noes v; vs_abstain := abstain v; vs_absent := absent v |}.

(** The loader's state when it starts on a builder. *)
Definition initial_state (self : Builder) : LoadState :=
  {| meetings_by_key := []; seen_items := ∅; ls_votes := votes self;
     ls_vote_id_counter := vote_id_counter self;
     ls_meeting_id_counter := meeting_id_counter self |}.

(** The key under which the loader files a meeting. *)
Definition meeting_key (m : Meeting) : MeetingKey :=
  (event_id m, meeting_date m).

(** The vote record is on the agenda of the meeting: the meeting has the
    record's meeting id and date, and one of its agenda items is a voted
    item with the record's id, outcome, tallies and title. *)
Definition listed_in (m : Meeting) (v : Vote) : Prop :=
  id m = meeting_id v
  ∧ meeting_date m = v_meeting_date v
  ∧ exists x, x ∈ agenda_items m ∧ item_type x = voted
              ∧ ai_vote x = Some (summary_of v) ∧ ai_title x = title v.

(** The tallies of a vote record count its vote mapping, which is not
    empty and holds roster members only, none of them with RECUSAL. *)
Definition tallied (members : list (string * Member)) (v : Vote) : Prop :=
  ayes v = tally AYE (member_votes v)
  ∧ noes v = tally NAY (member_votes v)
  ∧ abstain v = tally ABSTAIN (member_votes v)
  ∧ absent v = tally ABSENT (member_votes v)
  ∧ member_votes v ≠ ∅
  ∧ forall name c, member_votes v !! name = Some c ->
                   c ≠ RECUSAL ∧ is_Some (table_get members name).

(** The ids handed out by a counter that started at [c0] and stands at
    [counter]: [c0 + 1], ..., [counter], in this order. *)
Definition ids_from (c0 counter : Z) (ids : list Z) : Prop :=
  c0 <= counter ∧ ids = seqZ (c0 + 1) (counter - c0).

(** The meetings on file: one for each key, filed under its own key, with
    the ids the meeting counter has handed out since [c0], in the order of
    their creation. *)
Definition meetings_filed (c0 : Z) (st : LoadState) : Prop :=
  NoDup (meetings_by_key st).*1
  ∧ Forall (fun km => km.1 = meeting_key km.2) (meetings_by_key st)
  ∧ ids_from c0 (ls_meeting_id_counter st) (id <$> (meetings_by_key st).*2).

(** Every vote record is on the agenda of a meeting on file. *)
Definition votes_listed (st : LoadState) : Prop :=
  Forall (fun v => exists km, km ∈ meetings_by_key st ∧ listed_in km.2 v)
    (ls_votes st).

End Bookkeeping.

(** ** Vocabulary for the figures of the reports *)

Module Figures.
Import BuildSite.

(** Counters that add up: the five choices make up the total, nothing is
    negative, the close dissents are among the losing-side votes, and
    these among the ayes and nays. *)
Definition balanced (c : Counters) : Prop :=
  aye_count c + nay_count c + abstain_count c + absent_count c
  + recusal_count c = total c
  ∧ 0 <= aye_count c ∧ 0 <= nay_count c ∧ 0 <= abstain_count c
  ∧ 0 <= absent_count c ∧ 0 <= recusal_count c
  ∧ 0 <= close_vote_dissents c <= votes_on_losing_side c
  ∧ votes_on_losing_side c <= aye_count c + nay_count c.

End Figures.

(* ===================================================================== *)
(** * extract_dallas.py: date ranges, paging and minutes links *)
(* ===================================================================== *)

Module Fetch.
Import PyStr.

Definition LEGISTAR_PAGE_SIZE : Z := 1000.
Definition SOCRATA_PAGE_SIZE : Z := 50000.

Definition QUARTER_DATES : list (Z * (string * string)) :=
  [(1, ("01-01", "04-01"));
   (2, ("04-01", "07-01"));
   (3, ("07-01", "10-01"));
   (4, ("10-01", "01-01"))].

(** [QUARTER_DATES[quarter]]; [None] stands for the [KeyError]. *)
Fixpoint quarter_lookup (table : list (Z * (string * string))) (quarter : Z)
    : option (string * string) :=
  match table with
  | [] => None
  | (q, dates) :: rest =>
      if q =? quarter then Some dates else quarter_lookup rest quarter
  end.

(** [get_quarter_dates]: the first day of the quarter and the first day
    of the next one. *)
Definition get_quarter_dates (year quarter : Z) : option (string * string) :=
  dates ← quarter_lookup QUARTER_DATES quarter;
  let start := str_of_Z year +:+ "-" +:+ dates.1 in
  let end_year := if quarter =? 4 then year + 1 else year in
  let end_date := str_of_Z end_year +:+ "-" +:+ dates.2 in
  Some (start, end_date).

(** The paging loop of [_legistar_get_all] and of [fetch_socrata_votes].
    [get skip] is the answer to the request for the page at offset [skip],
    [None] when the request fails; the loop asks for every offset at most
    once, so a function of the offset stands for any server.  The loop runs
    until a page is short or a request fails; [fuel] bounds the number of
    requests, and the result is [None] when it does not suffice. *)
Fixpoint fetch_pages {A} (page_size : Z) (get : Z -> option (list A))
    (fuel : nat) (skip : Z) (all_results : list A) : option (list A) :=
  match fuel with
  | O => None
  | S fuel' =>
      match get skip with
      | None => Some all_results
      | Some results =>
          let all_results := all_results ++ results in
          if Z.of_nat (length results) <? page_size then Some all_results
          else fetch_pages page_size get fuel' (skip + page_size) all_results
      end
  end.

Definition _legistar_get_all {A} (get : Z -> option (list A)) (fuel : nat)
    : option (list A) :=
  fetch_pages LEGISTAR_PAGE_SIZE get fuel 0 [].

Definition fetch_socrata_votes {A} (get : Z -> option (list A)) (fuel : nat)
    : option (list A) :=
  fetch_pages SOCRATA_PAGE_SIZE get fuel 0 [].

(** A server that holds [data] and answers every request with the page
    asked for. *)
Definition serves {A} (page_size : Z) (data : list A) (skip : Z)
    : option (list A) :=
  Some (take (Z.to_nat page_size) (drop (Z.to_nat skip) data)).

(** The same server, failing from the page at offset [limit] on. *)
Definition serves_until {A} (limit : Z) (page_size : Z) (data : list A)
    (skip : Z) : option (list A) :=
  if skip <? limit then serves page_size data skip else None.

(** [f"{n:02d}"] *)
Definition pad2 (n : N) : string :=
  let s := str_of_N n in
  if (String.length s <? 2)%nat then "0" +:+ s else s.

(** The date of a minutes file in [fetch_minutes_links]: the stamp
    [MMDDYY] of the file name as an ISO date, with years from 97 on in the
    1900s.  The pattern hands over six decimal digits; [None] stands for
    the [ValueError] that the loop catches. *)
Definition minutes_date (mmddyy : string) : option string :=
  mm ← int_of_digits (String.substring 0 2 mmddyy);
  dd ← int_of_digits (String.substring 2 2 mmddyy);
  yy ← int_of_digits (String.substring 4 2 mmddyy);
  let full_year := if (97 <=? yy)%N then (1900 + yy)%N else (2000 + yy)%N in
  Some (str_of_N full_year +:+ "-" +:+ pad2 mm +:+ "-" +:+ pad2 dd).

(** The body of the loop over the matches of one page: the first link
    found for a date is kept. *)
Definition add_minutes_link (date_to_url : gmap string string)
    (m : string * string) : gmap string string :=
  let '(full_url, mmddyy) := m in
  match minutes_date mmddyy with
  | Some iso_date =>
      match date_to_url !! iso_date with
      | Some _ => date_to_url
      | None => <[iso_date := full_url]> date_to_url
      end
  | None => date_to_url
  end.

Definition add_minutes_links (date_to_url : gmap string string)
    (matches : list (string * string)) : gmap string string :=
  foldl add_minutes_link date_to_url matches.

(** The first match with a given date. *)
Definition first_link (iso_date : string) (matches : list (string * string))
    : option string :=
  fst <$> head (List.filter
                  (fun m => bool_decide (minutes_date m.2 = Some iso_date))
                  matches).

(** The quarter after a quarter. *)
Definition next_quarter (year quarter : Z) : Z * Z :=
  if quarter =? 4 then (year + 1, 1) else (year, quarter + 1).

End Fetch.

(* ===================================================================== *)
(** * extract_dallas.py: the persons file *)
(* ===================================================================== *)

Module Persons.
Import PyStr Extract.

(** A Socrata row with the two fields that only the persons file
    reads. *)
Record SocrataPerson : Type := {
  base : SocrataRecord;
  sp_district : string;
  sp_title : string;
}.

(** One row of the persons file. *)
Record PersonRow : Type := {
  p_district : string;
  p_voter_name : string;
  p_title : string;
  p_first_seen : string;
  p_last_seen : string;
  p_vote_count : Z;
}.

(** [(r.get('date', '') or '')[:10]] *)
Definition date_of (r : SocrataPerson) : string :=
  slice_to 10 (date (base r)).

(** The body of the loop over the records in
    [_write_persons_csv_from_socrata]. *)
Definition person_step (person_data : gmap string PersonRow)
    (r : SocrataPerson) : gmap string PersonRow :=
  let name := voter_name (base r) in
  if is_empty name then person_data
  else
    let date_str := date_of r in
    let row :=
      default {| p_district := sp_district r; p_voter_name := name;
                 p_title := sp_title r; p_first_seen := date_str;
                 p_last_seen := date_str; p_vote_count := 0 |}
              (person_data !! name) in
    <[name :=
        {| p_district := p_district row;
           p_voter_name := p_voter_name row;
           p_title := p_title row;
           p_first_seen := if String.ltb date_str (p_first_seen row)
                           then date_str else p_first_seen row;
           p_last_seen := if String.ltb (p_last_seen row) date_str
                          then date_str else p_last_seen row;
           p_vote_count := p_vote_count row + 1 |}]> person_data.

(** [_write_persons_csv_from_socrata]: the rows written, in the order of
    [sorted(person_data.keys())]. *)
Definition _write_persons_csv_from_socrata
    (socrata_records : list SocrataPerson) : list PersonRow :=
  let person_data := foldl person_step ∅ socrata_records in
  omap (fun name => person_data !! name)
    (Py.sorted String.leb (elements (dom person_data))).

(** The records of a voter, in input order. *)
Definition records_of (name : string) (socrata_records : list SocrataPerson)
    : list SocrataPerson :=
  List.filter (fun r => String.eqb (voter_name (base r)) name)
    socrata_records.

(** What the persons file says about a voter with at least one record:
    district and title of the first record, the earliest and the latest
    date, and the number of records. *)
Definition summarizes (row : PersonRow) (name : string)
    (socrata_records : list SocrataPerson) : Prop :=
  let mine := records_of name socrata_records in
  p_voter_name row = name
  ∧ p_vote_count row = Z.of_nat (length mine)
  ∧ (exists r rest, mine = r :: rest
                    ∧ p_district row = sp_district r
                    ∧ p_title row = sp_title r)
  ∧ (exists r, r ∈ mine ∧ p_first_seen row = date_of r)
  ∧ (exists r, r ∈ mine ∧ p_last_seen row = date_of r)
  ∧ (forall r, r ∈ mine ->
       String.leb (p_first_seen row) (date_of r) = true
       ∧ String.leb (date_of r) (p_last_seen row) = true).

End Persons.

(* ===================================================================== *)
(** * build_site.py: the roster *)
(* ===================================================================== *)

Module Roster.
Import PyStr BuildSite.

Definition SHORT_NAME_OVERRIDES : list (string * string) :=
  [("Casey Thomas II", "Thomas")].

(** [table[key] = v] on a dict in insertion order. *)
Fixpoint table_set {V} (key : string) (v : V) (table : list (string * V))
    : list (string * V) :=
  match table with
  | [] => [(key, v)]
  | (k, v0) :: rest =>
      if String.eqb k key then (k, v) :: rest
      else (k, v0) :: table_set key v rest
  end.

(** One row of a persons file as [csv.DictReader] hands it over: a dict
    from column name to cell.  Every row is taken to have a cell for every
    column of the header (the reader fills a shorter row with [None]); a
    column that is not in the dict is missing from the header. *)
Definition PersonsRow : Type := gmap string string.

(** The body of the loop over the rows in [_load_members]; [None] stands
    for the [KeyError] of a missing column and for the [IndexError] of a
    blank name. *)
Definition load_member_row (members : list (string * Member))
    (row : PersonsRow) : option (list (string * Member)) :=
  voter_name ← row !! "voter_name";
  row_first_seen ← row !! "first_seen";
  row_last_seen ← row !! "last_seen";
  let name := normalize_name voter_name in
  m ← match table_get members name with
      | Some m => Some m
      | None =>
          last_word ← last (split name);
          Some {| full_name := name;
                  short_name :=
                    default last_word (table_get SHORT_NAME_OVERRIDES name);
                  district := default "" (row !! "district");
                  titles := ∅;
                  first_seen := row_first_seen;
                  last_seen := row_last_seen;
                  raw_names := ∅ |}
      end;
  let title := strip (default "" (row !! "title")) in
  Some (table_set name
          {| full_name := full_name m;
             short_name := short_name m;
             district := district m;
             titles := if is_empty title then titles m
                       else {[title]} ∪ titles m;
             first_seen :=
               if negb (is_empty row_first_seen)
                  && String.ltb row_first_seen (first_seen m)
               then row_first_seen else first_seen m;
             last_seen :=
               if negb (is_empty row_last_seen)
                  && String.ltb (last_seen m) row_last_seen
               then row_last_seen else last_seen m;
             raw_names := {[strip voter_name]}
                          ∪ ({[join " " (split voter_name)]} ∪ raw_names m) |}
          members).

Definition with_members (self : Builder) (members : list (string * Member))
    : Builder :=
  {| members := members;
     _current_members := _current_members self;
     meetings := meetings self;
     votes := votes self;
     vote_id_counter := vote_id_counter self;
     meeting_id_counter := meeting_id_counter self |}.

(** [_load_members]; [persons_files] holds the rows of the persons files
    in the order of the sorted file names. *)
Definition _load_members (self : Builder)
    (persons_files : list (list PersonsRow)) : option Builder :=
  members ← Py.foldM (Py.foldM load_member_row) (members self) persons_files;
  Some (with_members self members).

(** [_load_current_members] *)
Definition _load_current_members (self : Builder)
    (persons_files : list (list PersonsRow)) : option Builder :=
  names ← match last persons_files with
          | None => Some []
          | Some latest =>
              mapM (fun row : PersonsRow =>
                      normalize_name <$> row !! "voter_name") latest
          end;
  Some {| members := members self;
          _current_members := list_to_set names;
          meetings := meetings self;
          votes := votes self;
          vote_id_counter := vote_id_counter self;
          meeting_id_counter := meeting_id_counter self |}.

(** [_is_current] *)
Definition _is_current (self : Builder) (name : string) : bool :=
  bool_decide (name ∈ _current_members self).

(** [_get_position] *)
Definition _get_position (self : Builder) (name : string) : string :=
  let titles :=
    match table_get (members self) name with
    | Some m => titles m
    | None => ∅
    end in
  if bool_decide ("Mayor" ∈ titles) then "Mayor"
  else if bool_decide ("Mayor Pro Tem" ∈ titles) then "Mayor Pro Tem"
  else if bool_decide ("Deputy Mayor Pro Tem" ∈ titles)
  then "Deputy Mayor Pro Tem"
  else "Council Member".

(** The sort key of [_assign_member_ids]: [(first_seen, name)]. *)
Definition first_seen_of (members : list (string * Member)) (name : string)
    : string :=
  match table_get members name with
  | Some m => first_seen m
  | None => ""
  end.

Definition member_leb (members : list (string * Member)) (n1 n2 : string)
    : bool :=
  Py.is_le (Py.lex (String.compare (first_seen_of members n1)
                      (first_seen_of members n2))
                   (String.compare n1 n2)).

(** [name.split()[0][0]]; [None] stands for the [IndexError] of a name
    without a word. *)
Definition first_initial (name : string) : option string :=
  match split name with
  | String c _ :: _ => Some (String c "")
  | _ => None
  end.

(** [len(short_counts[short])] *)
Definition short_count (members : list (string * Member)) (short : string)
    : nat :=
  length (List.filter (fun km => String.eqb (short_name km.2) short) members).

(** A member whose short name is shared gets the initial in front. *)
Definition disambiguate (members : list (string * Member))
    (km : string * Member) : option (string * Member) :=
  if (1 <? short_count members (short_name km.2))%nat
  then
    initial ← first_initial km.1;
    Some (km.1,
          {| full_name := full_name km.2;
             short_name := initial +:+ ". " +:+ short_name km.2;
             district := district km.2;
             titles := titles km.2;
             first_seen := first_seen km.2;
             last_seen := last_seen km.2;
             raw_names := raw_names km.2 |})
  else Some km.

(** The ids of [enumerate(sorted_members, 1)]. *)
Definition number_members (sorted_members : list string) : gmap string Z :=
  foldl (fun member_id_map '(i, name) => <[name := i]> member_id_map) ∅
    (zip (seqZ 1 (Z.of_nat (length sorted_members))) sorted_members).

(** [_assign_member_ids]: the id map and the builder with the short
    names made distinct. *)
Definition _assign_member_ids (self : Builder)
    : option (gmap string Z * Builder) :=
  let sorted_members :=
    Py.sorted (member_leb (members self)) (members self).*1 in
  let member_id_map := number_members sorted_members in
  members ← mapM (disambiguate (members self)) (members self);
  Some (member_id_map, with_members self members).

(** The rows of a member: those whose voter name has the member's name as
    canonical form. *)
Definition member_rows (name : string) (rows : list PersonsRow)
    : list PersonsRow :=
  List.filter
    (fun row : PersonsRow =>
       bool_decide (normalize_name <$> row !! "voter_name" = Some name))
    rows.

Definition rows_of (name : string) (persons_files : list (list PersonsRow))
    : list PersonsRow :=
  member_rows name (concat persons_files).

(** The title cell of a row, trimmed. *)
Definition title_of (row : PersonsRow) : string :=
  strip (default "" (row !! "title")).

(** What the roster holds for a member, against the member's rows: the
    canonical name; as short name the override or the last word of the
    name; the titles of the rows; as last_seen the latest of the rows; as
    first_seen the earliest of those that are not empty, unless the first
    row has none, in which case it stays empty. *)
Definition on_record (m : Member) (name : string) (rows : list PersonsRow)
    : Prop :=
  full_name m = name
  ∧ short_name m
    = default (default "" (last (split name)))
        (table_get SHORT_NAME_OVERRIDES name)
  ∧ (forall t, t ∈ titles m
               <-> t ≠ "" ∧ exists row, row ∈ rows ∧ title_of row = t)
  ∧ (exists row, row ∈ rows ∧ row !! "last_seen" = Some (last_seen m))
  ∧ (forall row ls, row ∈ rows -> row !! "last_seen" = Some ls ->
                    String.leb ls (last_seen m) = true)
  ∧ (exists row, row ∈ rows ∧ row !! "first_seen" = Some (first_seen m))
  ∧ (forall row fs, row ∈ rows -> row !! "first_seen" = Some fs ->
                    fs ≠ "" -> String.leb (first_seen m) fs = true)
  ∧ (first_seen m = ""
     <-> exists row, head rows = Some row ∧ row !! "first_seen" = Some "").

(** A row that [_load_members] can read: the three columns it indexes
    are there, and the name is not blank. *)
Definition readable (row : PersonsRow) : Prop :=
  is_Some (row !! "first_seen") ∧ is_Some (row !! "last_seen")
  ∧ exists voter_name, row !! "voter_name" = Some voter_name
                       ∧ split (normalize_name voter_name) ≠ [].

(** The roster built from a list of rows: one entry for each canonical
    name with a row, none of them blank, each holding what is on record for
    its rows. *)
Definition roster_of (rows : list PersonsRow)
    (members : list (string * Member)) : Prop :=
  NoDup members.*1
  ∧ Forall (fun km => split km.1 ≠ []) members
  ∧ forall name,
      match table_get members name with
      | Some m => on_record m name (member_rows name rows)
      | None => member_rows name rows = []
      end.

End Roster.

(* ===================================================================== *)
(** * build_site.py: section and topics of a voted item *)
(* ===================================================================== *)

Inductive AgendaSection : Type := CONSENT | GENERAL | PUBLIC_HEARING.

Module Tagging.
Import PyStr.

(** [s.lower()], character by character. *)
Definition lower_char (c : ascii) : ascii :=
  let n := ord c in
  if ((65 <=? n) && (n <=? 90)
      || (192 <=? n) && (n <=? 222) && negb (n =? 215))%N
  then Ascii.ascii_of_N (n + 32)
  else c.

Fixpoint lower (s : string) : string :=
  match s with
  | EmptyString => EmptyString
  | String c s' => String (lower_char c) (lower s')
  end.

(** [classify_section] *)
Definition classify_section (matter_status title agenda_info : option string)
    : AgendaSection :=
  let ms := upper (or_empty matter_status) in
  let t := upper (or_empty title) in
  let ai := upper (or_empty agenda_info) in
  if contains "HEARING" ms || contains "HEARING" t
     || contains "PUBLIC HEARING" t
  then PUBLIC_HEARING
  else if contains "CONSENT" ms || contains "CONSENT AGENDA" ms then CONSENT
  else if contains "INDIVIDUAL" ms then GENERAL
  else if contains "ZONING" t then PUBLIC_HEARING
  else CONSENT.

Definition TOPIC_KEYWORDS : list (string * list string) :=
  [("Appointments",
    ["appointment"; "board"; "commission"; "nominate"; "nominee"]);
   ("Budget & Finance",
    ["budget"; "appropriation"; "revenue"; "fiscal"; "tax increment";
     "financing"; "financial"; "fund"; "bond"; "revenue"]);
   ("Community Services",
    ["library"; "libraries"; "social service"; "community";
     "nonprofit"; "non-profit"; "youth"; "senior"]);
   ("Contracts & Agreements",
    ["contract"; "agreement"; "memorandum of understanding"; "mou";
     "vendor"; "procurement"; "rfp"; "supplemental agreement";
     "interlocal"; "professional services"]);
   ("Economic Development",
    ["economic development"; "incentive"; "redevelopment"; "tif";
     "tax increment"; "business"; "commercial"]);
   ("Emergency Services",
    ["police"; "fire"; "ems"; "emergency"; "disaster"; "dpd";
     "fire-rescue"; "public safety"; "law enforcement"]);
   ("Health & Safety",
    ["health"; "safety"; "code enforcement"; "sanitation";
     "environmental"; "hazardous"; "pollution"]);
   ("Housing",
    ["housing"; "affordable"; "residential"; "tenant"; "homeless";
     "shelter"]);
   ("Infrastructure",
    ["infrastructure"; "water"; "sewer"; "drainage"; "storm";
     "utility"; "utilities"; "pipeline"; "watershed"; "dwu"]);
   ("Ordinances & Resolutions",
    ["ordinance"; "resolution"; "municipal code"; "amend";
     "chapter"; "code amendment"]);
   ("Parks & Recreation",
    ["park"; "recreation"; "trail"; "playground"; "open space"]);
   ("Planning & Development",
    ["zoning"; "land use"; "planning"; "permit"; "plat";
     "specific use"; "comprehensive plan"; "variance";
     "planned development"; "cpc"]);
   ("Property & Real Estate",
    ["property"; "real estate"; "easement"; "lease"; "deed";
     "right-of-way"; "right of way"; "conveyance"]);
   ("Public Works",
    ["street"; "road"; "maintenance"; "waste"; "sanitary";
     "facilities"; "construction"; "repair"; "renovation";
     "design-build"]);
   ("Transportation",
    ["transportation"; "transit"; "traffic"; "signal"; "dart";
     "pedestrian"; "bicycle"; "bike"; "parking"; "txdot";
     "highway"; "freeway"])].

(** The topics with a keyword in the lower-cased title, in the order of
    the table. *)
Definition matching_topics (title_lower : string) : list string :=
  (List.filter
     (fun entry => existsb (fun kw => contains kw title_lower) entry.2)
     TOPIC_KEYWORDS).*1.

(** [classify_topics] *)
Definition classify_topics (title : string) : list string :=
  if is_empty title then ["General"]
  else
    let title_lower := lower title in
    let matches := matching_topics title_lower in
    match matches with
    | [] => ["General"]
    | _ => take 3 matches
    end.

(** The section rule without the two tests that are covered by the test
    before them. *)
Definition section_rule (ms t : string) : AgendaSection :=
  if contains "HEARING" ms || contains "HEARING" t then PUBLIC_HEARING
  else if contains "CONSENT" ms then CONSENT
  else if contains "INDIVIDUAL" ms then GENERAL
  else if contains "ZONING" t then PUBLIC_HEARING
  else CONSENT.

End Tagging.

(* ===================================================================== *)
(** * build_site.py: the reports *)
(* ===================================================================== *)

Module Reports.
Import PyStr BuildSite.

(** ** stats.json *)

Record Stats : Type := {
  total_meetings : Z;
  total_votes : Z;
  total_council_members : Z;
  total_agenda_items : Z;
  total_non_voted_items : Z;
  first_readings : Z;
  pass_rate : Q;
  unanimous_rate : Q;
  date_start : string;
  date_end : string;
}.

(** [sum(f(x) for x in l)] *)
Definition sum_of {X} (f : X -> Z) (l : list X) : Z :=
  foldl (fun acc x => acc + f x) 0 l.

(** [sum(1 for x in l if f(x))] *)
Definition count_of {X} (f : X -> bool) (l : list X) : Z :=
  sum_of (fun x => if f x then 1 else 0) l.

(** [sorted(set(dates))]; the set hands out its elements in an order of
    its own, which the sort makes irrelevant. *)
Definition sorted_set (dates : list string) : list string :=
  Py.sorted String.leb (elements (list_to_set dates : gset string)).

(** [_generate_stats_json]: the figures written to [stats.json]. *)
Definition _generate_stats_json (self : Builder) : Stats :=
  let total_votes := Z.of_nat (length (votes self)) in
  let total_meetings := Z.of_nat (length (meetings self)) in
  let pass_count :=
    count_of (fun v => bool_decide (outcome v = PASS)) (votes self) in
  let unanimous :=
    count_of (fun v => (noes v =? 0) && (abstain v =? 0)
                       && is_decisive (outcome v)) (votes self) in
  let dates :=
    List.filter (fun d => negb (is_empty d)) (v_meeting_date <$> votes self) in
  let all_meeting_dates := meeting_date <$> meetings self in
  let all_dates := sorted_set (dates ++ all_meeting_dates) in
  {| total_meetings := total_meetings;
     total_votes := total_votes;
     total_council_members := Z.of_nat (length (members self));
     total_agenda_items := sum_of agenda_item_count (meetings self);
     total_non_voted_items := sum_of non_voted_count (meetings self);
     first_readings := sum_of first_reading_count (meetings self);
     pass_rate := if total_votes =? 0 then 0%Q
                  else Py.round1 (Py.percent pass_count total_votes);
     unanimous_rate := if total_votes =? 0 then 0%Q
                       else Py.round1 (Py.percent unanimous total_votes);
     date_start := default "" (head all_dates);
     date_end := default "" (last all_dates) |}.

(** The running totals of the loader, as [stats.json] adds them up over
    the meetings, against the votes held so far. *)
Definition accounted (st : LoadState) : Prop :=
  let total f := sum_of (fun km : MeetingKey * Meeting => f km.2)
                   (meetings_by_key st) in
  total agenda_item_count
  = Z.of_nat (length (ls_votes st)) + total non_voted_count
  ∧ total vote_count = Z.of_nat (length (ls_votes st))
  ∧ 0 <= total first_reading_count <= total non_voted_count.

(** ** votes-{year}.json *)

(** One entry of a votes file: the vote record without its member votes
    and meeting id.  The fields left out of [Vote] are left out here. *)
Record VoteLine : Type := {
  vl_id : Z;
  vl_outcome : Outcome;
  vl_ayes : Z;
  vl_noes : Z;
  vl_abstain : Z;
  vl_absent : Z;
  vl_item_number : string;
  vl_title : string;
  vl_meeting_date : string;
}.

Definition vote_line (v : Vote) : VoteLine :=
  {| vl_id := v_id v; vl_outcome := outcome v; vl_ayes := ayes v;
     vl_noes := noes v; vl_abstain := abstain v; vl_absent := absent v;
     vl_item_number := item_number v; vl_title := title v;
     vl_meeting_date := v_meeting_date v |}.

(** [by_year[year].append(x)] on a [defaultdict(list)] in insertion
    order. *)
Fixpoint year_append {V} (year : string) (x : V)
    (by_year : list (string * list V)) : list (string * list V) :=
  match by_year with
  | [] => [(year, [x])]
  | (y, xs) :: rest =>
      if String.eqb y year then (y, xs ++ [x]) :: rest
      else (y, xs) :: year_append year x rest
  end.

(** [v["meeting_date"][:4]] *)
Definition year_of (v : Vote) : string := slice_to 4 (v_meeting_date v).

Definition year_leb {V} (a b : string * V) : bool := String.leb a.1 b.1.

(** [_generate_votes_by_year]: the files written, as pairs of a year and
    the votes of its file, in the order of [sorted(by_year.items())]. *)
Definition _generate_votes_by_year (self : Builder)
    : list (string * list VoteLine) :=
  let by_year :=
    foldl (fun by_year v => year_append (year_of v) (vote_line v) by_year)
      [] (votes self) in
  Py.sorted year_leb by_year.

(** ** votes/{id}.json *)

Record MemberVoteLine : Type := {
  member_id : Z;
  mv_full_name : string;
  vote_choice : VoteChoice;
}.

(** One entry of [member_votes_list]; a name without an id, or with the
    id 0, has none. *)
Definition member_vote_line (member_id_map : gmap string Z)
    (entry : string * VoteChoice) : option MemberVoteLine :=
  match member_id_map !! entry.1 with
  | Some mid =>
      if mid =? 0 then None
      else Some {| member_id := mid; mv_full_name := entry.1;
                   vote_choice := entry.2 |}
  | None => None
  end.

(** The [member_votes] list of [_generate_vote_detail_jsons], in the
    order of [sorted(v["member_votes"].items())]. *)
Definition member_votes_list (member_id_map : gmap string Z) (v : Vote)
    : list MemberVoteLine :=
  omap (member_vote_line member_id_map)
    (Py.sorted year_leb (map_to_list (member_votes v))).

End Reports.

(** ** More sample data *)

Module Fixtures.
Import BuildSite Roster.

Definition persons_row (name title first last_ : string) : PersonsRow :=
  list_to_map [("district", "7"); ("voter_name", name); ("title", title);
               ("first_seen", first); ("last_seen", last_);
               ("vote_count", "12")].

(** Two persons files; the first spells a name with two spaces. *)
Definition persons_files : list (list PersonsRow) :=
  [[persons_row "Adam  Bazaldua" "" "2023-06-20" "2023-09-27";
    persons_row "Carolyn Arnold" "Mayor Pro Tem" "2023-06-20" "2023-09-27"];
   [persons_row "Adam Bazaldua" "Deputy Mayor Pro Tem" "2023-10-11"
      "2023-12-13";
    persons_row "Eric Johnson" "Mayor" "2023-10-11" "2023-12-13"]].

(** The builder as [__init__] leaves it. *)
Definition new_builder : Builder :=
  {| members := []; _current_members := ∅; meetings := []; votes := [];
     vote_id_counter := 0; meeting_id_counter := 0 |}.

End Fixtures.

(* ===================================================================== *)
(** * Properties: text and sorting *)
(* ===================================================================== *)

Section StringFacts.
Import PyStr.

Lemma is_empty_true (s : string) : is_empty s = true <-> s = "".
Proof. destruct s; simpl; split; congruence. Qed.

Lemma isdecimal_char_isdigit (c : ascii) :
  isdecimal_char c = true -> isdigit_char c = true.
Proof. unfold isdigit_char. intros ->. reflexivity. Qed.

Lemma all_decimal_all_digit (s : string) :
  all_chars isdecimal_char s = true -> all_chars isdigit_char s = true.
Proof.
  induction s as [|c s IH]; simpl; [done|].
  intros [Hc Hs]%andb_true_iff.
  rewrite (isdecimal_char_isdigit c Hc). simpl. auto.
Qed.

Lemma isdecimal_isdigit (s : string) : isdecimal s = true -> isdigit s = true.
Proof.
  unfold isdecimal, isdigit. intros [Hne Hs]%andb_true_iff.
  rewrite Hne. simpl. by apply all_decimal_all_digit.
Qed.

(** A decimal digit character is parsed by [uint_of_char]. *)
Lemma uint_of_char_decimal (c : ascii) (d : Decimal.uint) :
  isdecimal_char c = true -> is_Some (uint_of_char c (Some d)).
Proof.
  destruct c as [[|] [|] [|] [|] [|] [|] [|] [|]];
    vm_compute; intros H; try discriminate H; eexists; reflexivity.
Qed.

Lemma uint_of_string_decimal (s : string) :
  all_chars isdecimal_char s = true -> is_Some (NilEmpty.uint_of_string s).
Proof.
  induction s as [|c s IH]; simpl; [by eexists|].
  intros [Hc Hs]%andb_true_iff.
  destruct (IH Hs) as [d ->]. by apply uint_of_char_decimal.
Qed.

(** Printing a normalized numeral drops the leading zeros of the text. *)
Lemma string_of_unorm (d : Decimal.uint) :
  NilZero.string_of_uint (Decimal.unorm d)
  = strip_leading_zeros (NilEmpty.string_of_uint d).
Proof.
  induction d; try reflexivity.
  rewrite DecimalFacts.unorm_D0. exact IHd.
Qed.

(** [str(int(s))] on decimal text. *)
Lemma int_round_trip (s : string) :
  isdecimal s = true ->
  (n ← int_of_digits s; Some (str_of_N n)) = Some (strip_leading_zeros s).
Proof.
  unfold isdecimal. intros [Hne Hs]%andb_true_iff.
  destruct (uint_of_string_decimal s Hs) as [d Hd].
  unfold int_of_digits, NilZero.uint_of_string.
  destruct s as [|c s]; [discriminate Hne|].
  rewrite Hd. simpl. unfold str_of_N.
  rewrite DecimalN.Unsigned.to_of, string_of_unorm.
  by rewrite (NilEmpty.sus _ _ Hd).
Qed.

(** [int(s)] raises on digit text that is not decimal. *)
Lemma uint_of_string_all_decimal (s : string) (d : Decimal.uint) :
  NilEmpty.uint_of_string s = Some d -> all_chars isdecimal_char s = true.
Proof.
  revert d. induction s as [|c s IH]; simpl; [done|].
  intros d. destruct (NilEmpty.uint_of_string s) as [d'|] eqn:E; [|done].
  intros H. rewrite (IH d' eq_refl), andb_true_r.
  apply uint_of_char_spec in H.
  repeat (destruct H as [[-> _]|H]; [reflexivity|]).
  by destruct H as [-> _].
Qed.

Lemma int_of_digits_is_Some (s : string) :
  is_Some (int_of_digits s) <-> isdecimal s = true.
Proof.
  split.
  - intros [n Hn]. unfold int_of_digits, NilZero.uint_of_string in Hn.
    destruct s as [|c s]; [discriminate Hn|].
    destruct (NilEmpty.uint_of_string (String c s)) as [d|] eqn:E;
      [|discriminate Hn].
    unfold isdecimal. simpl is_empty. simpl negb.
    by rewrite (uint_of_string_all_decimal _ _ E).
  - intros H. pose proof (int_round_trip s H) as Hr.
    destruct (int_of_digits s); [by eexists|discriminate Hr].
Qed.

End StringFacts.

(* ===================================================================== *)
(** * Facts about floats *)
(* ===================================================================== *)

Section FloatFacts.

Lemma two_pow_pos (e : Z) : (0 < 2 ^ e)%Q.
Proof. by apply Qpower_0_lt. Qed.

Lemma two_pow_succ (e : Z) : (2 ^ (e + 1) == 2 * 2 ^ e)%Q.
Proof. rewrite Qpower_plus by done. change (2 ^ 1)%Q with 2%Q. ring. Qed.

Lemma two_pow_pred (e : Z) : (2 ^ (e - 1) == 2 ^ e / 2)%Q.
Proof. rewrite Qpower_minus by done. reflexivity. Qed.

Lemma two_pow_le (e1 e2 : Z) : e1 <= e2 -> (2 ^ e1 <= 2 ^ e2)%Q.
Proof. intros H. by apply Qpower_le_compat_l. Qed.

Lemma two_pow_inject (n : Z) : 0 <= n -> (inject_Z (2 ^ n) == 2 ^ n)%Q.
Proof. intros H. by rewrite Zpower_Qpower. Qed.

(** Division as multiplication by a positive factor. *)
Lemma Qdiv_as_mult (a b : Q) :
  (0 < b)%Q -> exists r, (0 < r)%Q ∧ (r * b == 1)%Q ∧ (a / b == a * r)%Q.
Proof.
  intros Hb. exists (/ b)%Q. split; [by apply Qinv_lt_0_compat|].
  split; [|reflexivity]. field. lra.
Qed.

Lemma quotient_bounds (N D r A B K : Q) :
  (0 < r)%Q -> (r * D == 1)%Q -> (A <= N)%Q -> (N < 2 * A)%Q ->
  (B <= D)%Q -> (D < 2 * B)%Q -> (K * B == A)%Q -> (0 < K)%Q ->
  (K / 2 <= N * r < 2 * K)%Q.
Proof.
  intros Hr Hrd HA1 HA2 HB1 HB2 HK HKpos.
  assert (A <= K * D)%Q as Hm1.
  { rewrite <- HK. by apply Qmult_le_l. }
  assert (K * D <= 2 * A)%Q as Hm2.
  { assert (2 * A == K * (2 * B))%Q as -> by (rewrite <- HK; ring).
    apply Qmult_le_l; [done|lra]. }
  assert (K * D * r == K)%Q as Hone.
  { transitivity (K * (r * D))%Q; [ring|]. rewrite Hrd. ring. }
  set (P := (K * D)%Q) in *.
  split.
  - assert (P * (1 # 2) * r == K / 2)%Q as Heq.
    { transitivity (P * r / 2)%Q; [field|]. by rewrite Hone. }
    rewrite <- Heq. apply Qmult_le_compat_r; lra.
  - assert (2 * P * r == 2 * K)%Q as Heq.
    { transitivity (2 * (P * r))%Q; [ring|]. by rewrite Hone. }
    rewrite <- Heq. apply Qmult_lt_compat_r; lra.
Qed.

Lemma binade_spec (q : Q) :
  (0 < q)%Q -> (2 ^ Py.binade q <= q < 2 ^ (Py.binade q + 1))%Q.
Proof.
  intros Hq. destruct q as [n d]. unfold Py.binade. cbn [Qnum Qden].
  assert (0 < n) as Hn by (unfold Qlt in Hq; cbn in Hq; lia).
  set (ln := Z.log2 n). set (ld := Z.log2 (Z.pos d)).
  destruct (Z.log2_spec n Hn) as [Hn1 Hn2]. fold ln in Hn1, Hn2.
  destruct (Z.log2_spec (Z.pos d) ltac:(lia)) as [Hd1 Hd2].
  fold ld in Hd1, Hd2.
  assert (0 <= ln) as Hln by apply Z.log2_nonneg.
  assert (0 <= ld) as Hld by apply Z.log2_nonneg.
  assert (n # d == inject_Z n / inject_Z (Z.pos d))%Q as Hdiv
    by apply Qmake_Qdiv.
  assert (0 < inject_Z (Z.pos d))%Q as Hdpos
    by (change 0%Q with (inject_Z 0); rewrite <- Zlt_Qlt; lia).
  assert (2 ^ ln <= inject_Z n)%Q as Qn1
    by (rewrite <- two_pow_inject by done; by rewrite <- Zle_Qle).
  assert (inject_Z n < 2 ^ (ln + 1))%Q as Qn2.
  { rewrite <- two_pow_inject by lia. rewrite <- Zlt_Qlt.
    by replace (ln + 1) with (Z.succ ln) by lia. }
  assert (2 ^ ld <= inject_Z (Z.pos d))%Q as Qd1
    by (rewrite <- two_pow_inject by done; by rewrite <- Zle_Qle).
  assert (inject_Z (Z.pos d) < 2 ^ (ld + 1))%Q as Qd2.
  { rewrite <- two_pow_inject by lia. rewrite <- Zlt_Qlt.
    by replace (ld + 1) with (Z.succ ld) by lia. }
  destruct (Qdiv_as_mult (inject_Z n) _ Hdpos) as (r & Hr & Hrd & Hnd).
  rewrite Hnd in Hdiv.
  pose proof (two_pow_pos ld) as Pld. pose proof (two_pow_pos ln) as Pln.
  pose proof (two_pow_succ ld) as Sld. pose proof (two_pow_succ ln) as Sln.
  assert (2 ^ (ln - ld) * 2 ^ ld == 2 ^ ln)%Q as Hk.
  { rewrite <- Qpower_plus by done. by replace (ln - ld + ld) with ln by lia. }
  pose proof (two_pow_pos (ln - ld)) as Pk.
  pose proof (two_pow_succ (ln - ld)) as Sk.
  pose proof (two_pow_pred (ln - ld)) as Pk1.
  destruct (quotient_bounds (inject_Z n) (inject_Z (Z.pos d)) r (2 ^ ln)
              (2 ^ ld) (2 ^ (ln - ld)) Hr Hrd Qn1) as [Hlo Hup];
    [by rewrite <- Sln|done|by rewrite <- Sld|done|done|].
  rewrite <- Hdiv in Hlo, Hup.
  set (K := (2 ^ (ln - ld))%Q) in *.
  destruct (Qle_bool K (n # d)) eqn:E.
  - apply Qle_bool_iff in E. split; [done|]. by rewrite Sk.
  - assert (n # d < K)%Q as Hlt.
    { apply Qnot_le_lt. intros H. apply Qle_bool_iff in H. congruence. }
    split; [by rewrite Pk1|].
    by replace (ln - ld - 1 + 1) with (ln - ld) by lia.
Qed.

Lemma two_pow_lt_inv (e1 e2 : Z) : (2 ^ e1 < 2 ^ e2)%Q -> e1 < e2.
Proof. intros H. by apply (Qpower_lt_compat_l_inv 2). Qed.

Lemma binade_unique (q : Q) (j : Z) :
  (2 ^ j <= q < 2 ^ (j + 1))%Q -> Py.binade q = j.
Proof.
  intros [Hlo Hhi].
  assert (0 < q)%Q as Hq by (pose proof (two_pow_pos j); lra).
  destruct (binade_spec q Hq) as [Blo Bhi].
  assert (Py.binade q < j + 1) by (apply two_pow_lt_inv; lra).
  assert (j < Py.binade q + 1) by (apply two_pow_lt_inv; lra).
  lia.
Qed.

Lemma binade_wd (q q' : Q) :
  (0 < q)%Q -> (q == q')%Q -> Py.binade q = Py.binade q'.
Proof.
  intros Hq Heq. symmetry. apply binade_unique. rewrite <- Heq.
  by apply binade_spec.
Qed.

Lemma binade_mono (q1 q2 : Q) :
  (0 < q1)%Q -> (q1 <= q2)%Q -> Py.binade q1 <= Py.binade q2.
Proof.
  intros H1 H12.
  destruct (binade_spec q1 H1) as [B1 _].
  destruct (binade_spec q2 ltac:(lra)) as [_ B2].
  assert (Py.binade q1 < Py.binade q2 + 1) by (apply two_pow_lt_inv; lra).
  lia.
Qed.

Lemma binade_lt (q : Q) (k : Z) :
  (0 < q)%Q -> (q < 2 ^ k)%Q -> Py.binade q < k.
Proof.
  intros Hq Hk. destruct (binade_spec q Hq) as [B1 _].
  apply two_pow_lt_inv. lra.
Qed.

(** ** Rounding to an integer *)

Lemma round_half_even_wd (q q' : Q) :
  (q == q')%Q -> Py.round_half_even q = Py.round_half_even q'.
Proof.
  intros Heq. unfold Py.round_half_even.
  assert (Qfloor q = Qfloor q') as <- by (by rewrite Heq).
  assert ((q - inject_Z (Qfloor q) ?= 1 # 2)%Q
          = (q' - inject_Z (Qfloor q) ?= 1 # 2)%Q) as <-; [|done].
  apply Qcompare_comp; [lra|reflexivity].
Qed.

Lemma round_half_even_integer (q : Q) (n : Z) :
  (q == inject_Z n)%Q -> Py.round_half_even q = n.
Proof.
  intros Hq. unfold Py.round_half_even.
  assert (Qfloor q = n) as -> by (rewrite Hq; apply Qfloor_Z).
  assert ((q - inject_Z n ?= 1 # 2)%Q = Lt) as ->; [|done].
  rewrite Hq. apply Qlt_alt.
  unfold Qminus. rewrite Qplus_opp_r. reflexivity.
Qed.

Lemma round_half_even_close (q : Q) :
  (q - (1 # 2) <= inject_Z (Py.round_half_even q) <= q + (1 # 2))%Q.
Proof.
  unfold Py.round_half_even.
  pose proof (Qfloor_le q) as Hlo. pose proof (Qlt_floor q) as Hhi.
  rewrite inject_Z_plus in Hhi. change (inject_Z 1) with 1%Q in Hhi.
  destruct (q - inject_Z (Qfloor q) ?= 1 # 2)%Q eqn:E.
  - apply Qeq_alt in E.
    destruct (Z.even (Qfloor q)); [|rewrite inject_Z_plus;
      change (inject_Z 1) with 1%Q]; split; lra.
  - apply Qlt_alt in E. split; lra.
  - apply Qgt_alt in E. rewrite inject_Z_plus.
    change (inject_Z 1) with 1%Q. split; lra.
Qed.

(** Rounding keeps the order. *)
Lemma round_half_even_mono (q1 q2 : Q) :
  (q1 <= q2)%Q -> Py.round_half_even q1 <= Py.round_half_even q2.
Proof.
  intros H12.
  pose proof (Qfloor_resp_le _ _ H12) as Hf.
  pose proof (Qfloor_le q1) as L1. pose proof (Qlt_floor q1) as U1.
  pose proof (Qfloor_le q2) as L2. pose proof (Qlt_floor q2) as U2.
  unfold Py.round_half_even.
  destruct (Z.eq_dec (Qfloor q1) (Qfloor q2)) as [Heq|Hne].
  - rewrite <- Heq. set (f := Qfloor q1) in *.
    destruct (Qcompare_spec (q1 - inject_Z f) (1 # 2));
      destruct (Qcompare_spec (q2 - inject_Z f) (1 # 2));
      destruct (Z.even f); try lia; exfalso; lra.
  - assert (Qfloor q1 + 1 <= Qfloor q2) by lia.
    destruct (q1 - inject_Z (Qfloor q1) ?= 1 # 2)%Q;
      destruct (q2 - inject_Z (Qfloor q2) ?= 1 # 2)%Q;
      destruct (Z.even (Qfloor q1)); destruct (Z.even (Qfloor q2)); lia.
Qed.

Lemma round_half_even_range (q : Q) (lo hi : Z) :
  (inject_Z lo <= q <= inject_Z hi)%Q ->
  lo <= Py.round_half_even q <= hi.
Proof.
  intros [Hlo Hhi]. split.
  - rewrite <- (round_half_even_integer (inject_Z lo) lo) by reflexivity.
    by apply round_half_even_mono.
  - rewrite <- (round_half_even_integer (inject_Z hi) hi) by reflexivity.
    by apply round_half_even_mono.
Qed.

(** ** Rounding to a float *)

Lemma float_eq (q : Q) :
  (Py.float q
   == inject_Z (Py.round_half_even (q / 2 ^ Py.ulp_exponent q))
      * 2 ^ Py.ulp_exponent q)%Q.
Proof. unfold Py.float. cbv zeta. apply Qred_correct. Qed.

Lemma float_zero (q : Q) : (q == 0)%Q -> Py.float q = 0%Q.
Proof.
  intros Hq. unfold Py.float. cbv zeta.
  generalize (Py.ulp_exponent q). intros e.
  change 0%Q with (Qred 0). apply Qred_complete.
  rewrite (round_half_even_integer _ 0); [ring|].
  rewrite Hq. unfold Qdiv. ring.
Qed.

Lemma ulp_exponent_wd (q q' : Q) :
  ¬ (q == 0)%Q -> (q == q')%Q -> Py.ulp_exponent q = Py.ulp_exponent q'.
Proof.
  intros Hne Heq. unfold Py.ulp_exponent. f_equal. f_equal.
  apply binade_wd; [|by rewrite Heq].
  destruct (Qlt_le_dec q 0) as [Hneg|Hpos].
  - rewrite Qabs_neg; lra.
  - rewrite Qabs_pos; lra.
Qed.

(** The float of a number does not depend on how the number is written. *)
Lemma float_wd (q q' : Q) : (q == q')%Q -> Py.float q = Py.float q'.
Proof.
  intros Heq. destruct (Qeq_dec q 0) as [H0|H0].
  - rewrite (float_zero q H0), (float_zero q'); [done|by rewrite <- Heq].
  - unfold Py.float. cbv zeta. rewrite <- (ulp_exponent_wd q q' H0 Heq).
    generalize (Py.ulp_exponent q). intros e.
    apply Qred_complete.
    rewrite (round_half_even_wd (q / 2 ^ e) (q' / 2 ^ e)); [reflexivity|].
    by rewrite Heq.
Qed.

Lemma ulp_exponent_pos (q : Q) :
  (0 < q)%Q ->
  Py.ulp_exponent q = Z.max (Py.binade q - 52) Py.float_emin.
Proof.
  intros Hq. unfold Py.ulp_exponent, Py.float_prec.
  rewrite (binade_wd (Qabs q) q); [done| |].
  - rewrite Qabs_pos; lra.
  - apply Qabs_pos. lra.
Qed.

(** The significand of a positive number is at most 2^53, and at least
    2^52 unless the number is subnormal. *)
Lemma significand_bounds (q : Q) :
  (0 < q)%Q ->
  let e := Py.ulp_exponent q in
  let m := Py.round_half_even (q / 2 ^ e) in
  0 <= m <= 2 ^ 53 ∧ (e = Py.binade q - 52 -> 2 ^ 52 <= m).
Proof.
  intros Hq. cbv zeta. rewrite (ulp_exponent_pos q Hq).
  set (j := Py.binade q). set (e := Z.max (j - 52) Py.float_emin).
  destruct (binade_spec q Hq) as [Blo Bhi]. fold j in Blo, Bhi.
  pose proof (two_pow_pos e) as Pe.
  destruct (Qdiv_as_mult q _ Pe) as (r & Hr & Hre & Hdiv).
  assert (2 ^ (j + 1) <= 2 ^ (e + 53))%Q as Hup
    by (apply two_pow_le; unfold e; lia).
  assert (2 ^ (e + 53) == inject_Z (2 ^ 53) * 2 ^ e)%Q as H53.
  { rewrite Qpower_plus by done. rewrite <- (two_pow_inject 53) by done. ring. }
  split.
  - apply round_half_even_range. rewrite Hdiv. split.
    + change (inject_Z 0) with 0%Q. apply Qmult_le_0_compat; lra.
    + assert (inject_Z (2 ^ 53) == inject_Z (2 ^ 53) * 2 ^ e * r)%Q as ->.
      { transitivity (inject_Z (2 ^ 53) * (r * 2 ^ e))%Q;
          [rewrite Hre; ring|ring]. }
      apply Qmult_le_compat_r; lra.
  - intros He. apply round_half_even_range with (hi := 2 ^ 53).
    rewrite Hdiv.
    assert (2 ^ j == inject_Z (2 ^ 52) * 2 ^ e)%Q as H52.
    { rewrite He. replace j with ((j - 52) + 52) at 1 by lia.
      rewrite Qpower_plus by done.
      rewrite <- (two_pow_inject 52) by done. ring. }
    split.
    + assert (inject_Z (2 ^ 52) == inject_Z (2 ^ 52) * 2 ^ e * r)%Q as ->.
      { transitivity (inject_Z (2 ^ 52) * (r * 2 ^ e))%Q;
          [rewrite Hre; ring|ring]. }
      apply Qmult_le_compat_r; lra.
    + assert (inject_Z (2 ^ 53) == inject_Z (2 ^ 53) * 2 ^ e * r)%Q as ->.
      { transitivity (inject_Z (2 ^ 53) * (r * 2 ^ e))%Q;
          [rewrite Hre; ring|ring]. }
      apply Qmult_le_compat_r; lra.
Qed.

Lemma float_nonneg (q : Q) : (0 <= q)%Q -> (0 <= Py.float q)%Q.
Proof.
  intros Hq. destruct (Qeq_dec q 0) as [H0|H0].
  { rewrite (float_zero q H0). lra. }
  assert (0 < q)%Q as Hpos by lra.
  rewrite float_eq. destruct (significand_bounds q Hpos) as [[Hm _] _].
  apply Qmult_le_0_compat; [|pose proof (two_pow_pos (Py.ulp_exponent q)); lra].
  change 0%Q with (inject_Z 0). by rewrite <- Zle_Qle.
Qed.

(** Rounding to a float keeps the order. *)
Lemma float_mono (q1 q2 : Q) :
  (0 <= q1)%Q -> (q1 <= q2)%Q -> (Py.float q1 <= Py.float q2)%Q.
Proof.
  intros H1 H12. destruct (Qeq_dec q1 0) as [H0|H0].
  { rewrite (float_zero q1 H0). apply float_nonneg. lra. }
  assert (0 < q1)%Q as P1 by lra. assert (0 < q2)%Q as P2 by lra.
  pose proof (binade_mono q1 q2 P1 H12) as Hb.
  destruct (significand_bounds q1 P1) as [[_ M1] _].
  destruct (significand_bounds q2 P2) as [_ M2].
  rewrite !float_eq.
  pose proof (ulp_exponent_pos q1 P1) as E1.
  pose proof (ulp_exponent_pos q2 P2) as E2.
  set (e1 := Py.ulp_exponent q1) in *. set (e2 := Py.ulp_exponent q2) in *.
  pose proof (two_pow_pos e1) as Pe1. pose proof (two_pow_pos e2) as Pe2.
  destruct (Z.eq_dec e1 e2) as [Heq|Hne].
  - rewrite <- Heq. apply Qmult_le_compat_r; [|lra].
    rewrite <- Zle_Qle. apply round_half_even_mono.
    unfold Qdiv. apply Qmult_le_compat_r; [done|].
    apply Qinv_le_0_compat. lra.
  - assert (e1 + 1 <= e2 ∧ e2 = Py.binade q2 - 52) as [Hlt He2] by lia.
    specialize (M2 He2).
    apply Qle_trans with (inject_Z (2 ^ 53) * 2 ^ e1)%Q.
    { apply Qmult_le_compat_r; [|lra]. by rewrite <- Zle_Qle. }
    apply Qle_trans with (inject_Z (2 ^ 52) * 2 ^ e2)%Q.
    2:{ apply Qmult_le_compat_r; [|lra]. by rewrite <- Zle_Qle. }
    rewrite !two_pow_inject by done. rewrite <- !Qpower_plus by done.
    apply two_pow_le. lia.
Qed.

(** A number below [2^k] is moved by at most [2^(k-54)]. *)
Lemma float_error (q : Q) (k : Z) :
  (0 <= q)%Q -> (q < 2 ^ k)%Q -> Py.float_emin + 53 <= k ->
  (- 2 ^ (k - 54) <= Py.float q - q <= 2 ^ (k - 54))%Q.
Proof.
  intros Hq Hk Hmin. pose proof (two_pow_pos (k - 54)) as Pk.
  destruct (Qeq_dec q 0) as [H0|H0].
  { rewrite (float_zero q H0), H0. split; lra. }
  assert (0 < q)%Q as Hpos by lra.
  pose proof (binade_lt q k Hpos Hk) as Hj.
  pose proof (ulp_exponent_pos q Hpos) as He.
  rewrite float_eq. set (e := Py.ulp_exponent q) in *.
  assert (e - 1 <= k - 54) as Hek by lia.
  pose proof (two_pow_le _ _ Hek) as Hle.
  pose proof (two_pow_pred e) as Hpred.
  pose proof (two_pow_pos e) as Pe.
  pose proof (round_half_even_close (q / 2 ^ e)) as [Clo Chi].
  set (m := inject_Z (Py.round_half_even (q / 2 ^ e))) in *.
  assert (q == q / 2 ^ e * 2 ^ e)%Q as Hqe by (field; lra).
  set (x := (q / 2 ^ e)%Q) in *.
  assert ((x - (1 # 2)) * 2 ^ e <= m * 2 ^ e)%Q as Hlo
    by (apply Qmult_le_compat_r; lra).
  assert (m * 2 ^ e <= (x + (1 # 2)) * 2 ^ e)%Q as Hhi
    by (apply Qmult_le_compat_r; lra).
  set (me := (m * 2 ^ e)%Q) in *.
  set (u := (2 ^ e)%Q) in *. set (xu := (x * u)%Q) in *.
  assert ((x - (1 # 2)) * u == xu - u / 2)%Q as Hlo' by (unfold xu; field).
  assert ((x + (1 # 2)) * u == xu + u / 2)%Q as Hhi' by (unfold xu; field).
  rewrite Hlo' in Hlo. rewrite Hhi' in Hhi. split; lra.
Qed.

(** ** Percentages and [round(x, 1)] *)

Lemma float_0 : Py.float 0 = 0%Q.
Proof. reflexivity. Qed.

Lemma float_1 : Py.float 1 = 1%Q.
Proof. reflexivity. Qed.

Lemma float_100 : Py.float 100 = 100%Q.
Proof. reflexivity. Qed.

Lemma quotient_range (a b : Z) :
  0 <= a <= b -> 0 < b -> (0 <= inject_Z a / inject_Z b <= 1)%Q.
Proof.
  intros [Ha Hab] Hb.
  assert (0 < inject_Z b)%Q as Hbq
    by (change 0%Q with (inject_Z 0); rewrite <- Zlt_Qlt; lia).
  split.
  - apply Qle_shift_div_l; [done|]. rewrite Qmult_0_l.
    change 0%Q with (inject_Z 0). rewrite <- Zle_Qle. lia.
  - apply Qle_shift_div_r; [done|]. rewrite Qmult_1_l.
    rewrite <- Zle_Qle. lia.
Qed.

Lemma quotient_nonneg (a b : Z) :
  0 <= a -> 0 < b -> (0 <= inject_Z a / inject_Z b)%Q.
Proof.
  intros Ha Hb. apply Qle_shift_div_l.
  - change 0%Q with (inject_Z 0). rewrite <- Zlt_Qlt. lia.
  - rewrite Qmult_0_l. change 0%Q with (inject_Z 0). rewrite <- Zle_Qle. lia.
Qed.

Lemma truediv_range (a b : Z) :
  0 <= a <= b -> 0 < b -> (0 <= Py.truediv a b <= 1)%Q.
Proof.
  intros Hab Hb. destruct (quotient_range a b Hab Hb) as [Hlo Hhi].
  unfold Py.truediv. split.
  - by apply float_nonneg.
  - rewrite <- float_1. by apply float_mono.
Qed.

Lemma percent_nonneg (a b : Z) : 0 <= a -> 0 < b -> (0 <= Py.percent a b)%Q.
Proof.
  intros Ha Hb. unfold Py.percent. apply float_nonneg.
  pose proof (float_nonneg _ (quotient_nonneg a b Ha Hb)) as H.
  fold (Py.truediv a b) in H. lra.
Qed.

Lemma percent_range (a b : Z) :
  0 <= a <= b -> 0 < b -> (0 <= Py.percent a b <= 100)%Q.
Proof.
  intros Hab Hb. split; [apply percent_nonneg; lia|].
  destruct (truediv_range a b Hab Hb) as [Hlo Hhi].
  unfold Py.percent. apply Qle_trans with (Py.float 100).
  - apply float_mono; lra.
  - rewrite float_100. lra.
Qed.

Lemma percent_zero (b : Z) : Py.percent 0 b = 0%Q.
Proof.
  unfold Py.percent, Py.truediv.
  rewrite (float_zero (inject_Z 0 / inject_Z b)).
  - reflexivity.
  - unfold Qdiv. change (inject_Z 0) with 0%Q. ring.
Qed.

Lemma tenths (z : Z) : (z # 10 == inject_Z z * (1 # 10))%Q.
Proof. unfold Qeq, inject_Z, Qmult. cbn. lia. Qed.

Lemma round1_nonneg (x : Q) : (0 <= x)%Q -> (0 <= Py.round1 x)%Q.
Proof.
  intros Hx. unfold Py.round1. apply float_nonneg. rewrite tenths.
  assert (0 <= Py.round_half_even (x * 10)) as Hk.
  { rewrite <- (round_half_even_integer 0 0) by reflexivity.
    apply round_half_even_mono. lra. }
  rewrite Zle_Qle in Hk. change (inject_Z 0) with 0%Q in Hk. lra.
Qed.

Lemma round1_range (x : Q) :
  (0 <= x <= 100)%Q -> (0 <= Py.round1 x <= 100)%Q.
Proof.
  intros [Hlo Hhi]. split; [by apply round1_nonneg|].
  unfold Py.round1. rewrite <- float_100.
  destruct (round_half_even_range (x * 10) 0 1000) as [H1 H2].
  { change (inject_Z 0) with 0%Q. change (inject_Z 1000) with 1000%Q.
    split; lra. }
  rewrite Zle_Qle in H1, H2. change (inject_Z 0) with 0%Q in H1.
  change (inject_Z 1000) with 1000%Q in H2.
  apply float_mono; rewrite tenths; lra.
Qed.

Lemma round1_zero (x : Q) : (x == 0)%Q -> Py.round1 x = 0%Q.
Proof.
  intros Hx. unfold Py.round1.
  rewrite (round_half_even_integer _ 0); [reflexivity|].
  rewrite Hx. reflexivity.
Qed.

(** Full agreement is 100.0. *)
Lemma round1_percent_full (s : Z) :
  0 < s -> Py.round1 (Py.percent s s) = 100%Q.
Proof.
  intros Hs.
  assert (¬ (inject_Z s == 0)%Q) as Hne.
  { change 0%Q with (inject_Z 0). rewrite inject_Z_injective. lia. }
  assert (Py.percent s s = 100%Q) as ->.
  { unfold Py.percent, Py.truediv.
    rewrite (float_wd (inject_Z s / inject_Z s) 1) by (by field).
    rewrite float_1. reflexivity. }
  reflexivity.
Qed.

(** [round(a / b * 100, 1)] is the float written with one decimal place
    that lies within 0.05 of the percentage, up to the rounding errors of
    the division, of the multiplication and of the result, which are less
    than 2^-45 together. *)
Lemma round1_percent_close (a b : Z) :
  0 <= a <= b -> 0 < b ->
  let pct := (100 * inject_Z a / inject_Z b)%Q in
  let k := Py.round_half_even (Py.percent a b * 10) in
  Py.round1 (Py.percent a b) = Py.float (k # 10)
  ∧ 0 <= k <= 1000
  ∧ (pct - (1 # 20) - 2 ^ (-46) <= k # 10 <= pct + (1 # 20) + 2 ^ (-46))%Q
  ∧ (pct - (1 # 20) - 2 ^ (-45) <= Py.round1 (Py.percent a b)
     <= pct + (1 # 20) + 2 ^ (-45))%Q.
Proof.
  intros Hab Hb. cbv zeta.
  set (x0 := (inject_Z a / inject_Z b)%Q).
  assert (100 * inject_Z a / inject_Z b == 100 * x0)%Q as ->
    by (unfold x0, Qdiv; ring).
  destruct (quotient_range a b Hab Hb) as [X0lo X0hi]. fold x0 in X0lo, X0hi.
  destruct (truediv_range a b Hab Hb) as [X1lo X1hi].
  destruct (percent_range a b Hab Hb) as [Ylo Yhi].
  assert (- (1 # 18014398509481984) <= Py.truediv a b - x0
          <= 1 # 18014398509481984)%Q as E1.
  { unfold Py.truediv. fold x0.
    destruct (Qlt_le_dec x0 1) as [Hlt|Hge].
    - apply (float_error x0 0); [done|done|]. unfold Py.float_emin. lia.
    - rewrite (float_wd x0 1), float_1 by lra. split; lra. }
  assert (- (1 # 140737488355328) <= Py.percent a b - Py.truediv a b * 100
          <= 1 # 140737488355328)%Q as E2.
  { unfold Py.percent. apply (float_error _ 7).
    - lra.
    - change (2 ^ 7)%Q with 128%Q. lra.
    - unfold Py.float_emin. lia. }
  set (y := Py.percent a b) in *. set (x1 := Py.truediv a b) in *.
  pose proof (round_half_even_close (y * 10)) as [Klo Khi].
  destruct (round_half_even_range (y * 10) 0 1000) as [K0 K1].
  { change (inject_Z 0) with 0%Q. change (inject_Z 1000) with 1000%Q.
    split; lra. }
  set (k := Py.round_half_even (y * 10)) in *.
  pose proof (tenths k) as Ht.
  assert (0 <= inject_Z k <= 1000)%Q as [Q0 Q1].
  { change 0%Q with (inject_Z 0). change 1000%Q with (inject_Z 1000).
    rewrite <- !Zle_Qle. done. }
  assert (- (1 # 140737488355328) <= Py.float (k # 10) - (k # 10)
          <= 1 # 140737488355328)%Q as E3.
  { apply (float_error _ 7).
    - lra.
    - change (2 ^ 7)%Q with 128%Q. lra.
    - unfold Py.float_emin. lia. }
  change (2 ^ (-46))%Q with (1 # 70368744177664)%Q.
  change (2 ^ (-45))%Q with (1 # 35184372088832)%Q.
  split; [done|]. split; [done|].
  unfold Py.round1. fold y. fold k. split; split; lra.
Qed.

(** The rates follow the floats, not the exact quotients.  23 of 80 is
    28.75 exactly; the float product is just below it and the rate is 28.7.
    49 of 80 is 61.25 exactly; the float product is just above it and the
    rate is 61.3.  Rounding the exact percentages, ties to even, would give
    28.8 and 61.2. *)
Lemma rates_follow_the_floats :
  (Py.percent 23 80 < 2875 # 100)%Q
  ∧ Py.round1 (Py.percent 23 80) = Py.float (287 # 10)
  ∧ Py.round_half_even ((2875 # 100) * 10) = 288
  ∧ (6125 # 100 < Py.percent 49 80)%Q
  ∧ Py.round1 (Py.percent 49 80) = Py.float (613 # 10)
  ∧ Py.round_half_even ((6125 # 100) * 10) = 612.
Proof. by vm_compute. Qed.

End FloatFacts.

(* ===================================================================== *)
(** * Properties: key normalizer, vote codec, outcome classifier *)
(* ===================================================================== *)

Section Codecs.
Import PyStr Extract BuildSite.

(** The superscript two is a digit for [isdigit] and not for [int]: the
    normalizer raises on it. *)
Lemma normalize_superscript_raises :
  normalize_agenda_number (String "178" "") = None.
Proof. vm_compute. reflexivity. Qed.

Lemma normalize_raises_iff (raw : string) :
  normalize_agenda_number raw = None
  <-> isdigit (Documented.trimmed raw) = true
      ∧ isdecimal (Documented.trimmed raw) = false.
Proof.
  unfold normalize_agenda_number, Documented.trimmed.
  destruct (is_empty raw) eqn:Hraw.
  { apply is_empty_true in Hraw as ->. vm_compute.
    split; [done|]. by intros [? _]. }
  set (cleaned := rstrip_char "." (strip raw)).
  destruct (isdigit cleaned) eqn:Hd.
  - destruct (isdecimal cleaned) eqn:Hdec.
    + rewrite (int_round_trip _ Hdec). split; [done|]. by intros [_ ?].
    + destruct (int_of_digits cleaned) as [n|] eqn:Hn; simpl; [|done].
      assert (isdecimal cleaned = true) as Hc
        by (apply int_of_digits_is_Some; by eexists).
      congruence.
  - split; [done|]. by intros [? _].
Qed.

(** C4 (counterexample).  On "62.." the program strips both periods and
    returns "62", where the documented rule, which strips one period,
    leaves "62.". *)
Lemma normalize_two_periods :
  normalize_agenda_number "62.." = Some "62"
  ∧ Documented.normalize "62.." = "62."
  ∧ normalize_agenda_number "62.." ≠ Some (Documented.normalize "62..").
Proof. vm_compute. repeat split; congruence. Qed.

(** C4 (amended).  For every raw agenda number whose remainder, when it
    consists of digit characters, consists of decimal digits and is within
    the interpreter's limit for the conversion to an integer, the
    normalizer returns: it trims surrounding whitespace, strips every
    trailing period, and, if the remainder is entirely decimal digits,
    strips the leading zeros by integer round trip. *)
Theorem normalize_agenda_number_rule (raw : string) :
  (isdigit (Documented.trimmed raw) = true ->
   isdecimal (Documented.trimmed raw) = true
   ∧ within_int_limit (Documented.trimmed raw) = true) ->
  normalize_agenda_number raw = Some (Documented.normalize_amended raw).
Proof.
  intros Hdec.
  unfold normalize_agenda_number, Documented.normalize_amended.
  destruct (is_empty raw) eqn:Hraw.
  { apply is_empty_true in Hraw as ->. reflexivity. }
  fold (Documented.trimmed raw).
  destruct (isdigit (Documented.trimmed raw)) eqn:Hd.
  - destruct (Hdec eq_refl) as [Hc _]. rewrite Hc. by apply int_round_trip.
  - destruct (isdecimal (Documented.trimmed raw)) eqn:Hc; [|done].
    apply isdecimal_isdigit in Hc. congruence.
Qed.

Lemma normalize_agenda_number_rule_witness :
  normalize_agenda_number "62." = Some "62"
  ∧ normalize_agenda_number "62" = Some "62"
  ∧ normalize_agenda_number "062" = Some "62"
  ∧ normalize_agenda_number "" = Some "".
Proof.
  split; [|split; [|split]].
  - exact (normalize_agenda_number_rule "62." (fun _ => conj eq_refl eq_refl)).
  - exact (normalize_agenda_number_rule "62" (fun _ => conj eq_refl eq_refl)).
  - exact (normalize_agenda_number_rule "062" (fun _ => conj eq_refl eq_refl)).
  - exact (normalize_agenda_number_rule "" (fun H => conj H eq_refl)).
Defined.

(** The two tokens the codec tests for first have no table entry, so the
    codec is the table lookup of the trimmed, upper-cased token. *)
Lemma map_vote_lookup (raw_vote : string) :
  map_vote raw_vote = table_get VOTE_MAP (upper (strip raw_vote)).
Proof.
  unfold map_vote.
  set (v := upper (strip raw_vote)).
  destruct (is_empty v) eqn:He.
  { apply is_empty_true in He as ->. reflexivity. }
  simpl. destruct (String.eqb_spec v "N/A") as [->|_]; reflexivity.
Qed.

(** C5.  The vote codec is a total function into a vote choice or "not a
    participant": its result is the entry of the fixed table for the
    trimmed, upper-cased token, and "not a participant" when the table has
    none, which covers the empty token and "N/A"; "YES" is AYE and
    "ABSNT_CB" is ABSENT. *)
Theorem map_vote_fail_open :
  (forall raw_vote,
     map_vote raw_vote = table_get VOTE_MAP (upper (strip raw_vote)))
  ∧ map_vote "" = None
  ∧ map_vote "N/A" = None
  ∧ map_vote "YES" = Some AYE
  ∧ map_vote "ABSNT_CB" = Some ABSENT.
Proof.
  split; [exact map_vote_lookup|by vm_compute].
Qed.

(** The codec never yields RECUSAL. *)
Lemma table_get_VOTE_MAP (v : string) (c : VoteChoice) :
  table_get VOTE_MAP v = Some c -> c ∈ [AYE; NAY; ABSENT; ABSTAIN].
Proof.
  unfold VOTE_MAP. cbn [table_get].
  repeat (destruct (String.eqb _ v);
          [intros [= <-]; repeat constructor|]).
  intros [=].
Qed.

Lemma map_vote_range (raw_vote : string) (c : VoteChoice) :
  map_vote raw_vote = Some c -> c ∈ [AYE; NAY; ABSENT; ABSTAIN].
Proof.
  rewrite map_vote_lookup. apply table_get_VOTE_MAP.
Qed.

Lemma map_vote_not_recusal (raw_vote : string) :
  map_vote raw_vote ≠ Some RECUSAL.
Proof.
  intros H%map_vote_range.
  repeat (apply elem_of_cons in H as [H|H]; [discriminate H|]).
  by apply elem_of_nil in H.
Qed.

(** The approval test of the program, eight keywords and then AMENDED,
    is the documented nine-keyword test. *)
Lemma approval_test (fa : string) :
  Documented.any_in
    ["APPROVED"; "ADOPTED"; "PASSED"; "CONFIRMED"; "ACCEPTED";
     "GRANTED"; "SUSTAINED"; "RATIFIED"; "AMENDED"] fa
  = existsb (fun kw => contains kw fa)
      ["APPROVED"; "ADOPTED"; "PASSED"; "CONFIRMED"; "ACCEPTED";
       "GRANTED"; "SUSTAINED"; "RATIFIED"]
    || contains "AMENDED" fa.
Proof.
  unfold Documented.any_in. cbn [existsb].
  rewrite !orb_false_r, !orb_assoc. reflexivity.
Qed.

Lemma derive_outcome_no_flag (passed_val : PyVal)
    (final_action matter_status : option string) :
  Documented.flag_of passed_val = None ->
  derive_outcome passed_val final_action matter_status
  = Documented.outcome_from_text (Documented.text_of final_action)
      (Documented.text_of matter_status).
Proof.
  unfold Documented.flag_of, derive_outcome, Documented.outcome_from_text,
    Documented.text_of.
  destruct (String.eqb _ "1"); [done|].
  destruct (String.eqb _ "0"); [done|]. intros _.
  rewrite approval_test.
  set (fa := upper (strip (or_empty final_action))).
  set (ms := upper (strip (or_empty matter_status))).
  destruct (existsb _ _); [reflexivity|]. cbn [orb].
  destruct (contains "AMENDED" fa); [reflexivity|].
  unfold Documented.any_in. cbn [existsb]. rewrite !orb_false_r.
  reflexivity.
Qed.

Lemma derive_outcome_amended (passed_val : PyVal)
    (final_action matter_status : option string) :
  derive_outcome passed_val final_action matter_status
  = Documented.classify_amended (Documented.flag_of passed_val)
      (Documented.text_of final_action) (Documented.text_of matter_status).
Proof.
  destruct (Documented.flag_of passed_val) as [[|]|] eqn:Hflag.
  - unfold Documented.flag_of in Hflag. unfold derive_outcome.
    destruct (String.eqb _ "1"); [reflexivity|].
    destruct (String.eqb _ "0"); discriminate Hflag.
  - unfold Documented.flag_of in Hflag.
    unfold derive_outcome, Documented.classify_amended, Documented.text_of.
    destruct (String.eqb _ "1"); [discriminate Hflag|].
    destruct (String.eqb _ "0"); [|discriminate Hflag].
    repeat (destruct (contains _ _); [reflexivity|]). reflexivity.
  - by apply derive_outcome_no_flag.
Qed.

(** C2 (counterexample).  With the flag false and a final action that
    says both "DID NOT PASS" and "DEFERRED", the documented precedence
    gives FAIL and the program gives CONTINUED. *)
Lemma derive_outcome_did_not_pass_deferred :
  derive_outcome (PyInt 0) (Some "DID NOT PASS - DEFERRED") None = CONTINUED
  ∧ Documented.classify (Documented.flag_of (PyInt 0))
      (Documented.text_of (Some "DID NOT PASS - DEFERRED"))
      (Documented.text_of None) = FAIL
  ∧ derive_outcome (PyInt 0) (Some "DID NOT PASS - DEFERRED") None
    ≠ Documented.classify (Documented.flag_of (PyInt 0))
        (Documented.text_of (Some "DID NOT PASS - DEFERRED"))
        (Documented.text_of None).
Proof. vm_compute. repeat split; congruence. Qed.

(** C2 (amended).  For every flag, final-action text and matter-status
    text the classifier applies the documented precedence, first match
    winning, except that under a false flag "DENIED" alone is tested
    first, then "DEFERRED" (CONTINUED) and "DELETED" (WITHDRAWN), and
    everything else, "DID NOT PASS" included, is FAIL.  A true flag gives
    PASS whatever the texts; a false flag with "ITEM DENIED" gives FAIL;
    no flag with "MOTION APPROVED" gives PASS; no flag and no text gives
    PASS. *)
Theorem derive_outcome_precedence :
  (forall passed_val final_action matter_status,
     derive_outcome passed_val final_action matter_status
     = Documented.classify_amended (Documented.flag_of passed_val)
         (Documented.text_of final_action)
         (Documented.text_of matter_status))
  ∧ (forall final_action matter_status,
       derive_outcome (PyInt 1) final_action matter_status = PASS)
  ∧ (forall matter_status,
       derive_outcome (PyInt 0) (Some "ITEM DENIED") matter_status = FAIL)
  ∧ (forall matter_status,
       derive_outcome PyNone (Some "MOTION APPROVED") matter_status = PASS)
  ∧ derive_outcome PyNone (Some "") None = PASS
  ∧ derive_outcome PyNone None None = PASS.
Proof.
  split; [exact derive_outcome_amended|].
  repeat split; intros; rewrite derive_outcome_amended; reflexivity.
Qed.

End Codecs.

(* ===================================================================== *)
(** * Properties: sorting *)
(* ===================================================================== *)

Section SortFacts.
Context {A : Type} (leb : A -> A -> bool).

Lemma insert_sorted_Permutation (x : A) (l : list A) :
  Py.insert_sorted leb x l ≡ₚ x :: l.
Proof.
  induction l as [|y l IH]; simpl; [done|].
  destruct (leb x y); [done|].
  rewrite IH. apply Permutation_swap.
Qed.

Lemma sorted_Permutation (l : list A) : Py.sorted leb l ≡ₚ l.
Proof.
  induction l as [|x l IH]; simpl; [done|].
  rewrite insert_sorted_Permutation. by rewrite IH.
Qed.

Lemma length_sorted (l : list A) : length (Py.sorted leb l) = length l.
Proof. apply Permutation_length, sorted_Permutation. Qed.

Lemma elem_of_sorted (x : A) (l : list A) : x ∈ Py.sorted leb l <-> x ∈ l.
Proof. by rewrite sorted_Permutation. Qed.

Lemma Forall_sorted (P : A -> Prop) (l : list A) :
  Forall P l -> Forall P (Py.sorted leb l).
Proof. by rewrite sorted_Permutation. Qed.

Lemma NoDup_sorted (l : list A) : NoDup l -> NoDup (Py.sorted leb l).
Proof. by rewrite sorted_Permutation. Qed.

(** With a total comparison the result is in order. *)
Hypothesis leb_total : forall x y, leb x y = true \/ leb y x = true.

Lemma insert_sorted_Sorted (x : A) (l : list A) :
  Sorted (fun a b => leb a b = true) l ->
  Sorted (fun a b => leb a b = true) (Py.insert_sorted leb x l).
Proof.
  induction l as [|y l IH]; simpl; intros Hl.
  - by repeat constructor.
  - destruct (leb x y) eqn:Hxy.
    + constructor; [done|]. by constructor.
    + apply Sorted_inv in Hl as [Hl Hy].
      constructor; [by apply IH|].
      assert (leb y x = true) as Hyx by (destruct (leb_total x y); congruence).
      destruct l as [|z l]; simpl.
      * by constructor.
      * apply HdRel_inv in Hy. destruct (leb x z); by constructor.
Qed.

Lemma sorted_Sorted (l : list A) :
  Sorted (fun a b => leb a b = true) (Py.sorted leb l).
Proof.
  induction l as [|x l IH]; simpl; [constructor|].
  by apply insert_sorted_Sorted.
Qed.

(** With a total order, the result depends on the elements only, not on
    the order in which they are handed over. *)
Hypothesis leb_trans :
  forall x y z, leb x y = true -> leb y z = true -> leb x z = true.
Hypothesis leb_antisym : forall x y, leb x y = true -> leb y x = true -> x = y.

Lemma sorted_order_independent (l1 l2 : list A) :
  l1 ≡ₚ l2 -> Py.sorted leb l1 = Py.sorted leb l2.
Proof.
  intros Hperm.
  assert (Transitive (fun a b => leb a b = true)) as Htrans
    by exact leb_trans.
  assert (AntiSymm (=) (fun a b => leb a b = true)) as Hanti
    by exact leb_antisym.
  apply (Sorted_unique (fun a b => leb a b = true)).
  - apply sorted_Sorted.
  - apply sorted_Sorted.
  - by rewrite !sorted_Permutation.
Qed.

End SortFacts.

Section KeyOrder.
Import Extract.

Lemma string_compare_refl (s : string) : String.compare s s = Eq.
Proof.
  pose proof (String.compare_antisym s s) as H.
  destruct (String.compare s s); done.
Qed.

Lemma string_compare_gt_lt (s1 s2 : string) :
  String.compare s1 s2 = Gt <-> String.compare s2 s1 = Lt.
Proof.
  rewrite (String.compare_antisym s2 s1).
  destruct (String.compare s1 s2); simpl; split; congruence.
Qed.

Lemma string_compare_lt_trans (s1 s2 s3 : string) :
  String.compare s1 s2 = Lt -> String.compare s2 s3 = Lt ->
  String.compare s1 s3 = Lt.
Proof.
  intros H12 H23.
  assert (String.le s1 s3) as H13.
  { transitivity s2; unfold String.le, String.leb;
      [by rewrite H12|by rewrite H23]. }
  unfold String.le, String.leb in H13.
  destruct (String.compare s1 s3) eqn:E; [|done|done].
  apply String.compare_eq_iff in E as ->.
  apply string_compare_gt_lt in H12. congruence.
Qed.

Lemma key_leb_total (k1 k2 : Key) :
  key_leb k1 k2 = true \/ key_leb k2 k1 = true.
Proof.
  unfold key_leb, Py.lex.
  destruct (String.compare k1.1 k2.1) eqn:E1.
  - apply String.compare_eq_iff in E1. rewrite <- E1, string_compare_refl.
    destruct (String.compare k1.2 k2.2) eqn:E2; simpl; auto.
    apply string_compare_gt_lt in E2. rewrite E2. auto.
  - auto.
  - apply string_compare_gt_lt in E1. rewrite E1. auto.
Qed.

Lemma key_leb_antisym (k1 k2 : Key) :
  key_leb k1 k2 = true -> key_leb k2 k1 = true -> k1 = k2.
Proof.
  destruct k1 as [d1 n1], k2 as [d2 n2]. unfold key_leb, Py.lex. simpl.
  destruct (String.compare d1 d2) eqn:E1.
  - apply String.compare_eq_iff in E1 as ->. rewrite string_compare_refl.
    destruct (String.compare n1 n2) eqn:E2.
    + apply String.compare_eq_iff in E2 as ->. done.
    + intros _. apply string_compare_gt_lt in E2. by rewrite E2.
    + done.
  - intros _. apply string_compare_gt_lt in E1. by rewrite E1.
  - done.
Qed.

Lemma key_leb_trans (k1 k2 k3 : Key) :
  key_leb k1 k2 = true -> key_leb k2 k3 = true -> key_leb k1 k3 = true.
Proof.
  destruct k1 as [d1 n1], k2 as [d2 n2], k3 as [d3 n3].
  unfold key_leb, Py.lex. simpl.
  destruct (String.compare d1 d2) eqn:E12.
  - apply String.compare_eq_iff in E12 as ->.
    destruct (String.compare d2 d3) eqn:E23; [|done|done].
    destruct (String.compare n1 n2) eqn:F12.
    + apply String.compare_eq_iff in F12 as ->. done.
    + destruct (String.compare n2 n3) eqn:F23.
      * apply String.compare_eq_iff in F23 as <-. by rewrite F12.
      * by rewrite (string_compare_lt_trans _ _ _ F12 F23).
      * done.
    + done.
  - destruct (String.compare d2 d3) eqn:E23.
    + apply String.compare_eq_iff in E23 as <-. by rewrite E12.
    + by rewrite (string_compare_lt_trans _ _ _ E12 E23).
    + done.
  - done.
Qed.

(** Sorting a set of keys does not depend on the order in which the set
    hands them out. *)
Lemma sorted_keys_order_independent (o1 o2 : SetOrder) (keys : list Key) :
  Py.sorted key_leb (iterate o1 keys) = Py.sorted key_leb (iterate o2 keys).
Proof.
  apply sorted_order_independent.
  - exact key_leb_total.
  - exact key_leb_trans.
  - exact key_leb_antisym.
  - by rewrite !iterate_perm.
Qed.

End KeyOrder.

(* ===================================================================== *)
(** * Properties: the correlator *)
(* ===================================================================== *)

Section Grouping.
Import PyStr Extract Correlation.

Implicit Types (d : list (Key * list SocrataRecord)) (k key : Key)
  (r : SocrataRecord) (rs : list SocrataRecord).

Lemma group_lookup_add k key r d :
  group_lookup k (group_add key r d)
  = if decide (k = key)
    then Some (default [] (group_lookup key d) ++ [r])
    else group_lookup k d.
Proof.
  induction d as [|[k0 rs0] d IH]; cbn [group_add group_lookup].
  - repeat case_decide; simplify_eq; done.
  - destruct (decide (k0 = key)) as [->|Hne]; cbn [group_lookup].
    + repeat case_decide; simplify_eq; done.
    + rewrite IH. repeat case_decide; simplify_eq; done.
Qed.

Lemma group_keys_add key r d :
  (group_add key r d).*1 = if decide (key ∈ d.*1) then d.*1 else d.*1 ++ [key].
Proof.
  induction d as [|[k0 rs0] d IH]; cbn [group_add].
  - rewrite decide_False; [done|]. apply not_elem_of_nil.
  - destruct (decide (k0 = key)) as [->|Hne]; rewrite !fmap_cons; cbn [fst].
    + rewrite decide_True; [done|]. apply elem_of_cons; auto.
    + rewrite IH. destruct (decide (key ∈ d.*1)) as [Hin|Hnin].
      * rewrite decide_True; [done|]. apply elem_of_cons; auto.
      * rewrite decide_False; [done|].
        intros [?|?]%elem_of_cons; congruence.
Qed.

Lemma group_lookup_is_Some k d : is_Some (group_lookup k d) <-> k ∈ d.*1.
Proof.
  induction d as [|[k0 rs0] d IH]; cbn [group_lookup].
  - split; [by intros [? ?]|by intros ?%elem_of_nil].
  - rewrite fmap_cons, elem_of_cons. cbn [fst].
    destruct (decide (k0 = k)) as [->|Hne].
    + split; [auto|by eexists].
    + rewrite IH. split; [auto|]. by intros [?|?].
Qed.

Lemma group_lookup_elem_of k rs d : group_lookup k d = Some rs -> (k, rs) ∈ d.
Proof.
  induction d as [|[k0 rs0] d IH]; cbn [group_lookup]; [done|].
  destruct (decide (k0 = k)) as [->|Hne].
  - intros [= ->]. apply elem_of_cons; auto.
  - intros H. apply elem_of_cons; auto.
Qed.

Lemma elem_of_group_lookup k rs d :
  NoDup d.*1 -> (k, rs) ∈ d -> group_lookup k d = Some rs.
Proof.
  induction d as [|[k0 rs0] d IH]; cbn [group_lookup].
  - by intros _ ?%elem_of_nil.
  - rewrite fmap_cons. cbn [fst].
    intros [Hnin Hnd]%NoDup_cons [Heq|Hin]%elem_of_cons.
    + injection Heq as -> ->. by rewrite decide_True.
    + destruct (decide (k0 = k)) as [->|Hne]; [|by apply IH].
      exfalso. apply Hnin. apply list_elem_of_fmap. by exists (k, rs).
Qed.

Lemma groups_of_nil : groups_of [] [].
Proof. split; [constructor|done]. Qed.

Lemma group_of_snoc (P : list SocrataRecord) r k :
  group_of (P ++ [r]) k
  = group_of P k ++ (if in_group k r then [r] else []).
Proof. unfold group_of. by rewrite List.filter_app. Qed.

Lemma groups_of_add (P : list SocrataRecord) r key d :
  socrata_key r = Some key ->
  groups_of P d -> groups_of (P ++ [r]) (group_add key r d).
Proof.
  intros Hkey [Hnd Hlook]. split.
  - rewrite group_keys_add. destruct (decide (key ∈ d.*1)); [done|].
    apply NoDup_app. split; [done|]. split; [|apply NoDup_singleton].
    intros x Hx ->%list_elem_of_singleton. done.
  - intros k. rewrite group_lookup_add, group_of_snoc.
    unfold in_group. rewrite Hkey.
    destruct (decide (k = key)) as [->|Hne].
    + rewrite bool_decide_eq_true_2 by done. rewrite Hlook.
      destruct (decide (group_of P key = [])) as [->|_]; cbn [default].
      * by rewrite decide_False.
      * rewrite decide_False; [done|]. by intros [_ ?]%app_eq_nil.
    + rewrite bool_decide_eq_false_2 by congruence.
      by rewrite app_nil_r.
Qed.

Lemma build_socrata_by_key_spec (P rs : list SocrataRecord) d :
  Forall (fun r => is_Some (normalize_agenda_number (agenda_item_number r))) rs ->
  groups_of P d ->
  exists d', build_socrata_by_key rs d = Some d' ∧ groups_of (P ++ rs) d'.
Proof.
  revert P d. induction rs as [|r rs IH]; intros P d Hall Hd; simpl.
  - exists d. by rewrite app_nil_r.
  - apply Forall_cons in Hall as [[num Hnum] Hall].
    unfold socrata_key at 1. rewrite Hnum. simpl.
    destruct (IH (P ++ [r]) (group_add (slice_to 10 (date r), num) r d) Hall)
      as (d' & Hd' & Hinv).
    { apply groups_of_add; [|done]. unfold socrata_key. by rewrite Hnum. }
    exists d'. split; [done|]. by rewrite <- app_assoc in Hinv.
Qed.

Lemma groups_of_elem_of (P : list SocrataRecord) d k :
  groups_of P d -> k ∈ d.*1 <-> group_of P k ≠ [].
Proof.
  intros [_ Hlook]. rewrite <- group_lookup_is_Some, Hlook.
  destruct (decide (group_of P k = [])) as [Hnil|Hne].
  - split; [by intros [? ?]|done].
  - split; [done|by eexists].
Qed.

End Grouping.

Section Indexing.
Import PyStr Extract Correlation.

Implicit Types (k : Key) (item : Item) (items : list Item)
  (idx : gmap Key nat).

Lemma last_position_None k items pos found :
  last_position k items pos found = None
  <-> found = None ∧ existsb (has_key k) items = false.
Proof.
  revert pos found. induction items as [|item items IH]; intros pos found;
    cbn [last_position existsb].
  - split; [auto|by intros [? _]].
  - rewrite IH. destruct (has_key k item); cbn [orb].
    + split; [by intros [? _]|by intros [_ ?]].
    + done.
Qed.

Lemma last_position_Some k items pos found i :
  last_position k items pos found = Some i
  <-> (exists j item, i = (pos + j)%nat ∧ items !! j = Some item
                      ∧ has_key k item = true
                      ∧ existsb (has_key k) (drop (S j) items) = false)
      ∨ (found = Some i ∧ existsb (has_key k) items = false).
Proof.
  revert pos found. induction items as [|item items IH]; intros pos found;
    cbn [last_position existsb].
  - split; [auto|]. intros [(j & it & _ & Hj & _)|[? _]]; [|done].
    by rewrite lookup_nil in Hj.
  - rewrite IH. split.
    + intros [(j & it & -> & Hj & Hk & Hlast)|[Hfound Hnone]].
      * left. exists (S j), it. split; [lia|]. done.
      * destruct (has_key k item) eqn:Hk.
        -- injection Hfound as <-. left. exists 0%nat, item.
           split; [lia|]. done.
        -- right. done.
    + intros [(j & it & -> & Hj & Hk & Hlast)|[Hfound Hnone]].
      * destruct j as [|j].
        -- injection Hj as <-. rewrite Hk. right.
           split; [f_equal; lia|]. exact Hlast.
        -- left. exists j, it. split; [lia|]. done.
      * apply orb_false_iff in Hnone as [Hk Hnone]. rewrite Hk. by right.
Qed.

Lemma has_key_true k item : has_key k item = true <-> legistar_key item = Some k.
Proof. unfold has_key. apply bool_decide_eq_true. Qed.

Lemma existsb_has_key_false k items :
  existsb (has_key k) items = false
  <-> forall item, item ∈ items -> legistar_key item ≠ Some k.
Proof.
  induction items as [|item items IH]; cbn [existsb].
  - split; [|done]. by intros _ ? ?%elem_of_nil.
  - rewrite orb_false_iff, IH. split.
    + intros [Hk Hrest] it [->|Hin]%elem_of_cons; [|by apply Hrest].
      intros Heq%has_key_true. congruence.
    + intros H. split.
      * destruct (has_key k item) eqn:Hk; [|done].
        apply has_key_true in Hk. exfalso. eapply H; [|done]. by left.
      * intros it Hin. apply H. by right.
Qed.

Lemma indexed_key_Some items i item k :
  indexed_key items i item = Some k
  <-> legistar_key item = Some k
      ∧ existsb (has_key k) (drop (S i) items) = false.
Proof.
  unfold indexed_key. destruct (legistar_key item) as [k'|]; cbn.
  - destruct (existsb (has_key k') (drop (S i) items)) eqn:E.
    + split; [done|]. intros [[= ->] ?]. congruence.
    + split; [by intros [= ->]|by intros [[= ->] _]].
  - split; [done|by intros [? _]].
Qed.

(** The index built from the items holds, for each key, the position of
    the last item with that key. *)
Lemma build_legistar_by_key_spec items pos idx0 :
  Forall (fun item => is_Some (normalize_agenda_number (agenda_number item)))
    items ->
  exists idx, build_legistar_by_key items pos idx0 = Some idx
              ∧ forall k, idx !! k = last_position k items pos (idx0 !! k).
Proof.
  revert pos idx0. induction items as [|item items IH]; intros pos idx0 Hall;
    cbn [build_legistar_by_key last_position].
  - by exists idx0.
  - apply Forall_cons in Hall as [[norm Hnorm] Hall].
    rewrite Hnorm. cbn [mbind option_bind].
    destruct (IH (S pos)
                (if is_empty norm then idx0
                 else <[(event_date item, norm) := pos]> idx0) Hall)
      as (idx & Hidx & Hlook).
    exists idx. split; [done|]. intros k. rewrite Hlook. f_equal.
    unfold has_key, legistar_key. rewrite Hnorm.
    destruct (is_empty norm).
    + by rewrite bool_decide_eq_false_2.
    + destruct (decide ((event_date item, norm) = k)) as [<-|Hne].
      * rewrite bool_decide_eq_true_2 by done. apply lookup_insert_eq.
      * rewrite bool_decide_eq_false_2 by congruence.
        by apply lookup_insert_ne.
Qed.

Lemma index_of_Some items idx k i :
  index_of items idx ->
  idx !! k = Some i
  <-> exists item, items !! i = Some item ∧ indexed_key items i item = Some k.
Proof.
  intros Hidx. rewrite Hidx, last_position_Some. split.
  - intros [(j & item & -> & Hj & Hk & Hlast)|[? _]]; [|done].
    exists item. split; [done|]. apply indexed_key_Some.
    split; [by apply has_key_true|done].
  - intros (item & Hi & [Hk Hlast]%indexed_key_Some).
    left. exists i, item. split; [done|]. split; [done|].
    split; [by apply has_key_true|done].
Qed.

Lemma index_of_None items idx k :
  index_of items idx ->
  idx !! k = None <-> forall item, item ∈ items -> legistar_key item ≠ Some k.
Proof.
  intros Hidx. rewrite Hidx, last_position_None, existsb_has_key_false.
  split; [by intros [_ ?]|done].
Qed.

Lemma index_of_inj items idx k1 k2 i :
  index_of items idx -> idx !! k1 = Some i -> idx !! k2 = Some i -> k1 = k2.
Proof.
  intros Hidx (it1 & Hi1 & [H1 _]%indexed_key_Some)%(index_of_Some _ _ _ _ Hidx)
    (it2 & Hi2 & [H2 _]%indexed_key_Some)%(index_of_Some _ _ _ _ Hidx).
  congruence.
Qed.

End Indexing.

Section Matching.
Import PyStr Extract Correlation.

Implicit Types (k : Key) (item : Item) (items : list Item)
  (idx : gmap Key nat) (groups : list (Key * list SocrataRecord)).

Lemma merge_no_records item : merge_socrata_into_item item [] = item.
Proof. reflexivity. Qed.

(** The matching loop changes the item a group is indexed to and no
    other; the keys it sets aside are those without an index entry. *)
Lemma match_groups_spec groups idx items (um : list Key) items' um' :
  NoDup groups.*1 ->
  (forall k1 k2 i, idx !! k1 = Some i -> idx !! k2 = Some i -> k1 = k2) ->
  match_groups groups idx items um = (items', um') ->
  um' = um ++ filter (fun k => idx !! k = None) groups.*1
  ∧ forall i,
      (forall k rs, (k, rs) ∈ groups -> idx !! k = Some i ->
         items' !! i = (fun item => merge_socrata_into_item item rs) <$> items !! i)
      ∧ ((forall k rs, (k, rs) ∈ groups -> idx !! k ≠ Some i) ->
         items' !! i = items !! i).
Proof.
  intros Hnd Hinj. revert items um.
  induction groups as [|[key records] groups IH]; intros items um;
    cbn [match_groups].
  - intros [= <- <-]. split; [by rewrite app_nil_r|].
    intros i. split; [|done]. by intros k rs ?%elem_of_nil.
  - rewrite fmap_cons in Hnd. cbn [fst] in Hnd.
    apply NoDup_cons in Hnd as [Hkey Hnd].
    assert (forall k rs, (k, rs) ∈ groups -> k ≠ key) as Hfresh.
    { intros k rs Hin ->. apply Hkey. apply list_elem_of_fmap. by exists (key, rs). }
    rewrite fmap_cons. cbn [fst].
    destruct (idx !! key) as [pos|] eqn:Hpos.
    + intros Hrun. destruct (IH Hnd _ _ Hrun) as [-> Hitems].
      split.
      { rewrite filter_cons, decide_False; [done|]. by rewrite Hpos. }
      intros i. destruct (Hitems i) as [Hhit Hmiss]. split.
      * intros k rs [Heq|Hin]%elem_of_cons Hk.
        -- injection Heq as -> ->. assert (i = pos) as -> by congruence.
           rewrite Hmiss; [apply list_lookup_alter_eq|].
           intros k' rs' Hin' Hk'. apply (Hfresh k' rs' Hin'). by eapply Hinj.
        -- rewrite (Hhit k rs Hin Hk). rewrite list_lookup_alter_ne; [done|].
           intros ->. apply (Hfresh k rs Hin). by eapply Hinj.
      * intros Hnone. rewrite Hmiss.
        -- rewrite list_lookup_alter_ne; [done|]. intros ->.
           apply (Hnone key records); [by left|done].
        -- intros k rs Hin. apply (Hnone k rs). by right.
    + intros Hrun. destruct (IH Hnd _ _ Hrun) as [-> Hitems].
      split.
      { rewrite filter_cons, decide_True by done. by rewrite <- app_assoc. }
      intros i. destruct (Hitems i) as [Hhit Hmiss]. split.
      * intros k rs [Heq|Hin]%elem_of_cons Hk; [|by eapply Hhit].
        injection Heq as -> ->. congruence.
      * intros Hnone. apply Hmiss. intros k rs Hin. apply (Hnone k rs). by right.
Qed.

(** After the loop the source-A list is the input list with each item
    replaced by its [merged_item]. *)
Lemma match_groups_merged (A : list Item) (B : list SocrataRecord)
    groups idx items' um' :
  groups_of B groups -> index_of A idx ->
  match_groups groups idx A [] = (items', um') ->
  items' = imap (merged_item A B) A
  ∧ um' = filter (fun k => idx !! k = None) groups.*1.
Proof.
  intros Hgroups Hidx Hrun.
  destruct (match_groups_spec groups idx A [] items' um') as [Hum Hitems].
  { by destruct Hgroups. }
  { intros k1 k2 i. by apply index_of_inj with A. }
  { done. }
  split; [|done]. apply list_eq. intros i.
  rewrite list_lookup_imap. destruct (Hitems i) as [Hhit Hmiss].
  destruct (A !! i) as [item|] eqn:Hi; cbn [fmap option_fmap option_map].
  - unfold merged_item.
    destruct (indexed_key A i item) as [k|] eqn:Hk.
    + assert (idx !! k = Some i) as Hpos.
      { apply (index_of_Some A); [done|]. by exists item. }
      destruct (decide (group_of B k = [])) as [Hnil|Hne].
      * rewrite Hnil, merge_no_records, Hmiss; [done|].
        intros k' rs Hin Hk'.
        assert (k' = k) as -> by (by eapply index_of_inj).
        assert (k ∈ groups.*1) as Hin'
          by (apply list_elem_of_fmap; by exists (k, rs)).
        by apply (groups_of_elem_of B) in Hin'.
      * rewrite (Hhit k (group_of B k)); [done|  |done].
        apply group_lookup_elem_of. destruct Hgroups as [_ ->].
        by rewrite decide_False.
    + rewrite Hmiss; [done|]. intros k rs Hin Hpos.
      apply (index_of_Some A) in Hpos as (item' & Hi' & Hk'); [|done].
      congruence.
  - rewrite Hmiss; [done|]. intros k rs Hin Hpos.
    apply (index_of_Some A) in Hpos as (item' & Hi' & _); [|done].
    congruence.
Qed.

End Matching.

Section Correlator.
Import PyStr Extract Correlation.

Implicit Types (k : Key) (item : Item) (A : list Item)
  (B : list SocrataRecord) (self : Workflow) (order : SetOrder).

Lemma merged_item_no_records A i item : merged_item A [] i item = item.
Proof. unfold merged_item. by destruct (indexed_key A i item). Qed.

Lemma imap_merged_no_records A : imap (merged_item A []) A = A.
Proof.
  apply list_eq. intros i. rewrite list_lookup_imap.
  destruct (A !! i); [|done]. cbn. by rewrite merged_item_no_records.
Qed.

Lemma new_item_spec self B groups k :
  groups_of B groups -> k ∈ groups.*1 ->
  exists item, new_item self groups k = Some item ∧ synthesized self B k item.
Proof.
  intros Hgroups Hin.
  pose proof Hin as Hne. apply (groups_of_elem_of B) in Hne; [|done].
  destruct Hgroups as [_ Hlook]. unfold new_item. rewrite Hlook.
  rewrite decide_False by done. cbn [mbind option_bind].
  destruct (group_of B k) as [|sample rest] eqn:Hgroup; [done|].
  cbn [head mbind option_bind]. eexists. split; [done|].
  exists sample, rest. done.
Qed.

Lemma Forall2_choice {X Y} (f : X -> option Y) (P : X -> Y -> Prop) (l : list X) :
  (forall x, x ∈ l -> exists y, f x = Some y ∧ P x y) ->
  exists l', mapM f l = Some l' ∧ Forall2 P l l'.
Proof.
  induction l as [|x l IH]; intros H.
  - exists []. split; [done|constructor].
  - destruct (H x) as (y & Hy & HP); [by left|].
    destruct IH as (l' & Hl' & HF); [intros x' Hx'; apply H; by right|].
    exists (y :: l'). split; [|by constructor].
    apply mapM_Some_2. constructor; [done|]. by apply mapM_Some_1.
Qed.

(** The shape of the result: the merged source-A items followed by one
    synthesized item per unmatched key, sorted. *)
Lemma phase3_correlate_shape order self A B :
  normalizable A B ->
  exists out ks new_items,
    phase3_correlate order self A B = Some out
    ∧ out ≡ₚ imap (merged_item A B) A ++ new_items
    ∧ (B ≠ [] ->
       out = Py.sorted item_leb (imap (merged_item A B) A ++ new_items))
    ∧ NoDup ks
    ∧ (forall k, k ∈ ks <-> unmatched A B k)
    ∧ Forall2 (synthesized self B) ks new_items.
Proof.
  intros [HA HB]. destruct B as [|r B].
  { exists A, [], []. split; [done|].
    split; [by rewrite imap_merged_no_records, app_nil_r|].
    split; [done|]. split; [constructor|]. split; [|constructor].
    intros k. split; [by intros ?%elem_of_nil|by intros [? _]]. }
  set (B' := r :: B) in *.
  destruct (build_socrata_by_key_spec [] B' [] HB groups_of_nil)
    as (groups & Hbuild & Hgroups).
  rewrite app_nil_l in Hgroups.
  destruct (build_legistar_by_key_spec A 0 ∅ HA) as (idx & Hindex & Hlook).
  assert (index_of A idx) as Hidx.
  { intros k. by rewrite Hlook, lookup_empty. }
  destruct (match_groups groups idx A []) as [items' um'] eqn:Hrun.
  destruct (match_groups_merged A B' groups idx items' um' Hgroups Hidx Hrun)
    as [-> ->].
  set (um := filter (fun k => idx !! k = None) groups.*1) in *.
  set (ks := Py.sorted key_leb (iterate order um)).
  assert (forall k, k ∈ ks <-> k ∈ groups.*1 ∧ idx !! k = None) as Hks.
  { intros k. unfold ks. rewrite elem_of_sorted, iterate_perm.
    unfold um. rewrite list_elem_of_filter. tauto. }
  destruct (Forall2_choice (new_item self groups) (synthesized self B') ks)
    as (new_items & Hnew & Hsynth).
  { intros k [Hin _]%Hks. by apply new_item_spec. }
  exists (Py.sorted item_leb (imap (merged_item A B') A ++ new_items)),
    ks, new_items.
  split.
  { unfold phase3_correlate. fold B'. unfold B' at 1.
    fold B'. rewrite Hbuild. cbn [mbind option_bind]. rewrite Hindex.
    cbn [mbind option_bind]. rewrite Hrun. fold um. fold ks.
    rewrite Hnew. done. }
  split; [apply sorted_Permutation|]. split; [done|]. split.
  { unfold ks. apply NoDup_sorted. rewrite iterate_perm.
    apply NoDup_filter. by destruct Hgroups. }
  split; [|done].
  intros k. rewrite Hks, (groups_of_elem_of B') by done.
  rewrite (index_of_None A) by done. done.
Qed.

(** The correlator raises only when the key normalizer does. *)
Lemma phase3_correlate_raises order self A B :
  phase3_correlate order self A B = None -> ¬ normalizable A B.
Proof.
  intros Hnone Hnorm.
  destruct (phase3_correlate_shape order self A B Hnorm) as (out & _ & _ & Hout & _).
  congruence.
Qed.

Lemma build_votes_snoc (rs : list SocrataRecord) (r : SocrataRecord) :
  build_votes (rs ++ [r])
  = if is_empty (voter_name r) then build_votes rs
    else <[voter_name r := vote r]> (build_votes rs).
Proof. unfold build_votes. by rewrite foldl_snoc. Qed.

Lemma last_vote_snoc (name : string) (rs : list SocrataRecord) (r : SocrataRecord) :
  last_vote name (rs ++ [r])
  = if String.eqb (voter_name r) name then Some (vote r) else last_vote name rs.
Proof.
  unfold last_vote. rewrite List.filter_app. cbn [List.filter].
  destruct (String.eqb (voter_name r) name).
  - by rewrite last_snoc.
  - by rewrite app_nil_r.
Qed.

(** The vote mapping of a group: for each name the last vote recorded
    under it; records without a name contribute nothing. *)
Lemma build_votes_lookup (rs : list SocrataRecord) (name : string) :
  build_votes rs !! name = if is_empty name then None else last_vote name rs.
Proof.
  induction rs as [|r rs IH] using rev_ind.
  - unfold build_votes, last_vote. cbn. rewrite lookup_empty.
    by destruct (is_empty name).
  - rewrite build_votes_snoc, last_vote_snoc.
    destruct (String.eqb_spec (voter_name r) name) as [Heq|Hne].
    + rewrite Heq. destruct (is_empty name); [done|]. apply lookup_insert_eq.
    + destruct (is_empty (voter_name r)); [done|].
      by rewrite lookup_insert_ne.
Qed.

Lemma merge_item_votes item (rs : list SocrataRecord) :
  rs ≠ [] -> item_votes (merge_socrata_into_item item rs) = build_votes rs.
Proof. by destruct rs. Qed.


Lemma indexed_key_legistar_key A i item k :
  indexed_key A i item = Some k -> legistar_key item = Some k.
Proof. by intros [? _]%indexed_key_Some. Qed.

Lemma existsb_drop_false {X} (f : X -> bool) (l : list X) (i j : nat) (x : X) :
  existsb f (drop (S i) l) = false -> (i < j)%nat -> l !! j = Some x ->
  f x = false.
Proof.
  intros Hnone Hlt Hj.
  destruct (f x) eqn:Hfx; [|done].
  assert (existsb f (drop (S i) l) = true) as Htrue; [|congruence].
  apply existsb_exists. exists x. split; [|done].
  apply list_elem_of_In, list_elem_of_lookup. exists (j - S i)%nat.
  rewrite lookup_drop. rewrite <- Hj. f_equal. lia.
Qed.

(** A key is the index key of at most one position. *)
Lemma indexed_key_unique A i1 i2 item1 item2 k :
  A !! i1 = Some item1 -> A !! i2 = Some item2 ->
  indexed_key A i1 item1 = Some k -> indexed_key A i2 item2 = Some k ->
  i1 = i2.
Proof.
  intros H1 H2 [Hk1 Hl1]%indexed_key_Some [Hk2 Hl2]%indexed_key_Some.
  apply has_key_true in Hk1, Hk2.
  destruct (lt_eq_lt_dec i1 i2) as [[Hlt|Heq]|Hgt]; [|done|].
  - pose proof (existsb_drop_false _ _ _ _ _ Hl1 Hlt H2). congruence.
  - pose proof (existsb_drop_false _ _ _ _ _ Hl2 Hgt H1). congruence.
Qed.

End Correlator.

Section CorrelatorClaims.
Import PyStr Extract Correlation.

Implicit Types (k : Key) (item : Item) (A : list Item)
  (B : list SocrataRecord) (self : Workflow) (order : SetOrder).


Lemma sample_normalizable :
  normalizable Samples.legistar_items Samples.socrata_records.
Proof. split; repeat constructor; by eexists. Qed.


Lemma phase3_correlate_order_independent (order1 order2 : SetOrder) self A B :
  phase3_correlate order1 self A B = phase3_correlate order2 self A B.
Proof.
  unfold phase3_correlate. destruct B as [|r B]; [done|].
  destruct (build_socrata_by_key (r :: B) []) as [groups|]; [|done].
  cbn [mbind option_bind].
  destruct (build_legistar_by_key A 0 ∅) as [idx|]; [|done].
  cbn [mbind option_bind].
  destruct (match_groups groups idx A []) as [items' um'].
  by rewrite (sorted_keys_order_independent order1 order2).
Qed.

Lemma item_leb_total (x y : Item) : item_leb x y = true \/ item_leb y x = true.
Proof.
  unfold item_leb, item_compare, Py.lex.
  rewrite (String.compare_antisym (event_date y) (event_date x)).
  rewrite (Z.compare_antisym (seq_number x) (seq_number y)).
  rewrite (String.compare_antisym (agenda_number y) (agenda_number x)).
  destruct (String.compare (event_date x) (event_date y)); cbn; auto.
  destruct (Z.compare (seq_number x) (seq_number y)); cbn; auto.
  destruct (String.compare (agenda_number x) (agenda_number y)); cbn; auto.
Qed.

Lemma phase3_correlate_sorted order self A B out :
  B ≠ [] -> phase3_correlate order self A B = Some out ->
  Sorted (fun x y => item_leb x y = true) out.
Proof.
  intros HB. unfold phase3_correlate. destruct B as [|r B]; [done|].
  destruct (build_socrata_by_key (r :: B) []) as [groups|];
    cbn [mbind option_bind]; [|done].
  destruct (build_legistar_by_key A 0 ∅) as [idx|];
    cbn [mbind option_bind]; [|done].
  destruct (match_groups groups idx A []) as [items' um'].
  destruct (mapM _ _) as [new_items|]; cbn [mbind option_bind]; [|done].
  intros [= <-]. apply sorted_Sorted. exact item_leb_total.
Qed.

(** C10.  When two source-A items have the same composite key and the
    second is the last item with that key, the index holds the position of
    the second.  A source-B group with that key is merged into the second
    item and into no other: in the output the second item carries the
    group's vote mapping, the passed flag derived from the final action of
    the group's first record, that final action, the first record's item
    number and agenda information and the vote type of a roll call, and
    keeps its own date, number, sequence, links and details, and its own
    title unless that is empty; the first item, like every other item with
    that key, is in the output as it came, so without vote data when it
    came without; and no key is the index key of two positions, so a group
    is merged into at most one item. *)
Theorem duplicate_key_later_item_wins order self A B i j item_i item_j k
    sample rest :
  normalizable A B ->
  (i < j)%nat ->
  A !! i = Some item_i -> A !! j = Some item_j ->
  legistar_key item_i = Some k -> legistar_key item_j = Some k ->
  (forall j' item', (j < j')%nat -> A !! j' = Some item' ->
                    legistar_key item' ≠ Some k) ->
  group_of B k = sample :: rest ->
  exists out idx later,
    phase3_correlate order self A B = Some out
    ∧ build_legistar_by_key A 0 ∅ = Some idx
    ∧ idx !! k = Some j
    ∧ merged_item A B i item_i = item_i
    ∧ item_i ∈ out
    ∧ merged_item A B j item_j = later
    ∧ later ∈ out
    ∧ item_votes later = build_votes (sample :: rest)
    ∧ (forall name,
         item_votes later !! name
         = if is_empty name then None else last_vote name (sample :: rest))
    ∧ passed later = derive_passed (final_action_taken sample)
    ∧ socrata_final_action later = final_action_taken sample
    ∧ socrata_item_number later = agenda_item_number sample
    ∧ socrata_agenda_info later = item_type sample
    ∧ vote_type later = "Socrata Roll Call"
    ∧ title later = (if is_empty (title item_j)
                     then agenda_item_description sample else title item_j)
    ∧ event_date later = event_date item_j
    ∧ event_body later = event_body item_j
    ∧ agenda_number later = agenda_number item_j
    ∧ agenda_sequence later = agenda_sequence item_j
    ∧ minutes_link later = minutes_link item_j
    ∧ video_link later = video_link item_j
    ∧ detail later = detail item_j
    ∧ (forall i' item',
         A !! i' = Some item' -> i' ≠ j -> legistar_key item' = Some k ->
         merged_item A B i' item' = item')
    ∧ (forall i1 i2 item1 item2 k',
         A !! i1 = Some item1 -> A !! i2 = Some item2 ->
         indexed_key A i1 item1 = Some k' ->
         indexed_key A i2 item2 = Some k' -> i1 = i2).
Proof.
  intros Hnorm Hlt Hi Hj Hki Hkj Hlast Hgroup.
  destruct (phase3_correlate_shape order self A B Hnorm)
    as (out & ks & new_items & Hout & Hperm & _).
  destruct (build_legistar_by_key_spec A 0 ∅ (proj1 Hnorm))
    as (idx & Hindex & Hlook).
  assert (index_of A idx) as Hidx.
  { intros k'. by rewrite Hlook, lookup_empty. }
  assert (indexed_key A j item_j = Some k) as Hjk.
  { apply indexed_key_Some. split; [done|].
    apply existsb_has_key_false. intros item' Hin Hk'.
    apply list_elem_of_lookup in Hin as [n Hn]. rewrite lookup_drop in Hn.
    eapply (Hlast (S j + n)%nat); [lia|done|done]. }
  assert (forall i' item',
            A !! i' = Some item' -> i' ≠ j -> legistar_key item' = Some k ->
            merged_item A B i' item' = item') as Hothers.
  { intros i' item' Hi' Hne Hk'. unfold merged_item.
    destruct (indexed_key A i' item') as [k'|] eqn:Hik; [|done].
    exfalso. apply Hne.
    assert (k' = k) as ->.
    { apply indexed_key_legistar_key in Hik. congruence. }
    by apply (indexed_key_unique A i' j item' item_j k). }
  assert (merged_item A B i item_i = item_i) as Hmi
    by (apply Hothers; [done|lia|done]).
  assert (merged_item A B j item_j
          = merge_socrata_into_item item_j (sample :: rest)) as Hmj
    by (unfold merged_item; by rewrite Hjk, Hgroup).
  exists out, idx, (merge_socrata_into_item item_j (sample :: rest)).
  split; [done|]. split; [done|]. split.
  { apply (index_of_Some A); [done|]. by exists item_j. }
  split; [done|]. split.
  { rewrite Hperm. apply elem_of_app. left.
    apply list_elem_of_lookup. exists i.
    by rewrite list_lookup_imap, Hi; cbn; rewrite Hmi. }
  split; [done|]. split.
  { rewrite Hperm. apply elem_of_app. left.
    apply list_elem_of_lookup. exists j.
    by rewrite list_lookup_imap, Hj; cbn; rewrite Hmj. }
  split; [done|]. split; [intros name; apply build_votes_lookup|].
  do 13 (split; [done|]).
  split; [exact Hothers|].
  intros i1 i2 item1 item2 k'. apply indexed_key_unique.
Qed.

Lemma duplicate_key_later_item_wins_witness :
  exists out later,
    phase3_correlate insertion_order Samples.workflow
      Samples.legistar_items Samples.socrata_records = Some out
    ∧ Samples.legistar_item "2025-10-15" "12" "Zoning case" (Some 3) ∈ out
    ∧ later ∈ out
    ∧ title later = "Zoning case, revised"
    ∧ item_votes later !! "Cara Mendelsohn" = Some "NO"
    ∧ passed later = Some 1.
Proof.
  destruct (duplicate_key_later_item_wins insertion_order Samples.workflow
              Samples.legistar_items Samples.socrata_records 0 1
              (Samples.legistar_item "2025-10-15" "12" "Zoning case" (Some 3))
              (Samples.legistar_item "2025-10-15" "012."
                 "Zoning case, revised" (Some 4))
              ("2025-10-15", "12")
              (Samples.socrata_row "2025-10-15T00:00:00" "12."
                 "Adam Bazaldua" "YES")
              [Samples.socrata_row "2025-10-15T00:00:00" "12"
                 "Cara Mendelsohn" "NO"])
    as (out & idx & later & Hout & _ & _ & _ & Hin & _ & Hlater & _ & Hvotes
        & Hpassed & _ & _ & _ & _ & Htitle & _).
  - exact sample_normalizable.
  - lia.
  - reflexivity.
  - reflexivity.
  - reflexivity.
  - reflexivity.
  - intros [|[|[|j']]] item' Hlt; try lia.
    + intros [= <-]. vm_compute. congruence.
    + intros Hnone. rewrite lookup_ge_None_2 in Hnone; [done|]. cbn. lia.
  - reflexivity.
  - exists out, later. split; [exact Hout|]. split; [exact Hin|].
    split; [exact Hlater|]. split; [exact Htitle|].
    split; [by rewrite Hvotes|exact Hpassed].
Defined.

End CorrelatorClaims.

(* ===================================================================== *)
(** * Properties: the meeting loader *)
(* ===================================================================== *)

Section LoaderFacts.
Import PyStr BuildSite Aggregates.

Lemma count_where_snoc {X} (f : X -> bool) (l : list X) (x : X) :
  count_where f (l ++ [x]) = count_where f l + (if f x then 1 else 0).
Proof.
  unfold count_where. rewrite List.filter_app, length_app. cbn [List.filter].
  destruct (f x); cbn [length]; lia.
Qed.

Lemma count_where_cons {X} (f : X -> bool) (x : X) (l : list X) :
  count_where f (x :: l) = (if f x then 1 else 0) + count_where f l.
Proof.
  unfold count_where. cbn [List.filter].
  destruct (f x); cbn [length]; lia.
Qed.

Lemma filter_Permutation_bool {X} (f : X -> bool) (l l' : list X) :
  l ≡ₚ l' -> List.filter f l ≡ₚ List.filter f l'.
Proof.
  induction 1 as [|x l l' _ IH|x y l|l l' l'' _ IH1 _ IH2]; cbn [List.filter].
  - done.
  - destruct (f x); by rewrite IH.
  - destruct (f x), (f y); try done. apply Permutation_swap.
  - by rewrite IH1.
Qed.

Lemma count_where_Permutation {X} (f : X -> bool) (l l' : list X) :
  l ≡ₚ l' -> count_where f l = count_where f l'.
Proof.
  intros H. unfold count_where. f_equal.
  apply Permutation_length. by apply filter_Permutation_bool.
Qed.

(** A loop whose body keeps an invariant keeps it, and returns when the
    body does. *)
Lemma foldM_invariant {X S} (f : S -> X -> option S) (Ok : X -> Prop)
    (Inv : S -> Prop) (l : list X) (s : S) :
  (forall s x, Ok x -> Inv s -> exists s', f s x = Some s' ∧ Inv s') ->
  Forall Ok l -> Inv s ->
  exists s', Py.foldM f s l = Some s' ∧ Inv s'.
Proof.
  intros Hstep. revert s. induction l as [|x l IH]; intros s Hl Hs;
    cbn [Py.foldM].
  - by exists s.
  - apply Forall_cons in Hl as [Hx Hl].
    destruct (Hstep s x Hx Hs) as (s1 & -> & Hs1). cbn [mbind option_bind].
    by apply IH.
Qed.

(** The same for a property the body keeps whenever it returns. *)
Lemma foldM_preserves {X S} (f : S -> X -> option S) (Inv : S -> Prop)
    (l : list X) (s s' : S) :
  (forall s x s', f s x = Some s' -> Inv s -> Inv s') ->
  Py.foldM f s l = Some s' -> Inv s -> Inv s'.
Proof.
  intros Hstep. revert s. induction l as [|x l IH]; intros s;
    cbn [Py.foldM].
  - by intros [= ->].
  - destruct (f s x) as [s1|] eqn:E; cbn [mbind option_bind]; [|done].
    intros Hrun Hs. apply (IH s1 Hrun). by eapply Hstep.
Qed.

Lemma item_sequence_is_Some (seq : string) (count : Z) :
  (isdigit seq = true -> isdecimal seq = true) ->
  is_Some (item_sequence seq count).
Proof.
  intros H. unfold item_sequence. destruct (isdigit seq); [|by eexists].
  destruct (proj2 (int_of_digits_is_Some seq) (H eq_refl)) as [n ->].
  by eexists.
Qed.

Lemma meetings_get_elem_of (key : MeetingKey) (m : Meeting)
    (d : list (MeetingKey * Meeting)) :
  meetings_get key d = Some m -> (key, m) ∈ d.
Proof.
  induction d as [|[k0 m0] d IH]; cbn [meetings_get]; [done|].
  destruct (decide (k0 = key)) as [->|Hne].
  - intros [= ->]. by left.
  - intros H. right. by apply IH.
Qed.

Lemma Forall_meetings_set (P : MeetingKey * Meeting -> Prop)
    (key : MeetingKey) (m : Meeting) (d : list (MeetingKey * Meeting)) :
  Forall P d -> P (key, m) -> Forall P (meetings_set key m d).
Proof.
  intros Hd Hm. induction d as [|[k0 m0] d IH]; cbn [meetings_set].
  - by constructor.
  - apply Forall_cons in Hd as [H0 Hd].
    destruct (decide (k0 = key)) as [->|Hne]; constructor; auto.
Qed.

Lemma voted_or_non_voted (x : AgendaItem) : is_voted x = negb (is_non_voted x).
Proof. unfold is_voted, is_non_voted. by destruct (item_type x). Qed.

Lemma count_voted_non_voted (l : list AgendaItem) :
  count_where is_voted l + count_where is_non_voted l = Z.of_nat (length l).
Proof.
  induction l as [|x l IH]; [done|].
  rewrite !count_where_cons, voted_or_non_voted. cbn [length].
  destruct (is_non_voted x); cbn [negb]; lia.
Qed.

Lemma counts_consistent_new (counter : Z) (event_id date : string)
    (row : gmap string string) :
  counts_consistent (new_meeting counter event_id date row).
Proof. by repeat split. Qed.

Lemma counts_consistent_voted (meeting : Meeting) (row : gmap string string)
    (entry : AgendaItem) :
  item_type entry = voted -> category entry = None ->
  counts_consistent meeting ->
  counts_consistent
    (record_entry meeting row (vote_count meeting + 1)
       (non_voted_count meeting) (first_reading_count meeting) entry).
Proof.
  intros Htype Hcat (Hn & Hv & Hnv & Hfr).
  assert (is_voted entry = true) as E1 by (unfold is_voted; by rewrite Htype).
  assert (is_non_voted entry = false) as E2
    by (unfold is_non_voted; by rewrite Htype).
  assert (is_first_reading entry = false) as E3
    by (unfold is_first_reading; by rewrite Hcat).
  unfold counts_consistent, record_entry. cbn.
  rewrite !count_where_snoc, length_app, E1, E2, E3. cbn [length]. lia.
Qed.

Lemma counts_consistent_non_voted (meeting : Meeting)
    (row : gmap string string) (entry : AgendaItem) (c : Category) :
  item_type entry = non_voted -> category entry = Some c ->
  counts_consistent meeting ->
  counts_consistent
    (record_entry meeting row (vote_count meeting)
       (non_voted_count meeting + 1)
       (if bool_decide (c = first_reading)
        then first_reading_count meeting + 1
        else first_reading_count meeting) entry).
Proof.
  intros Htype Hcat (Hn & Hv & Hnv & Hfr).
  assert (is_voted entry = false) as E1 by (unfold is_voted; by rewrite Htype).
  assert (is_non_voted entry = true) as E2
    by (unfold is_non_voted; by rewrite Htype).
  assert (is_first_reading entry = bool_decide (c = first_reading)) as E3.
  { unfold is_first_reading. rewrite Hcat.
    destruct (decide (c = first_reading)) as [->|Hne].
    - by rewrite !bool_decide_eq_true_2.
    - rewrite !bool_decide_eq_false_2; congruence. }
  unfold counts_consistent, record_entry. cbn.
  rewrite !count_where_snoc, length_app, E1, E2, E3. cbn [length].
  destruct (bool_decide (c = first_reading)); lia.
Qed.

Lemma counts_consistent_sort_agenda (m : Meeting) :
  counts_consistent m -> counts_consistent (sort_agenda m).
Proof.
  intros (Hn & Hv & Hnv & Hfr). unfold counts_consistent, sort_agenda. cbn.
  rewrite length_sorted.
  rewrite !(count_where_Permutation _ _ _ (sorted_Permutation _ _)).
  done.
Qed.

End LoaderFacts.

Section LoaderClaims.
Import PyStr BuildSite Aggregates.

(** One row keeps the counts of every meeting in step with its agenda. *)
Lemma process_row_consistent (members : list (string * Member))
    (member_cols : list string) (st : LoadState) (row : gmap string string) :
  sequence_ok row -> meetings_consistent st ->
  exists st', process_row members member_cols st row = Some st'
              ∧ meetings_consistent st'.
Proof.
  intros Hseq Hinv. unfold process_row. cbv zeta.
  destruct (is_empty (strip (cell row "event_date"))); [by exists st|].
  destruct (is_empty (strip (cell row "title"))); [by exists st|].
  destruct (bool_decide _); [by exists st|].
  set (key := (strip (cell row "event_id"), strip (cell row "event_date"))).
  assert (exists counter meeting,
            match meetings_get key (meetings_by_key st) with
            | Some m => (ls_meeting_id_counter st, m)
            | None =>
                (ls_meeting_id_counter st + 1,
                 new_meeting (ls_meeting_id_counter st + 1)
                   (strip (cell row "event_id")) (strip (cell row "event_date"))
                   row)
            end = (counter, meeting) ∧ counts_consistent meeting)
    as (counter & meeting & -> & Hm).
  { destruct (meetings_get key (meetings_by_key st)) as [m|] eqn:Hget.
    - exists (ls_meeting_id_counter st), m. split; [done|].
      apply meetings_get_elem_of in Hget.
      unfold meetings_consistent in Hinv. rewrite Forall_forall in Hinv.
      by apply (Hinv (key, m)).
    - eexists _, _. split; [done|]. apply counts_consistent_new. }
  destruct (item_sequence_is_Some (strip (cell row "agenda_sequence"))
              (agenda_item_count meeting + 1) Hseq) as [n ->].
  cbn [mbind option_bind].
  destruct (negb _).
  - eexists. split; [done|]. unfold meetings_consistent. cbn.
    apply Forall_meetings_set; [done|]. by apply counts_consistent_voted.
  - destruct (classify_non_voted_item _ _ _ _) as [[c imp] disp].
    eexists. split; [done|]. unfold meetings_consistent. cbn.
    apply Forall_meetings_set; [done|].
    by apply counts_consistent_non_voted.
Qed.

Lemma process_file_consistent (members : list (string * Member))
    (st : LoadState) (f : VotesFile) :
  Forall sequence_ok (rows f) -> meetings_consistent st ->
  exists st', process_file members st f = Some st' ∧ meetings_consistent st'.
Proof.
  intros Hrows Hinv. unfold process_file.
  apply (foldM_invariant _ sequence_ok meetings_consistent); [|done|done].
  intros s x. apply process_row_consistent.
Qed.

(** C7.  On every sequence of votes files whose sequence cells are decimal
    where they are digits, the loader returns, and in every meeting it
    produces the counts are the sizes of the parts of its agenda:
    agenda_item_count is the length of agenda_items, vote_count and
    non_voted_count are the numbers of voted and of non-voted items and add
    up to agenda_item_count, and first_reading_count is the number of items
    in the first_reading category. *)
Theorem meeting_counts_match_agenda (self : Builder)
    (votes_files : list VotesFile) :
  files_ok votes_files ->
  exists self',
    _load_all_csv_data self votes_files = Some self'
    ∧ forall m, m ∈ meetings self' ->
        agenda_item_count m = Z.of_nat (length (agenda_items m))
        ∧ vote_count m + non_voted_count m = agenda_item_count m
        ∧ vote_count m = count_where is_voted (agenda_items m)
        ∧ non_voted_count m = count_where is_non_voted (agenda_items m)
        ∧ first_reading_count m = count_where is_first_reading (agenda_items m)
        ∧ (forall x, x ∈ agenda_items m -> is_voted x = negb (is_non_voted x)).
Proof.
  intros Hfiles. unfold _load_all_csv_data.
  destruct (foldM_invariant (process_file (members self))
              (fun f => Forall sequence_ok (rows f)) meetings_consistent
              votes_files
              {| meetings_by_key := []; seen_items := ∅;
                 ls_votes := votes self;
                 ls_vote_id_counter := vote_id_counter self;
                 ls_meeting_id_counter := meeting_id_counter self |})
    as (st & -> & Hst).
  { intros s f. apply process_file_consistent. }
  { done. }
  { constructor. }
  cbn [mbind option_bind]. eexists. split; [done|]. cbn [meetings].
  intros m Hm. unfold Py.sorted_reverse in Hm. apply elem_of_sorted in Hm.
  apply list_elem_of_fmap in Hm as ([k m0] & -> & Hin). cbn [snd].
  unfold meetings_consistent in Hst. rewrite Forall_forall in Hst.
  pose proof (counts_consistent_sort_agenda m0 (Hst _ Hin))
    as (Hn & Hv & Hnv & Hfr).
  split; [done|]. split.
  { rewrite Hn, Hv, Hnv. apply count_voted_non_voted. }
  split; [done|]. split; [done|]. split; [done|].
  intros x _. apply voted_or_non_voted.
Qed.

Lemma sample_files_ok : files_ok [Samples.votes_file].
Proof.
  repeat constructor; intros H; vm_compute in H |- *; congruence.
Qed.

Lemma meeting_counts_match_agenda_witness :
  files_ok [Samples.votes_file]
  ∧ exists self',
      _load_all_csv_data (Samples.builder []) [Samples.votes_file] = Some self'
      ∧ forall m, m ∈ meetings self' ->
          vote_count m + non_voted_count m = agenda_item_count m.
Proof.
  split; [exact sample_files_ok|].
  destruct (meeting_counts_match_agenda (Samples.builder [])
              [Samples.votes_file] sample_files_ok) as (self' & Hload & Hm).
  exists self'. split; [exact Hload|].
  intros m Hin. exact (proj1 (proj2 (Hm m Hin))).
Defined.

End LoaderClaims.

(* ===================================================================== *)
(** * Properties: member statistics *)
(* ===================================================================== *)

Section Recusal.
Import PyStr BuildSite Aggregates.

Lemma collect_member_votes_no_recusal (members : list (string * Member))
    (member_cols : list string) (row : gmap string string) (name : string) :
  collect_member_votes members member_cols row !! name ≠ Some RECUSAL.
Proof.
  unfold collect_member_votes.
  assert (forall acc : gmap string VoteChoice,
            acc !! name ≠ Some RECUSAL ->
            foldl (fun member_votes col =>
                     match map_vote (strip (cell row col)) with
                     | Some mapped =>
                         if bool_decide
                              (is_Some (table_get members (normalize_name col)))
                         then <[normalize_name col := mapped]> member_votes
                         else member_votes
                     | None => member_votes
                     end) acc member_cols !! name ≠ Some RECUSAL) as H.
  { induction member_cols as [|col cols IH]; intros acc Hacc; cbn [foldl];
      [done|].
    apply IH.
    destruct (map_vote (strip (cell row col))) as [mapped|] eqn:Hmap; [|done].
    destruct (bool_decide _); [|done].
    destruct (decide (normalize_name col = name)) as [->|Hne].
    - rewrite lookup_insert_eq. intros [= ->].
      by apply map_vote_not_recusal in Hmap.
    - by rewrite lookup_insert_ne. }
  apply H. by rewrite lookup_empty.
Qed.

Lemma process_row_no_recusal (members : list (string * Member))
    (member_cols : list string) (st st' : LoadState)
    (row : gmap string string) :
  process_row members member_cols st row = Some st' ->
  Forall no_recusal (ls_votes st) -> Forall no_recusal (ls_votes st').
Proof.
  unfold process_row. cbv zeta.
  destruct (is_empty (strip (cell row "event_date"))); [by intros [= <-]|].
  destruct (is_empty (strip (cell row "title"))); [by intros [= <-]|].
  destruct (bool_decide _); [by intros [= <-]|].
  destruct (match meetings_get _ _ with Some m => _ | None => _ end)
    as [counter meeting].
  destruct (item_sequence _ _) as [n|]; cbn [mbind option_bind]; [|done].
  destruct (negb _).
  - intros [= <-] Hst. cbn [ls_votes]. apply Forall_app. split; [done|].
    constructor; [|constructor]. intros name. cbn [member_votes].
    apply collect_member_votes_no_recusal.
  - destruct (classify_non_voted_item _ _ _ _) as [[c imp] disp].
    by intros [= <-].
Qed.

Lemma load_no_recusal (self self' : Builder) (votes_files : list VotesFile) :
  _load_all_csv_data self votes_files = Some self' ->
  Forall no_recusal (votes self) -> Forall no_recusal (votes self').
Proof.
  unfold _load_all_csv_data.
  destruct (Py.foldM _ _ votes_files) as [st|] eqn:Hrun;
    cbn [mbind option_bind]; [|done].
  intros [= <-] Hself. cbn [votes]. unfold Py.sorted_reverse.
  apply Forall_sorted.
  apply (foldM_preserves _ (fun s => Forall no_recusal (ls_votes s))
           _ _ _ ) in Hrun; [done| |done].
  intros s f s' Hfile Hs. unfold process_file in Hfile.
  apply (foldM_preserves _ (fun s => Forall no_recusal (ls_votes s))
           _ _ _ ) in Hfile; [done| |done].
  intros s0 row s1. apply process_row_no_recusal.
Qed.

Lemma count_votes_recusal (name : string) (votes : list Vote) :
  Forall no_recusal votes -> recusal_count (count_votes name votes) = 0.
Proof.
  unfold count_votes.
  assert (forall c, recusal_count c = 0 -> Forall no_recusal votes ->
                    recusal_count (foldl (count_vote name) c votes) = 0) as H.
  { induction votes as [|v votes IH]; intros c Hc Hall; cbn [foldl]; [done|].
    apply Forall_cons in Hall as [Hv Hall]. apply IH; [|done].
    unfold count_vote. destruct (member_votes v !! name) as [mv|] eqn:E; [|done].
    cbn [recusal_count]. rewrite bool_decide_eq_false_2; [done|].
    intros ->. by apply (Hv name). }
  by apply H.
Qed.

(** C9.  The codec yields AYE, NAY, ABSENT, ABSTAIN or "not a
    participant", never RECUSAL; so no vote record the loader produces has a
    member recorded with RECUSAL, and the recusal_count of every member's
    statistics is 0. *)
Theorem recusal_never_counted (self self' : Builder)
    (votes_files : list VotesFile) (name : string) :
  votes self = [] ->
  _load_all_csv_data self votes_files = Some self' ->
  (forall raw_vote,
     map_vote raw_vote ∈ [None; Some AYE; Some NAY; Some ABSENT; Some ABSTAIN])
  ∧ Forall no_recusal (votes self')
  ∧ s_recusal_count (_compute_member_stats self' name) = 0.
Proof.
  intros Hnone Hload.
  assert (Forall no_recusal (votes self')) as Hvotes.
  { apply (load_no_recusal self self' votes_files Hload). rewrite Hnone.
    constructor. }
  split; [|split; [done|]].
  - intros raw_vote. destruct (map_vote raw_vote) as [c|] eqn:E; [|by left].
    apply map_vote_range in E.
    repeat (apply elem_of_cons in E as [->|E];
            [do 5 (try (by left); right)|]).
    by apply elem_of_nil in E.
  - unfold _compute_member_stats. cbn [s_recusal_count].
    by apply count_votes_recusal.
Qed.

Lemma recusal_never_counted_witness :
  exists self',
    _load_all_csv_data (Samples.builder []) [Samples.votes_file] = Some self'
    ∧ s_recusal_count (_compute_member_stats self' "Ann Ames") = 0.
Proof.
  destruct (_load_all_csv_data (Samples.builder []) [Samples.votes_file])
    as [self'|] eqn:Hload.
  - exists self'. split; [reflexivity|].
    exact (proj2 (proj2 (recusal_never_counted (Samples.builder []) self'
                           [Samples.votes_file] "Ann Ames" eq_refl Hload))).
  - vm_compute in Hload. discriminate Hload.
Defined.

End Recusal.

Section Dissent.
Import PyStr BuildSite Aggregates.

(** What one record adds to the counters. *)
Lemma count_vote_step (name : string) (c : Counters) (v : Vote) :
  total (count_vote name c v) = total c + unit_of (took_part name v)
  ∧ absent_count (count_vote name c v)
    = absent_count c + unit_of (chose ABSENT name v)
  ∧ abstain_count (count_vote name c v)
    = abstain_count c + unit_of (chose ABSTAIN name v)
  ∧ votes_on_losing_side (count_vote name c v)
    = votes_on_losing_side c + unit_of (losing_side name v)
  ∧ close_vote_dissents (count_vote name c v)
    = close_vote_dissents c + unit_of (close_dissent name v).
Proof.
  unfold count_vote, took_part, chose, close_dissent, losing_side.
  destruct (member_votes v !! name) as [mv|].
  - destruct mv, (outcome v), (Z.abs (ayes v - noes v) <=? 2);
      unfold bump, unit_of; cbn; repeat split;
      repeat case_bool_decide; try congruence; cbn; lia.
  - unfold unit_of. cbn. repeat case_bool_decide; try congruence; lia.
Qed.

Lemma count_where_cons_unit {X} (f : X -> bool) (x : X) (l : list X) :
  count_where f (x :: l) = unit_of (f x) + count_where f l.
Proof. apply count_where_cons. Qed.

(** The counters after the loop are the counters before it plus the
    numbers of records of each kind. *)
Lemma count_votes_from (name : string) (votes : list Vote) (c : Counters) :
  let c' := foldl (count_vote name) c votes in
  total c' = total c + count_where (took_part name) votes
  ∧ absent_count c' = absent_count c + count_where (chose ABSENT name) votes
  ∧ abstain_count c' = abstain_count c + count_where (chose ABSTAIN name) votes
  ∧ votes_on_losing_side c'
    = votes_on_losing_side c + count_where (losing_side name) votes
  ∧ close_vote_dissents c'
    = close_vote_dissents c + count_where (close_dissent name) votes.
Proof.
  revert c. induction votes as [|v votes IH]; intros c; cbn [foldl].
  - unfold count_where. cbn. lia.
  - destruct (IH (count_vote name c v)) as (H1 & H2 & H3 & H4 & H5).
    destruct (count_vote_step name c v) as (S1 & S2 & S3 & S4 & S5).
    cbv zeta. rewrite H1, H2, H3, H4, H5, S1, S2, S3, S4, S5.
    rewrite !count_where_cons_unit. lia.
Qed.

(** The losing-side count and the close-dissent count are the documented
    ones. *)
Lemma losing_side_counted (name : string) (votes : list Vote) :
  votes_on_losing_side (count_votes name votes)
  = count_where (losing_side name) votes
  ∧ close_vote_dissents (count_votes name votes)
    = count_where (close_dissent name) votes.
Proof.
  destruct (count_votes_from name votes zero_counters) as (_ & _ & _ & H4 & H5).
  unfold count_votes. cbn in H4, H5. by rewrite H4, H5.
Qed.

Lemma is_Some_None_false {X} : ¬ is_Some (@None X).
Proof. by intros [? ?]. Qed.

Lemma special_outcomes_count (name : string) (votes : list Vote) :
  special_outcomes name votes = count_where (special_record name) votes.
Proof. reflexivity. Qed.

(** Record by record: taking part, less the absences and abstentions, less
    the special outcomes, is the documented test less the absences and
    abstentions already counted among the special outcomes. *)
Lemma record_balance (name : string) (v : Vote) :
  unit_of (took_part name v) - unit_of (chose ABSENT name v)
  - unit_of (chose ABSTAIN name v) - unit_of (special_record name v)
  = unit_of (in_dissent_denominator name v) - unit_of (excluded_twice name v).
Proof.
  unfold special_record, took_part, chose, in_dissent_denominator,
    excluded_twice, unit_of.
  destruct (member_votes v !! name) as [mv|].
  - destruct mv, (is_decisive (outcome v)); cbn;
      repeat case_bool_decide; try congruence; try lia;
      exfalso; eauto.
  - cbn. repeat case_bool_decide; try congruence; try lia.
    all: exfalso; eauto using is_Some_None_false.
Qed.

Lemma votes_balance (name : string) (votes : list Vote) :
  count_where (took_part name) votes - count_where (chose ABSENT name) votes
  - count_where (chose ABSTAIN name) votes
  - count_where (special_record name) votes
  = count_where (in_dissent_denominator name) votes
    - count_where (excluded_twice name) votes.
Proof.
  induction votes as [|v votes IH]; [done|].
  rewrite !count_where_cons_unit. pose proof (record_balance name v). lia.
Qed.

(** The denominator of the program: the documented count less the records
    on which the member was ABSENT or ABSTAIN and the outcome was neither
    PASS nor FAIL, which it has subtracted twice; 1 when that is not
    positive. *)
Lemma dissent_denom_code (name : string) (votes : list Vote) :
  dissent_denom name votes
  = let n := count_where (in_dissent_denominator name) votes
             - count_where (excluded_twice name) votes in
    if n >? 0 then n else 1.
Proof.
  unfold dissent_denom.
  destruct (count_votes_from name votes zero_counters) as (H1 & H2 & H3 & _).
  fold (count_votes name votes) in H1, H2, H3. cbv zeta in H1, H2, H3.
  rewrite H1, H2, H3, special_outcomes_count.
  cbn [total absent_count abstain_count zero_counters].
  pose proof (votes_balance name votes) as Hb. cbv zeta.
  destruct (_ >? count_where (special_record name) votes) eqn:E1;
    destruct (_ >? 0) eqn:E2; lia.
Qed.

(** A member who is never on the losing side has dissent rate 0. *)
Lemma dissent_rate_zero (self : Builder) (name : string) :
  count_where (losing_side name) (votes self) = 0 ->
  s_dissent_rate (_compute_member_stats self name) = 0%Q.
Proof.
  intros Hnone. unfold _compute_member_stats. cbn [s_dissent_rate].
  destruct (dissent_denom name (votes self) =? 0); [done|].
  rewrite (proj1 (losing_side_counted name (votes self))), Hnone.
  rewrite percent_zero. by apply round1_zero.
Qed.

(** C3 (failing input).  Ann dissents on both passed items and is absent
    from the continued one.  She is on the losing side twice, both close;
    the documented denominator is 2 and the documented rate 100; the
    program subtracts the absence twice, divides by 1 and reports 200. *)
Theorem dissent_denominator_subtracts_absences_twice :
  votes_on_losing_side (count_votes "Ann Ames" Samples.dissent_votes) = 2
  ∧ close_vote_dissents (count_votes "Ann Ames" Samples.dissent_votes) = 2
  ∧ dissent_denominator "Ann Ames" Samples.dissent_votes = 2
  ∧ dissent_rate "Ann Ames" Samples.dissent_votes = 100%Q
  ∧ dissent_denom "Ann Ames" Samples.dissent_votes = 1
  ∧ s_dissent_rate
      (_compute_member_stats (Samples.builder Samples.dissent_votes) "Ann Ames")
    = 200%Q.
Proof. vm_compute. repeat split. Qed.

End Dissent.

(* ===================================================================== *)
(** * Properties: pairwise alignment *)
(* ===================================================================== *)

Section AlignmentFacts.
Import PyStr BuildSite Aggregates.

Lemma pair_step_counts (m1 m2 : string) (acc : Z * Z) (v : Vote) :
  pair_step m1 m2 acc v
  = (acc.1 + unit_of (shared_record m1 m2 v),
     acc.2 + unit_of (agreeing_record m1 m2 v)).
Proof.
  unfold pair_step, agreeing_record, shared_record, unit_of.
  destruct acc as [s a]. cbn [fst snd].
  destruct (aye_or_nay (member_votes v !! m1) && aye_or_nay (member_votes v !! m2));
    cbn [andb].
  - destruct (bool_decide _); f_equal; lia.
  - f_equal; lia.
Qed.

Lemma pair_tally_from (m1 m2 : string) (votes : list Vote) (acc : Z * Z) :
  foldl (pair_step m1 m2) acc votes
  = (acc.1 + count_where (shared_record m1 m2) votes,
     acc.2 + count_where (agreeing_record m1 m2) votes).
Proof.
  revert acc. induction votes as [|v votes IH]; intros acc; cbn [foldl].
  - destruct acc. unfold count_where. cbn. f_equal; lia.
  - rewrite IH, pair_step_counts, !count_where_cons_unit. cbn [fst snd].
    f_equal; lia.
Qed.

(** The inner loop counts the shared records and, among them, those with
    equal choices. *)
Lemma pair_tally_counts (votes : list Vote) (m1 m2 : string) :
  pair_tally votes m1 m2
  = (count_where (shared_record m1 m2) votes,
     count_where (agreeing_record m1 m2) votes).
Proof. unfold pair_tally. by rewrite pair_tally_from. Qed.

(** When the two members agree on every shared record, every shared
    record is an agreeing one. *)
Lemma full_agreement_counts (m1 m2 : string) (votes : list Vote) :
  (forall v, v ∈ votes -> shared_record m1 m2 v = true ->
             member_votes v !! m1 = member_votes v !! m2) ->
  count_where (agreeing_record m1 m2) votes
  = count_where (shared_record m1 m2) votes.
Proof.
  induction votes as [|v votes IH]; intros Hall; [done|].
  rewrite !count_where_cons_unit, IH by (intros v' Hv'; apply Hall; by right).
  f_equal. unfold agreeing_record.
  destruct (shared_record m1 m2 v) eqn:Hs; [|done].
  rewrite bool_decide_eq_true_2; [done|]. apply Hall; [by left|done].
Qed.

(** The agreeing records are among the shared ones. *)
Lemma agreeing_among_shared (m1 m2 : string) (votes : list Vote) :
  0 <= count_where (agreeing_record m1 m2) votes
    <= count_where (shared_record m1 m2) votes.
Proof.
  induction votes as [|v votes IH]; [done|].
  rewrite !count_where_cons_unit.
  assert (0 <= unit_of (agreeing_record m1 m2 v)
            <= unit_of (shared_record m1 m2 v)) as Hv; [|lia].
  unfold agreeing_record, unit_of.
  destruct (shared_record m1 m2 v), (bool_decide _); cbn [andb]; lia.
Qed.

Lemma elem_of_current_names (self : Builder) (name : string) :
  name ∈ current_names self
  <-> name ∈ (members self).*1 ∧ name ∈ _current_members self.
Proof.
  unfold current_names. rewrite elem_of_sorted, list_elem_of_In, filter_In.
  rewrite <- list_elem_of_In, bool_decide_eq_true. done.
Qed.

End AlignmentFacts.

Section AlignmentClaims.
Import PyStr BuildSite Aggregates.

(** C6 (counterexample).  Ann and Bo share three records and agree on
    one: the program reports the rate 33.3, which is neither the float
    1 / 3 * 100 nor 100 times 1 divided by 3. *)
Lemma agreement_rate_one_in_three :
  exists e,
    alignment_pairs
      (_generate_alignment_json (Samples.builder Samples.alignment_votes)) = [e]
    ∧ shared_votes e = 3
    ∧ agreements e = 1
    ∧ agreement_rate e = Py.float (333 # 10)
    ∧ ¬ (agreement_rate e == Py.percent (agreements e) (shared_votes e))%Q
    ∧ ¬ (agreement_rate e
         == 100 * inject_Z (agreements e) / inject_Z (shared_votes e))%Q.
Proof.
  eexists. split; [vm_compute; reflexivity|].
  cbn [shared_votes agreements agreement_rate].
  split; [done|]. split; [done|]. split; [by vm_compute|].
  split; intros H; vm_compute in H; discriminate H.
Qed.

(** C6 (amended).  The pairs of the output are the entries of the pairs
    of distinct current members, taken from the sorted list of the names
    that are both on the roster and current.  For every pair of names, a
    record is shared exactly when both choices on it are AYE or NAY; the
    pair has no entry when no record is shared, and otherwise one entry
    with the shared count, the count of shared records with equal choices,
    and as rate the float [round(agreeing / shared * 100, 1)].  That rate
    is the float written with one decimal place, between 0.0 and 100.0,
    whose decimal is within 0.05 of 100 times the agreeing count divided
    by the shared count, up to the rounding errors of the float division
    and multiplication, which are below 2^-46; the float itself is within
    2^-45 of that range.  The rate is 100.0 for two members with equal
    choices on every shared record. *)
Theorem alignment_pairs_rule (self : Builder) :
  alignment_pairs (_generate_alignment_json self)
    ≡ₚ flat_map (pair_entry self) (combinations2 (current_names self))
  ∧ (forall name,
       name ∈ current_names self
       <-> name ∈ (members self).*1 ∧ name ∈ _current_members self)
  ∧ (forall m1 m2,
       pair_entry self (m1, m2)
       = let shared := count_where (shared_record m1 m2) (votes self) in
         let agreeing := count_where (agreeing_record m1 m2) (votes self) in
         if shared >? 0
         then [ {| member1 := short_of self m1;
                   member2 := short_of self m2;
                   shared_votes := shared;
                   agreements := agreeing;
                   agreement_rate := Py.round1 (Py.percent agreeing shared) |} ]
         else [])
  ∧ (forall m1 m2 e,
       e ∈ pair_entry self (m1, m2) ->
       0 <= agreements e <= shared_votes e ∧ 0 < shared_votes e
       ∧ exists k,
           0 <= k <= 1000
           ∧ agreement_rate e = Py.float (k # 10)
           ∧ let pct :=
               (100 * inject_Z (agreements e) / inject_Z (shared_votes e))%Q in
             (pct - (1 # 20) - 2 ^ (-46) <= k # 10
              <= pct + (1 # 20) + 2 ^ (-46))%Q
             ∧ (pct - (1 # 20) - 2 ^ (-45) <= agreement_rate e
                <= pct + (1 # 20) + 2 ^ (-45))%Q)
  ∧ (forall m1 m2 e,
       (forall v, v ∈ votes self -> shared_record m1 m2 v = true ->
                  member_votes v !! m1 = member_votes v !! m2) ->
       e ∈ pair_entry self (m1, m2) -> agreement_rate e = 100%Q).
Proof.
  split.
  { unfold _generate_alignment_json. cbn [alignment_pairs].
    apply sorted_Permutation. }
  split; [apply elem_of_current_names|].
  split.
  { intros m1 m2. unfold pair_entry. cbn [fst snd].
    by rewrite pair_tally_counts. }
  split.
  { intros m1 m2 e. unfold pair_entry. cbn [fst snd].
    rewrite pair_tally_counts.
    destruct (_ >? 0) eqn:Hpos; [|by intros ?%elem_of_nil].
    intros ->%list_elem_of_singleton.
    cbn [agreement_rate agreements shared_votes].
    pose proof (agreeing_among_shared m1 m2 (votes self)) as Hle.
    assert (0 < count_where (shared_record m1 m2) (votes self)) as Hs by lia.
    split; [done|]. split; [done|].
    destruct (round1_percent_close _ _ Hle Hs) as (Hrate & Hk & Hdec & Hfl).
    eexists. split; [exact Hk|]. split; [exact Hrate|].
    cbv zeta. split; [exact Hdec|exact Hfl]. }
  intros m1 m2 e Hsame. unfold pair_entry. cbn [fst snd].
  rewrite pair_tally_counts, full_agreement_counts by done.
  destruct (_ >? 0) eqn:Hpos; [|by intros ?%elem_of_nil].
  intros ->%list_elem_of_singleton. cbn [agreement_rate].
  apply round1_percent_full. lia.
Qed.

End AlignmentClaims.

(* ===================================================================== *)
(** * Properties: determinism of the output orderings *)
(* ===================================================================== *)

Section Determinism.
Import PyStr Extract BuildSite.

Lemma vote_leb_total (x y : Vote) : vote_leb x y = true \/ vote_leb y x = true.
Proof.
  unfold vote_leb, Py.lex.
  rewrite (String.compare_antisym (v_meeting_date y) (v_meeting_date x)).
  rewrite (String.compare_antisym (item_number y) (item_number x)).
  destruct (String.compare (v_meeting_date x) (v_meeting_date y)); cbn; auto.
  destruct (String.compare (item_number x) (item_number y)); cbn; auto.
Qed.

Lemma sequence_leb_total (x y : AgendaItem) :
  sequence_leb x y = true \/ sequence_leb y x = true.
Proof. unfold sequence_leb. rewrite !Z.leb_le. lia. Qed.

Lemma meeting_date_leb_total (x y : Meeting) :
  meeting_date_leb x y = true \/ meeting_date_leb y x = true.
Proof. apply String.leb_total. Qed.

(** The lists the loader hands over are in order: the meetings by date,
    latest first; the agenda of each meeting by sequence number; the votes
    by date and item number, latest first. *)
Lemma load_orderings (self self' : Builder) (votes_files : list VotesFile) :
  _load_all_csv_data self votes_files = Some self' ->
  Sorted (fun a b => meeting_date_leb b a = true) (meetings self')
  ∧ Forall (fun m => Sorted (fun a b => sequence_leb a b = true) (agenda_items m))
      (meetings self')
  ∧ Sorted (fun a b => vote_leb b a = true) (votes self').
Proof.
  unfold _load_all_csv_data.
  destruct (Py.foldM _ _ votes_files) as [st|]; cbn [mbind option_bind]; [|done].
  intros [= <-]. cbn [meetings votes]. unfold Py.sorted_reverse.
  split; [|split].
  - apply sorted_Sorted. intros x y.
    destruct (meeting_date_leb_total x y); auto.
  - apply Forall_sorted. apply Forall_fmap, Forall_forall. intros [k m] _.
    cbn. apply sorted_Sorted. exact sequence_leb_total.
  - apply sorted_Sorted. intros x y. destruct (vote_leb_total x y); auto.
Qed.

(** C8.  The derived output is a function of the input sequences.  The
    one step of a run that the input does not fix, the order in which the
    set of unmatched keys hands out its elements, does not reach the output:
    the keys are sorted by a total order before they are used.  Every list
    in the output is the result of a stable sort by a total comparison: the
    merged items by date, sequence and number; the meetings by date; each
    agenda by sequence; the votes by date and item number. *)
Theorem outputs_deterministic :
  (forall (order1 order2 : SetOrder) self legistar_items socrata_records,
     phase3_correlate order1 self legistar_items socrata_records
     = phase3_correlate order2 self legistar_items socrata_records)
  ∧ (forall order self legistar_items socrata_records out,
       socrata_records ≠ [] ->
       phase3_correlate order self legistar_items socrata_records = Some out ->
       Sorted (fun x y => item_leb x y = true) out)
  ∧ (forall (self self' : Builder) votes_files,
       _load_all_csv_data self votes_files = Some self' ->
       Sorted (fun a b => meeting_date_leb b a = true) (meetings self')
       ∧ Forall (fun m => Sorted (fun a b => sequence_leb a b = true)
                            (agenda_items m)) (meetings self')
       ∧ Sorted (fun a b => vote_leb b a = true) (votes self')).
Proof.
  split; [exact phase3_correlate_order_independent|].
  split; [exact phase3_correlate_sorted|exact load_orderings].
Qed.

End Determinism.

(* ===================================================================== *)
(** * Further properties: text *)
(* ===================================================================== *)

Section TextFacts.
Import PyStr.

Lemma lstrip_by_head (p : ascii -> bool) (c : ascii) (s : string) :
  p c = false -> lstrip_by p (String c s) = String c s.
Proof. intros H. cbn [lstrip_by]. by rewrite H. Qed.

Lemma lstrip_by_none (p q : ascii -> bool) (s : string) :
  (forall c, q c = true -> p c = false) ->
  all_chars q s = true -> lstrip_by p s = s.
Proof.
  intros Hpq. destruct s as [|c s]; [done|]. cbn [all_chars].
  intros [Hc _]%andb_true_iff. apply lstrip_by_head. by apply Hpq.
Qed.

Lemma rstrip_by_none (p q : ascii -> bool) (s : string) :
  (forall c, q c = true -> p c = false) ->
  all_chars q s = true -> rstrip_by p s = s.
Proof.
  intros Hpq. induction s as [|c s IH]; [done|]. cbn [all_chars rstrip_by].
  intros [Hc Hs]%andb_true_iff. rewrite (IH Hs), (Hpq c Hc).
  by rewrite andb_false_r.
Qed.

Lemma decimal_not_space (c : ascii) :
  isdecimal_char c = true -> isspace_char c = false.
Proof.
  unfold isdecimal_char, isspace_char. generalize (ord c). intros n.
  rewrite andb_true_iff, !N.leb_le. intros [H1 H2].
  repeat (apply orb_false_iff; split);
    try (apply andb_false_iff; rewrite !N.leb_gt; lia);
    apply N.eqb_neq; lia.
Qed.

Lemma decimal_not_period (c : ascii) :
  isdecimal_char c = true -> Ascii.eqb "." c = false.
Proof.
  intros H. apply Ascii.eqb_neq. intros <-. vm_compute in H. discriminate H.
Qed.

(** Decimal text has nothing to trim. *)
Lemma trim_decimal (s : string) :
  all_chars isdecimal_char s = true -> rstrip_char "." (strip s) = s.
Proof.
  intros H. unfold rstrip_char, strip.
  rewrite (rstrip_by_none _ _ s decimal_not_space H).
  rewrite (lstrip_by_none _ _ s decimal_not_space H).
  apply (rstrip_by_none _ _ s decimal_not_period H).
Qed.

(** [int(str(n))] *)
Lemma int_of_str (n : N) : int_of_digits (str_of_N n) = Some n.
Proof.
  unfold int_of_digits, str_of_N. rewrite NilZero.usu.
  - cbn. by rewrite DecimalN.Unsigned.of_to.
  - destruct n as [|p]; [done|]. cbn. apply DecimalPos.Unsigned.to_uint_nonnil.
Qed.

Lemma str_of_N_inj (n m : N) : str_of_N n = str_of_N m -> n = m.
Proof.
  intros H. pose proof (int_of_str n) as Hn. rewrite H, int_of_str in Hn.
  congruence.
Qed.

Lemma str_of_N_decimal (n : N) : isdecimal (str_of_N n) = true.
Proof. apply int_of_digits_is_Some. rewrite int_of_str. by eexists. Qed.

(** What is left after [rstrip] ends in a character that stays. *)
Lemma rstrip_by_idemp (p : ascii -> bool) (s : string) :
  rstrip_by p (rstrip_by p s) = rstrip_by p s.
Proof.
  induction s as [|c s IH]; [done|]. cbn [rstrip_by].
  destruct (is_empty (rstrip_by p s) && p c) eqn:E; [done|].
  cbn [rstrip_by]. by rewrite IH, E.
Qed.

Lemma lstrip_by_idemp (p : ascii -> bool) (s : string) :
  lstrip_by p (lstrip_by p s) = lstrip_by p s.
Proof.
  induction s as [|c s IH]; [done|]. cbn [lstrip_by].
  destruct (p c) eqn:E; [done|]. cbn [lstrip_by]. by rewrite E.
Qed.

(** [rstrip] keeps the first character of what it leaves. *)
Lemma lstrip_rstrip_comm (p q : ascii -> bool) (s : string) :
  lstrip_by p s = s -> lstrip_by p (rstrip_by q s) = rstrip_by q s.
Proof.
  destruct s as [|c s]; [done|]. cbn [lstrip_by rstrip_by].
  destruct (p c) eqn:E.
  - intros H. exfalso.
    assert (forall t, String.length (lstrip_by p t) <= String.length t)%nat
      as Hlen.
    { induction t as [|d t IHt]; [done|]. cbn [lstrip_by].
      destruct (p d); cbn [String.length]; lia. }
    pose proof (Hlen s) as Hs. rewrite H in Hs. cbn [String.length] in Hs. lia.
  - intros _. destruct (is_empty (rstrip_by q s) && q c); [done|].
    cbn [lstrip_by]. by rewrite E.
Qed.

End TextFacts.

(* ===================================================================== *)
(** * Further properties: the key normalizer *)
(* ===================================================================== *)

Section NormalizerMore.
Import PyStr Extract.

(** A raw number whose trimmed part is a numeral is keyed by the value of
    the numeral. *)
Lemma normalize_numeral (raw : string) :
  isdecimal (rstrip_char "." (strip raw)) = true ->
  exists n, int_of_digits (rstrip_char "." (strip raw)) = Some n
            ∧ normalize_agenda_number raw = Some (str_of_N n).
Proof.
  intros Hdec.
  destruct (proj2 (int_of_digits_is_Some _) Hdec) as [n Hn].
  exists n. split; [done|]. unfold normalize_agenda_number.
  destruct raw as [|c raw]; [discriminate Hdec|]. cbn [is_empty].
  rewrite (isdecimal_isdigit _ Hdec), Hn. done.
Qed.

(** X1.  Two raw agenda numbers whose trimmed parts are numerals get the same
    key exactly when the numerals have the same value: leading zeros,
    surrounding whitespace and trailing periods make no difference, and
    nothing else is identified. *)
Theorem numerals_match_by_value (raw1 raw2 : string) :
  isdecimal (rstrip_char "." (strip raw1)) = true ->
  isdecimal (rstrip_char "." (strip raw2)) = true ->
  is_Some (normalize_agenda_number raw1)
  ∧ (normalize_agenda_number raw1 = normalize_agenda_number raw2
     <-> int_of_digits (rstrip_char "." (strip raw1))
         = int_of_digits (rstrip_char "." (strip raw2))).
Proof.
  intros H1 H2.
  destruct (normalize_numeral raw1 H1) as (n1 & Hn1 & ->).
  destruct (normalize_numeral raw2 H2) as (n2 & Hn2 & ->).
  rewrite Hn1, Hn2. split; [by eexists|]. split.
  - intros [= H]. by apply str_of_N_inj in H as ->.
  - by intros [= ->].
Qed.

Lemma numerals_match_by_value_witness :
  normalize_agenda_number " 062. " = normalize_agenda_number "62"
  ∧ normalize_agenda_number "62" ≠ normalize_agenda_number "63".
Proof.
  split.
  - apply (numerals_match_by_value " 062. " "62"); reflexivity.
  - intros H.
    apply (proj2 (numerals_match_by_value "62" "63" eq_refl eq_refl)) in H.
    vm_compute in H. discriminate H.
Defined.

(** X2.  A key never ends in a period and never starts with whitespace; and a
    key that does not end in whitespace either is kept as it is when it is
    normalized again. *)
Theorem normalize_agenda_number_normal_form (raw r : string) :
  normalize_agenda_number raw = Some r ->
  rstrip_char "." r = r
  ∧ lstrip_by isspace_char r = r
  ∧ (rstrip_by isspace_char r = r -> normalize_agenda_number r = Some r).
Proof.
  unfold normalize_agenda_number at 1.
  destruct (is_empty raw) eqn:Hraw; [by intros [= <-]|].
  destruct (isdigit (rstrip_char "." (strip raw))) eqn:Hdig.
  - destruct (int_of_digits _) as [n|]; cbn [mbind option_bind]; [|done].
    intros [= <-]. pose proof (str_of_N_decimal n) as Hdec.
    apply andb_true_iff in Hdec as Hparts. destruct Hparts as [Hne Hall].
    split; [|split].
    + apply (rstrip_by_none _ _ _ decimal_not_period Hall).
    + apply (lstrip_by_none _ _ _ decimal_not_space Hall).
    + intros _. unfold normalize_agenda_number.
      destruct (is_empty (str_of_N n)); [discriminate Hne|].
      rewrite (trim_decimal _ Hall), (isdecimal_isdigit _ Hdec), int_of_str.
      done.
  - intros [= <-]. split; [|split].
    + apply rstrip_by_idemp.
    + apply lstrip_rstrip_comm. unfold strip. apply lstrip_by_idemp.
    + intros Hws.
      assert (rstrip_char "." (strip (rstrip_char "." (strip raw)))
              = rstrip_char "." (strip raw)) as Hfix.
      { unfold strip at 1. rewrite Hws.
        unfold rstrip_char.
        rewrite (lstrip_rstrip_comm isspace_char (Ascii.eqb ".") (strip raw));
          [apply rstrip_by_idemp|].
        unfold strip. apply lstrip_by_idemp. }
      unfold normalize_agenda_number.
      destruct (is_empty (rstrip_char "." (strip raw))) eqn:He.
      * by apply is_empty_true in He as ->.
      * by rewrite Hfix, Hdig.
Qed.

Lemma normalize_agenda_number_normal_form_witness :
  normalize_agenda_number " 12A.. " = Some "12A"
  ∧ normalize_agenda_number "12A" = Some "12A".
Proof.
  split; [reflexivity|].
  apply (normalize_agenda_number_normal_form " 12A.. " "12A" eq_refl).
  reflexivity.
Defined.

End NormalizerMore.

(* ===================================================================== *)
(** * Further properties: the passed flag and the outcome *)
(* ===================================================================== *)

Section FlagAndOutcome.
Import PyStr Extract BuildSite Output.

Lemma string_app_cons (c : ascii) (a b : string) :
  String c a +:+ b = String c (a +:+ b).
Proof. reflexivity. Qed.

Lemma string_app_assoc (a b c : string) : (a +:+ b) +:+ c = a +:+ (b +:+ c).
Proof.
  induction a as [|x a IH]; [done|]. by rewrite !string_app_cons, IH.
Qed.

Lemma upper_app (a b : string) : upper (a +:+ b) = upper a +:+ upper b.
Proof.
  induction a as [|c a IH]; [done|]. rewrite string_app_cons.
  cbn [upper]. by rewrite IH, string_app_assoc.
Qed.

Lemma lstrip_by_split (p : ascii -> bool) (s : string) :
  exists l, s = l +:+ lstrip_by p s.
Proof.
  induction s as [|c s [l IH]]; [by exists ""|]. cbn [lstrip_by].
  destruct (p c).
  - exists (String c l). by rewrite string_app_cons, <- IH.
  - by exists "".
Qed.

Lemma rstrip_by_split (p : ascii -> bool) (s : string) :
  exists r, s = rstrip_by p s +:+ r.
Proof.
  induction s as [|c s [r IH]]; [by exists ""|]. cbn [rstrip_by].
  destruct (is_empty (rstrip_by p s) && p c) eqn:E.
  - by exists (String c s).
  - exists r. by rewrite string_app_cons, <- IH.
Qed.

Lemma prefix_app_r (kw s t : string) :
  String.prefix kw s = true -> String.prefix kw (s +:+ t) = true.
Proof.
  revert s. induction kw as [|k kw IH]; intros s.
  { intros _. by destruct (s +:+ t). }
  destruct s as [|c s]; [by cbn|]. rewrite string_app_cons.
  cbn [String.prefix]. destruct (ascii_dec k c); [apply IH|done].
Qed.

Lemma contains_app_r (kw s t : string) :
  contains kw s = true -> contains kw (s +:+ t) = true.
Proof.
  induction s as [|c s IH].
  - cbn [contains]. rewrite orb_false_r. intros H. destruct kw; [|done].
    by destruct t.
  - rewrite string_app_cons. cbn [contains].
    intros [H|H]%orb_true_iff; apply orb_true_iff.
    + left. by apply (prefix_app_r kw (String c s) t).
    + right. by apply IH.
Qed.

Lemma contains_app_l (kw s t : string) :
  contains kw t = true -> contains kw (s +:+ t) = true.
Proof.
  intros H. induction s as [|c s IH]; [done|]. rewrite string_app_cons.
  cbn [contains]. rewrite IH. apply orb_true_r.
Qed.

(** A keyword found in the trimmed text is in the text. *)
Lemma contains_upper_strip (kw s : string) :
  contains kw (upper (strip s)) = true -> contains kw (upper s) = true.
Proof.
  intros H. unfold strip in H.
  destruct (rstrip_by_split isspace_char s) as [r Hr].
  destruct (lstrip_by_split isspace_char (rstrip_by isspace_char s)) as [l Hl].
  rewrite Hr, Hl, !upper_app.
  by apply contains_app_r, contains_app_l.
Qed.

Lemma existsb_contains_upper_strip (kws : list string) (s : string) :
  existsb (fun kw => contains kw (upper (strip s))) kws = true ->
  existsb (fun kw => contains kw (upper s)) kws = true.
Proof.
  rewrite !existsb_exists. intros (kw & Hin & H). exists kw.
  split; [done|]. by apply contains_upper_strip.
Qed.

(** The flag is 1, 0 or absent. *)
Lemma derive_passed_range (final_action : string) :
  derive_passed final_action ∈ [Some 1; Some 0; None].
Proof.
  unfold derive_passed.
  repeat (match goal with |- context [if ?b then _ else _] => destruct b end);
    repeat constructor.
Qed.

(** X3.  The outcome that the site builder derives for an item agrees with the
    flag the extractor derived from the same final action and wrote to the
    passed column: PASS where the flag is 1; FAIL, CONTINUED or WITHDRAWN
    where it is 0; and never FAIL where the extractor left the flag
    empty. *)
Theorem outcome_agrees_with_passed_flag (final_action : string)
    (matter_status : option string) :
  let outcome :=
    derive_outcome
      (PyStr (cell_text (passed_value (derive_passed final_action))))
      (Some final_action) matter_status in
  derive_passed final_action ∈ [Some 1; Some 0; None]
  ∧ (derive_passed final_action = Some 1 -> outcome = PASS)
  ∧ (derive_passed final_action = Some 0 ->
     outcome ∈ [FAIL; CONTINUED; WITHDRAWN])
  ∧ (derive_passed final_action = None -> outcome ≠ FAIL).
Proof.
  cbv zeta. split; [apply derive_passed_range|]. split; [|split].
  - intros ->. reflexivity.
  - intros ->. unfold derive_outcome.
    change (strip (Py.str (PyStr (cell_text (passed_value (Some 0))))))
      with "0".
    cbn [String.eqb Ascii.eqb Bool.eqb].
    repeat (match goal with |- context [if ?b then _ else _] => destruct b end);
      repeat constructor.
  - intros Hnone. rewrite Hnone, derive_outcome_amended.
    cbn [passed_value cell_text row_value Py.str Documented.flag_of].
    change (Documented.flag_of (PyStr "")) with (@None bool).
    cbn [Documented.classify_amended]. unfold Documented.outcome_from_text.
    unfold Documented.text_of, or_empty, default, Documented.any_in.
    intros Hfail.
    assert (existsb
              (fun kw => contains kw (upper (strip final_action)))
              ["DENIED"; "REJECTED"; "DEFEATED"; "FAILED"] = true) as Hden.
    { repeat (match type of Hfail with
              | context [if ?b then _ else _] =>
                  let E := fresh "E" in destruct b eqn:E
              end; try discriminate Hfail); done. }
    apply existsb_contains_upper_strip in Hden.
    unfold derive_passed in Hnone.
    destruct (is_empty final_action) eqn:He.
    { apply is_empty_true in He as ->. vm_compute in Hden. discriminate Hden. }
    destruct (existsb _ APPROVAL_KEYWORDS); [discriminate Hnone|].
    assert (existsb (fun keyword => contains keyword (upper final_action))
              DENIAL_KEYWORDS = true) as Hden'.
    { rewrite existsb_exists in Hden |- *.
      destruct Hden as (kw & Hin & H). exists kw. split; [|done].
      unfold DENIAL_KEYWORDS. cbn in Hin |- *. tauto. }
    rewrite Hden' in Hnone. discriminate Hnone.
Qed.

End FlagAndOutcome.

(* ===================================================================== *)
(** * Further properties: the correlator *)
(* ===================================================================== *)

Section VotesKept.
Import PyStr Extract Correlation.

Lemma existsb_last {X} (f : X -> bool) (l : list X) :
  existsb f l = true ->
  exists j x, l !! j = Some x ∧ f x = true
              ∧ existsb f (drop (S j) l) = false.
Proof.
  induction l as [|x l IH]; [done|]. cbn [existsb].
  destruct (existsb f l) eqn:El.
  - intros _. destruct (IH eq_refl) as (j & y & Hj & Hy & Hlast).
    by exists (S j), y.
  - rewrite orb_false_r. intros Hx. by exists 0%nat, x.
Qed.

Lemma last_vote_is_Some (name : string) (rs : list SocrataRecord)
    (r : SocrataRecord) :
  r ∈ rs -> voter_name r = name -> is_Some (last_vote name rs).
Proof.
  intros Hin Hname. unfold last_vote.
  assert (r ∈ List.filter (fun r => String.eqb (voter_name r) name) rs) as Hr.
  { apply list_elem_of_In, List.filter_In. split; [by apply list_elem_of_In|].
    by apply String.eqb_eq. }
  destruct (last_is_Some (List.filter (fun r => String.eqb (voter_name r) name) rs))
    as [_ Hlast].
  destruct Hlast as [x ->]; [|by eexists].
  intros E. rewrite E in Hr. by apply elem_of_nil in Hr.
Qed.

Lemma merge_keeps_event_date item (rs : list SocrataRecord) :
  event_date (merge_socrata_into_item item rs) = event_date item.
Proof. by destruct rs. Qed.

(** X4.  No recorded vote is lost: on inputs on which the key normalizer
    returns, every source-B record with a voter name is found in the output,
    on an item of the record's date whose vote mapping is the one built from
    the record's group and has an entry for the voter. *)
Theorem phase3_correlate_keeps_votes order self A B (r : SocrataRecord) :
  normalizable A B -> r ∈ B -> voter_name r ≠ "" ->
  exists out k item,
    phase3_correlate order self A B = Some out
    ∧ socrata_key r = Some k
    ∧ item ∈ out
    ∧ event_date item = k.1
    ∧ item_votes item = build_votes (group_of B k)
    ∧ item_votes item !! voter_name r = last_vote (voter_name r) (group_of B k)
    ∧ is_Some (item_votes item !! voter_name r).
Proof.
  intros Hnorm Hin Hname.
  destruct (phase3_correlate_shape order self A B Hnorm)
    as (out & ks & new_items & Hout & Hperm & _ & _ & Hks & Hsynth).
  destruct Hnorm as [_ HB]. rewrite Forall_forall in HB.
  destruct (HB r Hin) as [num Hnum].
  assert (socrata_key r = Some (slice_to 10 (date r), num)) as Hkey.
  { unfold socrata_key. by rewrite Hnum. }
  set (k := (slice_to 10 (date r), num)) in *.
  assert (r ∈ group_of B k) as Hgroup.
  { apply list_elem_of_In, List.filter_In. split; [by apply list_elem_of_In|].
    by apply bool_decide_eq_true. }
  assert (group_of B k ≠ []) as Hne.
  { intros E. rewrite E in Hgroup. by apply elem_of_nil in Hgroup. }
  assert (is_empty (voter_name r) = false) as Hempty.
  { destruct (voter_name r); [done|reflexivity]. }
  assert (forall item,
            item ∈ out -> event_date item = k.1 ->
            item_votes item = build_votes (group_of B k) ->
            exists out k item,
              phase3_correlate order self A B = Some out
              ∧ socrata_key r = Some k
              ∧ item ∈ out
              ∧ event_date item = k.1
              ∧ item_votes item = build_votes (group_of B k)
              ∧ item_votes item !! voter_name r
                = last_vote (voter_name r) (group_of B k)
              ∧ is_Some (item_votes item !! voter_name r)) as Hfound.
  { intros item Hitem Hdate Hvotes. exists out, k, item.
    repeat (split; [done|]).
    rewrite Hvotes, build_votes_lookup, Hempty.
    split; [done|]. by apply (last_vote_is_Some _ _ r). }
  destruct (existsb (has_key k) A) eqn:Hex.
  - destruct (existsb_last _ _ Hex) as (j & item0 & Hj & Hhas & Hlast).
    apply has_key_true in Hhas.
    assert (indexed_key A j item0 = Some k) as Hidx
      by (by apply indexed_key_Some).
    apply (Hfound (merge_socrata_into_item item0 (group_of B k))).
    + rewrite Hperm. apply elem_of_app. left.
      apply list_elem_of_lookup. exists j.
      rewrite list_lookup_imap, Hj. cbn. unfold merged_item. by rewrite Hidx.
    + rewrite merge_keeps_event_date. unfold legistar_key in Hhas.
      destruct (normalize_agenda_number (agenda_number item0)) as [n|];
        [|done].
      destruct (is_empty n); [done|]. apply (inj Some) in Hhas.
      by rewrite <- Hhas.
    + by apply merge_item_votes.
  - assert (k ∈ ks) as Hk.
    { apply Hks. split; [done|]. by apply existsb_has_key_false. }
    apply list_elem_of_lookup in Hk as [i Hi].
    destruct (Forall2_lookup_l _ _ _ _ _ Hsynth Hi) as (item & Hitem & Hs).
    destruct Hs as (sample & rest & Hg & ->).
    apply (Hfound (merge_socrata_into_item (item_data self k sample)
                     (sample :: rest))).
    + rewrite Hperm. apply elem_of_app. right.
      by apply list_elem_of_lookup_2 in Hitem.
    + done.
    + cbn [merge_socrata_into_item item_votes]. by rewrite Hg.
Qed.

Lemma phase3_correlate_keeps_votes_witness :
  exists out item,
    phase3_correlate insertion_order Samples.workflow
      Samples.legistar_items Samples.socrata_records = Some out
    ∧ item ∈ out
    ∧ is_Some (item_votes item !! "Cara Mendelsohn").
Proof.
  destruct (phase3_correlate_keeps_votes insertion_order Samples.workflow
              Samples.legistar_items Samples.socrata_records
              (Samples.socrata_row "2025-10-15T00:00:00" "12"
                 "Cara Mendelsohn" "NO"))
    as (out & k & item & Hout & _ & Hin & _ & _ & _ & Hsome).
  - exact sample_normalizable.
  - right. left.
  - discriminate.
  - exists out, item. split; [exact Hout|]. split; [exact Hin|exact Hsome].
Defined.

End VotesKept.

(* ===================================================================== *)
(** * Further properties: the meeting loader *)
(* ===================================================================== *)

Section LoaderSteps.
Import PyStr BuildSite Aggregates Bookkeeping.

Lemma foldM_app {X S} (f : S -> X -> option S) (s : S) (l1 l2 : list X) :
  Py.foldM f s (l1 ++ l2) = s' ← Py.foldM f s l1; Py.foldM f s' l2.
Proof.
  revert s. induction l1 as [|x l1 IH]; intros s; cbn [Py.foldM app]; [done|].
  destruct (f s x) as [s1|]; cbn [mbind option_bind]; [apply IH|done].
Qed.

Lemma foldM_fixed {X S} (f : S -> X -> option S) (s : S) (l : list X) :
  (forall x, x ∈ l -> f s x = Some s) -> Py.foldM f s l = Some s.
Proof.
  induction l as [|x l IH]; intros H; cbn [Py.foldM]; [done|].
  rewrite (H x) by left. cbn [mbind option_bind].
  apply IH. intros y Hy. apply H. by right.
Qed.

Lemma meetings_set_new (key : MeetingKey) (m : Meeting)
    (d : list (MeetingKey * Meeting)) :
  meetings_get key d = None -> meetings_set key m d = d ++ [(key, m)].
Proof.
  induction d as [|[k0 m0] d IH]; cbn [meetings_get meetings_set app]; [done|].
  destruct (decide (k0 = key)); [done|]. intros H. by rewrite IH.
Qed.

Lemma meetings_get_None (key : MeetingKey) (d : list (MeetingKey * Meeting)) :
  meetings_get key d = None <-> key ∉ d.*1.
Proof.
  induction d as [|[k0 m0] d IH]; cbn [meetings_get fmap list_fmap fst].
  - split; [|done]. intros _ H. by apply elem_of_nil in H.
  - rewrite not_elem_of_cons. destruct (decide (k0 = key)) as [->|Hne].
    + split; [done|]. by intros [? _].
    + rewrite IH. split; [|tauto]. intros H. split; [congruence|done].
Qed.

Lemma meetings_set_keys (key : MeetingKey) (m m0 : Meeting)
    (d : list (MeetingKey * Meeting)) :
  meetings_get key d = Some m0 -> (meetings_set key m d).*1 = d.*1.
Proof.
  induction d as [|[k1 m1] d IH]; cbn [meetings_get meetings_set]; [done|].
  destruct (decide (k1 = key)) as [->|Hne]; [done|].
  intros H. cbn [fmap list_fmap fst]. f_equal. by apply IH.
Qed.

(** Replacing a meeting by one with the same value under a projection
    leaves the projections of the whole dict as they were. *)
Lemma meetings_set_same {V} (g : Meeting -> V) (key : MeetingKey)
    (m m0 : Meeting) (d : list (MeetingKey * Meeting)) :
  meetings_get key d = Some m0 -> g m = g m0 ->
  g <$> (meetings_set key m d).*2 = g <$> d.*2.
Proof.
  intros Hget Hg.
  induction d as [|[k1 m1] d IH]; cbn [meetings_get meetings_set] in *;
    [done|].
  destruct (decide (k1 = key)) as [->|Hne].
  - injection Hget as ->. cbn [fmap list_fmap snd]. by rewrite Hg.
  - cbn [fmap list_fmap snd]. f_equal. by apply IH.
Qed.

Lemma meetings_get_NoDup (k : MeetingKey) (m : Meeting)
    (d : list (MeetingKey * Meeting)) :
  NoDup d.*1 -> (k, m) ∈ d -> meetings_get k d = Some m.
Proof.
  induction d as [|[k0 m0] d IH]; cbn [meetings_get fmap list_fmap fst].
  - intros _ H. by apply elem_of_nil in H.
  - intros [Hk0 Hd]%NoDup_cons [[= -> ->]|Hin]%elem_of_cons.
    + by rewrite decide_True.
    + destruct (decide (k0 = k)) as [->|Hne]; [|by apply IH].
      exfalso. apply Hk0. apply list_elem_of_fmap. by exists (k, m).
Qed.

Lemma elem_of_meetings_set (key : MeetingKey) (m : Meeting)
    (d : list (MeetingKey * Meeting)) :
  (key, m) ∈ meetings_set key m d.
Proof.
  induction d as [|[k0 m0] d IH]; cbn [meetings_set]; [by left|].
  destruct (decide (k0 = key)) as [->|Hne]; [by left|by right].
Qed.

Lemma elem_of_meetings_set_other (key k : MeetingKey) (m x : Meeting)
    (d : list (MeetingKey * Meeting)) :
  k ≠ key -> (k, x) ∈ d -> (k, x) ∈ meetings_set key m d.
Proof.
  intros Hne. induction d as [|[k0 m0] d IH]; cbn [meetings_set].
  { by intros ?%elem_of_nil. }
  intros [[= <- <-]|Hin]%elem_of_cons.
  - rewrite decide_False by done. by left.
  - destruct (decide (k0 = key)); right; [done|by apply IH].
Qed.

(** What one row does to the loader's state.  A row that is passed over
    leaves the state as it is.  Any other row adds one entry to the agenda
    of its meeting, which is created when the row is the first of its
    meeting, and marks its key as seen; a row with at least one recognised
    vote of a roster member adds a vote record with the next id, whose
    tallies are those of the entry. *)
Lemma process_row_cases (members : list (string * Member))
    (member_cols : list string) (st st' : LoadState)
    (row : gmap string string) :
  process_row members member_cols st row = Some st' ->
  (st' = st ∧ settled st row)
  ∨ exists meeting updated entry,
      let key := (strip (cell row "event_id"),
                  strip (cell row "event_date")) in
      ¬ settled st row
      ∧ (meetings_get key (meetings_by_key st) = Some meeting
         ∧ ls_meeting_id_counter st' = ls_meeting_id_counter st
         ∨ meetings_get key (meetings_by_key st) = None
           ∧ ls_meeting_id_counter st' = ls_meeting_id_counter st + 1
           ∧ meeting = new_meeting (ls_meeting_id_counter st + 1)
                         key.1 key.2 row)
      ∧ meetings_by_key st' = meetings_set key updated (meetings_by_key st)
      ∧ id updated = id meeting
      ∧ event_id updated = event_id meeting
      ∧ meeting_date updated = meeting_date meeting
      ∧ agenda_items updated = agenda_items meeting ++ [entry]
      ∧ seen_items st' = {[item_key row]} ∪ seen_items st
      ∧ ((exists v,
            ls_votes st' = ls_votes st ++ [v]
            ∧ ls_vote_id_counter st' = ls_vote_id_counter st + 1
            ∧ v_id v = ls_vote_id_counter st + 1
            ∧ member_votes v = collect_member_votes members member_cols row
            ∧ member_votes v ≠ ∅
            ∧ ayes v = tally AYE (member_votes v)
            ∧ noes v = tally NAY (member_votes v)
            ∧ abstain v = tally ABSTAIN (member_votes v)
            ∧ absent v = tally ABSENT (member_votes v)
            ∧ meeting_id v = id meeting
            ∧ v_meeting_date v = key.2
            ∧ item_type entry = voted
            ∧ ai_vote entry = Some (summary_of v)
            ∧ ai_title entry = title v)
         ∨ (ls_votes st' = ls_votes st
            ∧ ls_vote_id_counter st' = ls_vote_id_counter st
            ∧ item_type entry = non_voted
            ∧ ai_vote entry = None)).
Proof.
  unfold process_row. cbv zeta.
  destruct (is_empty (strip (cell row "event_date"))) eqn:Hdate.
  { intros [= <-]. left. split; [done|]. by left. }
  destruct (is_empty (strip (cell row "title"))) eqn:Htitle.
  { intros [= <-]. left. split; [done|]. right. by left. }
  destruct (bool_decide _) eqn:Hseen.
  { intros [= <-]. left. split; [done|]. right. right.
    by apply bool_decide_eq_true in Hseen. }
  apply bool_decide_eq_false in Hseen.
  assert (¬ settled st row) as Hfresh.
  { intros [H|[H|H]]; [congruence|congruence|]. by apply Hseen. }
  set (key := (strip (cell row "event_id"), strip (cell row "event_date"))).
  destruct (meetings_get key (meetings_by_key st)) as [m|] eqn:Hget.
  - destruct (item_sequence _ _) as [n|]; cbn [mbind option_bind]; [|done].
    destruct (negb _) eqn:Hvotes.
    + intros [= <-]. right. eexists m, _, _. cbn.
      split; [done|]. split; [by left|]. do 6 (split; [done|]).
      left. eexists. cbn. do 4 (split; [done|]).
      split; [|by repeat split].
      apply negb_true_iff in Hvotes. by apply bool_decide_eq_false in Hvotes.
    + destruct (classify_non_voted_item _ _ _ _) as [[c imp] disp].
      intros [= <-]. right. eexists m, _, _. cbn.
      split; [done|]. split; [by left|]. do 6 (split; [done|]).
      by right.
  - destruct (item_sequence _ _) as [n|]; cbn [mbind option_bind]; [|done].
    destruct (negb _) eqn:Hvotes.
    + intros [= <-]. right. eexists _, _, _. cbn.
      split; [done|]. split; [by right|]. do 6 (split; [done|]).
      left. eexists. cbn. do 4 (split; [done|]).
      split; [|by repeat split].
      apply negb_true_iff in Hvotes. by apply bool_decide_eq_false in Hvotes.
    + destruct (classify_non_voted_item _ _ _ _) as [[c imp] disp].
      intros [= <-]. right. eexists _, _, _. cbn.
      split; [done|]. split; [by right|]. do 6 (split; [done|]).
      by right.
Qed.

(** A property that every row keeps holds after all files. *)
Lemma load_preserves (Inv : LoadState -> Prop)
    (members : list (string * Member)) (votes_files : list VotesFile)
    (st st' : LoadState) :
  (forall member_cols s row s',
     process_row members member_cols s row = Some s' -> Inv s -> Inv s') ->
  Py.foldM (process_file members) st votes_files = Some st' ->
  Inv st -> Inv st'.
Proof.
  intros Hstep. apply foldM_preserves.
  intros s f s' Hfile. unfold process_file in Hfile.
  revert Hfile. apply foldM_preserves. apply Hstep.
Qed.

(** The builder after a load, in terms of the loader's last state. *)
Lemma load_result (self self' : Builder) (votes_files : list VotesFile) :
  _load_all_csv_data self votes_files = Some self' ->
  exists st,
    Py.foldM (process_file (members self)) (initial_state self) votes_files
    = Some st
    ∧ meetings self'
      = Py.sorted_reverse meeting_date_leb
          ((fun km => sort_agenda km.2) <$> meetings_by_key st)
    ∧ votes self' = Py.sorted_reverse vote_leb (ls_votes st)
    ∧ vote_id_counter self' = ls_vote_id_counter st
    ∧ meeting_id_counter self' = ls_meeting_id_counter st
    ∧ members self' = members self.
Proof.
  unfold _load_all_csv_data. fold (initial_state self).
  destruct (Py.foldM _ _ votes_files) as [st|]; cbn [mbind option_bind];
    [|done].
  intros [= <-]. by exists st.
Qed.

End LoaderSteps.

Section LoaderInvariants.
Import PyStr BuildSite Aggregates Bookkeeping.

Lemma process_row_settled (members : list (string * Member))
    (member_cols : list string) (st : LoadState) (row : gmap string string) :
  settled st row -> process_row members member_cols st row = Some st.
Proof.
  unfold settled, item_key, process_row. cbv zeta.
  destruct (is_empty (strip (cell row "event_date"))); [done|].
  destruct (is_empty (strip (cell row "title"))); [done|].
  intros [H|[H|H]]; [done|done|]. by rewrite bool_decide_eq_true_2.
Qed.

Lemma settled_mono (st st' : LoadState) (row : gmap string string) :
  seen_items st ⊆ seen_items st' -> settled st row -> settled st' row.
Proof.
  unfold settled. intros Hsub [H|[H|H]]; [tauto|tauto|].
  right. right. by apply Hsub.
Qed.

Lemma process_row_settles (members : list (string * Member))
    (member_cols : list string) (st st' : LoadState)
    (row : gmap string string) :
  process_row members member_cols st row = Some st' ->
  seen_items st ⊆ seen_items st' ∧ settled st' row.
Proof.
  intros H. destruct (process_row_cases _ _ _ _ _ H)
    as [[-> Hs]|(m & u & e & _ & _ & _ & _ & _ & _ & _ & Hseen & _)].
  - done.
  - rewrite Hseen. split; [apply union_subseteq_r|]. right. right.
    rewrite Hseen. apply elem_of_union. left. by apply elem_of_singleton.
Qed.

Lemma rows_settled (members : list (string * Member))
    (member_cols : list string) (rows : list (gmap string string))
    (st st' : LoadState) :
  Py.foldM (process_row members member_cols) st rows = Some st' ->
  seen_items st ⊆ seen_items st'
  ∧ forall row, row ∈ rows -> settled st' row.
Proof.
  revert st. induction rows as [|x rows IH]; intros st; cbn [Py.foldM].
  - intros [= ->]. split; [done|]. by intros row ?%elem_of_nil.
  - destruct (process_row members member_cols st x) as [s1|] eqn:E;
      cbn [mbind option_bind]; [|done].
    intros Hrun. destruct (IH s1 Hrun) as [Hsub Hrows].
    destruct (process_row_settles _ _ _ _ _ E) as [Hsub1 Hx].
    split; [by transitivity (seen_items s1)|].
    intros row [->|Hin]%elem_of_cons; [|by apply Hrows].
    by apply (settled_mono s1).
Qed.

Lemma files_settled (members : list (string * Member))
    (votes_files : list VotesFile) (st st' : LoadState) :
  Py.foldM (process_file members) st votes_files = Some st' ->
  seen_items st ⊆ seen_items st'
  ∧ forall f row, f ∈ votes_files -> row ∈ rows f -> settled st' row.
Proof.
  revert st. induction votes_files as [|f fs IH]; intros st; cbn [Py.foldM].
  - intros [= ->]. split; [done|]. by intros f row ?%elem_of_nil.
  - destruct (process_file members st f) as [s1|] eqn:E;
      cbn [mbind option_bind]; [|done].
    intros Hrun. destruct (IH s1 Hrun) as [Hsub Hrows].
    destruct (rows_settled _ _ _ _ _ E) as [Hsub1 Hf].
    split; [by transitivity (seen_items s1)|].
    intros g row [->|Hin]%elem_of_cons Hrow; [|by apply (Hrows g)].
    apply (settled_mono s1); [done|]. by apply Hf.
Qed.

(** X5.  A file that only repeats rows of the files loaded before it changes
    nothing: the loader produces the same meetings, votes and counters as
    without it. *)
Theorem repeated_rows_change_nothing (self : Builder)
    (votes_files : list VotesFile) (g : VotesFile) :
  (forall row, row ∈ rows g -> exists f, f ∈ votes_files ∧ row ∈ rows f) ->
  _load_all_csv_data self (votes_files ++ [g])
  = _load_all_csv_data self votes_files.
Proof.
  intros Hrep. unfold _load_all_csv_data. rewrite foldM_app.
  destruct (Py.foldM _ _ votes_files) as [st|] eqn:Hrun;
    cbn [mbind option_bind]; [|done].
  cbn [Py.foldM]. unfold process_file at 1.
  rewrite foldM_fixed; [done|].
  intros row Hrow. apply process_row_settled.
  destruct (Hrep row Hrow) as (f & Hf & Hin).
  destruct (files_settled _ _ _ _ Hrun) as [_ Hall]. by apply (Hall f).
Qed.

Lemma repeated_rows_change_nothing_witness :
  _load_all_csv_data (Samples.builder [])
    [Samples.votes_file; Samples.votes_file]
  = _load_all_csv_data (Samples.builder []) [Samples.votes_file].
Proof.
  apply (repeated_rows_change_nothing (Samples.builder [])
           [Samples.votes_file] Samples.votes_file).
  intros row Hrow. exists Samples.votes_file. split; [left|exact Hrow].
Defined.

(** ** Vote ids *)

Lemma ids_from_next (c0 counter : Z) (ids : list Z) :
  ids_from c0 counter ids -> ids_from c0 (counter + 1) (ids ++ [counter + 1]).
Proof.
  intros [Hle ->]. split; [lia|].
  replace (counter + 1 - c0) with ((counter - c0) + 1) by lia.
  rewrite seqZ_app by lia. f_equal.
  replace (c0 + 1 + (counter - c0)) with (counter + 1) by lia.
  reflexivity.
Qed.

Lemma ids_from_length (c0 counter : Z) (ids : list Z) :
  ids_from c0 counter ids -> counter = c0 + Z.of_nat (length ids).
Proof. intros [Hle ->]. rewrite length_seqZ. lia. Qed.

Lemma process_row_vote_ids (c0 : Z) (members : list (string * Member))
    (member_cols : list string) (st st' : LoadState)
    (row : gmap string string) :
  process_row members member_cols st row = Some st' ->
  ids_from c0 (ls_vote_id_counter st) (v_id <$> ls_votes st) ->
  ids_from c0 (ls_vote_id_counter st') (v_id <$> ls_votes st').
Proof.
  intros H Hinv. destruct (process_row_cases _ _ _ _ _ H)
    as [[-> _]|(m & u & e & _ & _ & _ & _ & _ & _ & _ & _ & Hv)]; [done|].
  destruct Hv as [(v & -> & -> & Hid & _)|(-> & -> & _)]; [|done].
  rewrite fmap_app. cbn [fmap list_fmap]. rewrite Hid.
  by apply ids_from_next.
Qed.

(** X6.  The votes of a builder that starts without any get consecutive ids:
    the ids of the loaded votes are the numbers after the builder's
    counter, each once, and the counter ends at the last of them. *)
Theorem vote_ids_are_consecutive (self self' : Builder)
    (votes_files : list VotesFile) :
  votes self = [] ->
  _load_all_csv_data self votes_files = Some self' ->
  v_id <$> votes self'
    ≡ₚ seqZ (vote_id_counter self + 1) (Z.of_nat (length (votes self')))
  ∧ NoDup (v_id <$> votes self')
  ∧ vote_id_counter self'
    = vote_id_counter self + Z.of_nat (length (votes self')).
Proof.
  intros Hnone Hload.
  destruct (load_result _ _ _ Hload) as (st & Hrun & _ & Hvotes & Hc & _).
  assert (ids_from (vote_id_counter self) (ls_vote_id_counter st)
            (v_id <$> ls_votes st)) as Hids.
  { apply (load_preserves
             (fun s => ids_from (vote_id_counter self) (ls_vote_id_counter s)
                         (v_id <$> ls_votes s)) _ _ _ _
             (fun cols s row s' =>
                process_row_vote_ids (vote_id_counter self) (members self)
                  cols s s' row) Hrun).
    cbn. rewrite Hnone. split; [lia|].
    replace (vote_id_counter self - vote_id_counter self) with 0 by lia.
    reflexivity. }
  assert (v_id <$> votes self' ≡ₚ v_id <$> ls_votes st) as Hperm.
  { rewrite Hvotes. unfold Py.sorted_reverse. by rewrite sorted_Permutation. }
  pose proof (ids_from_length _ _ _ Hids) as Hlen.
  assert (length (votes self') = length (ls_votes st)) as Hl.
  { rewrite Hvotes. apply length_sorted. }
  rewrite length_fmap in Hlen. destruct Hids as [Hle Hids].
  split; [|split].
  - rewrite Hperm, Hids.
    by replace (Z.of_nat (length (votes self')))
      with (ls_vote_id_counter st - vote_id_counter self) by lia.
  - rewrite Hperm, Hids. apply NoDup_seqZ.
  - lia.
Qed.

Lemma vote_ids_are_consecutive_witness :
  exists self',
    _load_all_csv_data (Samples.builder []) [Samples.votes_file] = Some self'
    ∧ NoDup (v_id <$> votes self').
Proof.
  destruct (_load_all_csv_data (Samples.builder []) [Samples.votes_file])
    as [self'|] eqn:Hload.
  - exists self'. split; [reflexivity|].
    exact (proj1 (proj2 (vote_ids_are_consecutive (Samples.builder []) self'
                           [Samples.votes_file] eq_refl Hload))).
  - vm_compute in Hload. discriminate Hload.
Defined.

End LoaderInvariants.

Section MeetingsOnFile.
Import PyStr BuildSite Aggregates Bookkeeping.

Lemma process_row_meetings (c0 : Z) (members : list (string * Member))
    (member_cols : list string) (st st' : LoadState)
    (row : gmap string string) :
  process_row members member_cols st row = Some st' ->
  meetings_filed c0 st -> meetings_filed c0 st'.
Proof.
  intros H (Hnodup & Hkeys & Hids).
  destruct (process_row_cases _ _ _ _ _ H)
    as [[-> _]|(m & u & e & _ & Hm & Hset & Hid & Heid & Hdate & _)];
    [done|].
  cbv zeta in Hm, Hset.
  set (key := (strip (cell row "event_id"), strip (cell row "event_date")))
    in *.
  assert (meeting_key u = meeting_key m) as Hkey.
  { unfold meeting_key. by rewrite Heid, Hdate. }
  unfold meetings_filed. rewrite Hset.
  destruct Hm as [[Hget ->]|(Hget & -> & ->)].
  - rewrite (meetings_set_keys key u m _ Hget).
    rewrite (meetings_set_same id key u m _ Hget Hid).
    split; [done|]. split; [|done].
    apply Forall_meetings_set; [done|]. cbn [fst snd]. rewrite Hkey.
    apply meetings_get_elem_of in Hget. rewrite Forall_forall in Hkeys.
    apply (Hkeys _ Hget).
  - rewrite (meetings_set_new key u _ Hget), !fmap_app. cbn [fmap list_fmap].
    split; [|split].
    + apply NoDup_app. split; [done|]. split; [|apply NoDup_singleton].
      intros k Hk ->%list_elem_of_singleton. by apply meetings_get_None in Hget.
    + apply Forall_app. split; [done|]. constructor; [|constructor].
      cbn [fst snd]. by rewrite Hkey.
    + cbn [snd]. rewrite Hid. cbn [new_meeting id].
      by apply ids_from_next.
Qed.

Lemma load_meetings_filed (self : Builder) (votes_files : list VotesFile)
    (st : LoadState) :
  Py.foldM (process_file (members self)) (initial_state self) votes_files
  = Some st ->
  meetings_filed (meeting_id_counter self) st.
Proof.
  intros Hrun.
  apply (load_preserves (meetings_filed (meeting_id_counter self)) _ _ _ _
           (fun cols s row s' =>
              process_row_meetings (meeting_id_counter self) (members self)
                cols s s' row) Hrun).
  split; [constructor|]. split; [constructor|]. cbn. split; [lia|].
  by replace (meeting_id_counter self - meeting_id_counter self) with 0 by lia.
Qed.

Lemma meeting_key_sort_agenda (m : Meeting) :
  meeting_key (sort_agenda m) = meeting_key m.
Proof. reflexivity. Qed.

(** The meetings handed over, against the meetings on file. *)
Lemma loaded_meetings (self self' : Builder) (votes_files : list VotesFile) :
  _load_all_csv_data self votes_files = Some self' ->
  exists st,
    Py.foldM (process_file (members self)) (initial_state self) votes_files
    = Some st
    ∧ meetings_filed (meeting_id_counter self) st
    ∧ meetings self' ≡ₚ (fun km => sort_agenda km.2) <$> meetings_by_key st
    ∧ id <$> meetings self' ≡ₚ id <$> (meetings_by_key st).*2
    ∧ meeting_key <$> meetings self' ≡ₚ (meetings_by_key st).*1
    ∧ meeting_id_counter self' = ls_meeting_id_counter st.
Proof.
  intros Hload.
  destruct (load_result _ _ _ Hload) as (st & Hrun & Hmeet & _ & _ & Hc & _).
  exists st. pose proof (load_meetings_filed _ _ _ Hrun) as Hfiled.
  assert (meetings self' ≡ₚ (fun km => sort_agenda km.2) <$> meetings_by_key st)
    as Hperm.
  { rewrite Hmeet. unfold Py.sorted_reverse. apply sorted_Permutation. }
  split; [done|]. split; [done|]. split; [done|]. split; [|split; [|done]].
  - rewrite Hperm, <- !list_fmap_compose. done.
  - rewrite Hperm, <- list_fmap_compose.
    destruct Hfiled as (_ & Hkeys & _).
    replace ((meeting_key ∘ (fun km => sort_agenda km.2)) <$> meetings_by_key st)
      with (meetings_by_key st).*1; [done|].
    apply Forall_fmap_ext_1.
    eapply Forall_impl; [exact Hkeys|]. intros [k m] Hk. exact Hk.
Qed.

(** X7.  Meetings get consecutive ids, and there is one meeting for each pair of
    event id and date: the ids of the loaded meetings are the numbers after
    the builder's counter, each once, the counter ends at the last of them,
    and no two meetings have the same event id and date. *)
Theorem meeting_ids_are_consecutive (self self' : Builder)
    (votes_files : list VotesFile) :
  _load_all_csv_data self votes_files = Some self' ->
  id <$> meetings self'
    ≡ₚ seqZ (meeting_id_counter self + 1)
         (Z.of_nat (length (meetings self')))
  ∧ NoDup (id <$> meetings self')
  ∧ NoDup (meeting_key <$> meetings self')
  ∧ meeting_id_counter self'
    = meeting_id_counter self + Z.of_nat (length (meetings self')).
Proof.
  intros Hload.
  destruct (loaded_meetings _ _ _ Hload)
    as (st & _ & (Hnodup & _ & Hids) & Hperm & Hpid & Hpkey & Hc).
  pose proof (ids_from_length _ _ _ Hids) as Hlen.
  assert (length (meetings self') = length (meetings_by_key st)) as Hl.
  { rewrite Hperm. apply length_fmap. }
  rewrite !length_fmap in Hlen. destruct Hids as [Hle Hids].
  split; [|split; [|split]].
  - rewrite Hpid, Hids.
    by replace (Z.of_nat (length (meetings self')))
      with (ls_meeting_id_counter st - meeting_id_counter self) by lia.
  - rewrite Hpid, Hids. apply NoDup_seqZ.
  - by rewrite Hpkey.
  - lia.
Qed.

Lemma meeting_ids_are_consecutive_witness :
  exists self',
    _load_all_csv_data (Samples.builder []) [Samples.votes_file] = Some self'
    ∧ NoDup (id <$> meetings self').
Proof.
  destruct (_load_all_csv_data (Samples.builder []) [Samples.votes_file])
    as [self'|] eqn:Hload.
  - exists self'. split; [reflexivity|].
    exact (proj1 (proj2 (meeting_ids_are_consecutive (Samples.builder [])
                           self' [Samples.votes_file] Hload))).
  - vm_compute in Hload. discriminate Hload.
Defined.

(** ** Votes and their meetings *)

Lemma listed_in_more (m u : Meeting) (e : AgendaItem) (v : Vote) :
  id u = id m -> meeting_date u = meeting_date m ->
  agenda_items u = agenda_items m ++ [e] ->
  listed_in m v -> listed_in u v.
Proof.
  intros Hid Hdate Hitems (H1 & H2 & x & Hx & Hrest).
  split; [congruence|]. split; [congruence|]. exists x.
  split; [|done]. rewrite Hitems. apply elem_of_app. by left.
Qed.

Lemma process_row_votes_listed (c0 : Z) (members : list (string * Member))
    (member_cols : list string) (st st' : LoadState)
    (row : gmap string string) :
  process_row members member_cols st row = Some st' ->
  meetings_filed c0 st -> votes_listed st -> votes_listed st'.
Proof.
  intros H (Hnodup & Hkeys & _) Hold.
  destruct (process_row_cases _ _ _ _ _ H)
    as [[-> _]|(m & u & e & _ & Hm & Hset & Hid & Heid & Hdate & Hitems
                & _ & Hv)]; [done|].
  cbv zeta in Hm, Hset, Hv.
  set (key := (strip (cell row "event_id"), strip (cell row "event_date")))
    in *.
  assert (meeting_date m = key.2) as Hmdate.
  { destruct Hm as [[Hget _]|(_ & _ & ->)]; [|done].
    apply meetings_get_elem_of in Hget. rewrite Forall_forall in Hkeys.
    pose proof (Hkeys _ Hget) as Hk. cbn [fst snd] in Hk. by rewrite Hk. }
  assert (Forall (fun v => exists km, km ∈ meetings_by_key st'
                                      ∧ listed_in km.2 v) (ls_votes st))
    as Hkept.
  { eapply Forall_impl; [exact Hold|]. intros v ([k m0] & Hin & Hlisted).
    rewrite Hset. destruct (decide (k = key)) as [->|Hne].
    - exists (key, u). split; [apply elem_of_meetings_set|]. cbn [snd] in *.
      pose proof (meetings_get_NoDup _ _ _ Hnodup Hin) as Hget.
      destruct Hm as [[Hget' _]|(Hget' & _)]; [|congruence].
      assert (m0 = m) as -> by congruence.
      by apply (listed_in_more m u e v).
    - exists (k, m0). split; [|done]. by apply elem_of_meetings_set_other. }
  unfold votes_listed.
  destruct Hv as [(v & -> & _ & _ & _ & _ & _ & _ & _ & _ & Hmid & Hvdate
                   & Htype & Hvote & Htitle)|(-> & _)]; [|done].
  apply Forall_app. split; [done|]. constructor; [|constructor].
  exists (key, u). split; [rewrite Hset; apply elem_of_meetings_set|].
  cbn [snd]. split; [congruence|]. split; [congruence|].
  exists e. split; [|done]. rewrite Hitems. apply elem_of_app. right. by left.
Qed.

Lemma NoDup_fmap_eq {X Y} (f : X -> Y) (l : list X) (x y : X) :
  NoDup (f <$> l) -> x ∈ l -> y ∈ l -> f x = f y -> x = y.
Proof.
  induction l as [|z l IH]; cbn [fmap list_fmap].
  - intros _ H. by apply elem_of_nil in H.
  - intros [Hz Hl]%NoDup_cons [->|Hx]%elem_of_cons [->|Hy]%elem_of_cons Hf.
    + done.
    + exfalso. apply Hz. rewrite Hf. by apply list_elem_of_fmap_2.
    + exfalso. apply Hz. rewrite <- Hf. by apply list_elem_of_fmap_2.
    + by apply IH.
Qed.

(** X8.  Every loaded vote belongs to exactly one loaded meeting: the meeting
    with the vote's meeting id, which has the vote's date and lists the
    vote on its agenda as a voted item with the vote's id, outcome, tallies
    and title. *)
Theorem votes_refer_to_meetings (self self' : Builder)
    (votes_files : list VotesFile) (v : Vote) :
  votes self = [] ->
  _load_all_csv_data self votes_files = Some self' ->
  v ∈ votes self' ->
  exists m, m ∈ meetings self' ∧ listed_in m v
            ∧ forall m', m' ∈ meetings self' -> id m' = meeting_id v -> m' = m.
Proof.
  intros Hnone Hload Hv.
  destruct (load_result _ _ _ Hload) as (st & Hrun & _ & Hvotes & _).
  destruct (loaded_meetings _ _ _ Hload)
    as (st' & Hrun' & Hfiled & Hperm & Hpid & _).
  assert (st' = st) as -> by congruence.
  assert (meetings_filed (meeting_id_counter self) st ∧ votes_listed st)
    as [_ Hlisted].
  { refine (load_preserves
              (fun s => meetings_filed (meeting_id_counter self) s
                        ∧ votes_listed s) _ _ _ _ _ Hrun _).
    - intros cols s row s' Hrow [H1 H2]. split.
      + by apply (process_row_meetings _ _ _ _ _ _ Hrow).
      + by apply (process_row_votes_listed _ _ _ _ _ _ Hrow H1).
    - split; [apply (load_meetings_filed self [] _ eq_refl)|].
      unfold votes_listed. cbn. rewrite Hnone. constructor. }
  unfold votes_listed in Hlisted. rewrite Forall_forall in Hlisted.
  rewrite Hvotes in Hv. unfold Py.sorted_reverse in Hv.
  apply elem_of_sorted in Hv.
  destruct (Hlisted v Hv) as ([k m] & Hin & Hid & Hdate & x & Hx & Hrest).
  cbn [snd] in *.
  assert (sort_agenda m ∈ meetings self') as Hm.
  { rewrite Hperm. apply list_elem_of_fmap. by exists (k, m). }
  exists (sort_agenda m). split; [done|]. split.
  - split; [done|]. split; [done|]. exists x. split; [|done].
    cbn [sort_agenda agenda_items]. by apply elem_of_sorted.
  - intros m' Hm' Hid'. apply (NoDup_fmap_eq id (meetings self')); try done.
    + rewrite Hpid. by destruct Hfiled as (_ & _ & _ & ->); apply NoDup_seqZ.
    + rewrite Hid'. symmetry. exact Hid.
Qed.

Lemma votes_refer_to_meetings_witness :
  exists self' v m,
    _load_all_csv_data (Samples.builder []) [Samples.votes_file] = Some self'
    ∧ v ∈ votes self' ∧ m ∈ meetings self' ∧ listed_in m v.
Proof.
  destruct (_load_all_csv_data (Samples.builder []) [Samples.votes_file])
    as [self'|] eqn:Hload; [|vm_compute in Hload; discriminate Hload].
  destruct (votes self') as [|v vs] eqn:Hvotes.
  { vm_compute in Hload. injection Hload as <-. discriminate Hvotes. }
  destruct (votes_refer_to_meetings (Samples.builder []) self'
              [Samples.votes_file] v eq_refl Hload) as (m & Hm & Hl & _).
  { rewrite Hvotes. left. }
  exists self', v, m. rewrite Hvotes.
  split; [reflexivity|]. split; [left|]. split; [exact Hm|exact Hl].
Defined.

End MeetingsOnFile.

Section Tallies.
Import PyStr BuildSite Aggregates Bookkeeping.

Lemma tally_sum_list (l : list (string * VoteChoice)) :
  (forall kv, kv ∈ l -> kv.2 ≠ RECUSAL) ->
  (length (filter (fun kv => kv.2 = AYE) l)
   + length (filter (fun kv => kv.2 = NAY) l)
   + length (filter (fun kv => kv.2 = ABSTAIN) l)
   + length (filter (fun kv => kv.2 = ABSENT) l))%nat
  = length l.
Proof.
  induction l as [|[n c] l IH]; intros H; [done|].
  assert (forall kv, kv ∈ l -> kv.2 ≠ RECUSAL) as Hl
    by (intros kv Hkv; apply H; by right).
  specialize (IH Hl). rewrite !filter_cons. cbn [snd].
  assert (c ≠ RECUSAL) as Hc by (apply (H (n, c)); left).
  destruct c; repeat case_decide; try done; cbn [length]; lia.
Qed.

(** The four tallies of a vote mapping without RECUSAL add up to its
    size. *)
Lemma tally_sum (mv : gmap string VoteChoice) :
  (forall name, mv !! name ≠ Some RECUSAL) ->
  tally AYE mv + tally NAY mv + tally ABSTAIN mv + tally ABSENT mv
  = Z.of_nat (size mv).
Proof.
  intros H. unfold tally. rewrite <- length_map_to_list.
  rewrite <- (tally_sum_list (map_to_list mv)); [lia|].
  intros [n c] Hin. cbn [snd]. apply elem_of_map_to_list in Hin.
  intros ->. by apply (H n).
Qed.

Lemma tally_nonneg (c : VoteChoice) (mv : gmap string VoteChoice) :
  0 <= tally c mv.
Proof. unfold tally. lia. Qed.

(** Only roster members enter a vote mapping. *)
Lemma collect_member_votes_roster (members : list (string * Member))
    (member_cols : list string) (row : gmap string string) (name : string) :
  is_Some (collect_member_votes members member_cols row !! name) ->
  is_Some (table_get members name).
Proof.
  unfold collect_member_votes.
  assert (forall acc : gmap string VoteChoice,
            (is_Some (acc !! name) -> is_Some (table_get members name)) ->
            is_Some
              (foldl (fun member_votes col =>
                        match map_vote (strip (cell row col)) with
                        | Some mapped =>
                            if bool_decide
                                 (is_Some
                                    (table_get members (normalize_name col)))
                            then <[normalize_name col := mapped]> member_votes
                            else member_votes
                        | None => member_votes
                        end) acc member_cols !! name) ->
            is_Some (table_get members name)) as H.
  { induction member_cols as [|col cols IH]; intros acc Hacc; cbn [foldl];
      [done|].
    apply IH.
    destruct (map_vote (strip (cell row col))) as [mapped|]; [|done].
    destruct (bool_decide _) eqn:Hroster; [|done].
    apply bool_decide_eq_true in Hroster.
    destruct (decide (normalize_name col = name)) as [<-|Hne]; [done|].
    by rewrite lookup_insert_ne. }
  apply H. rewrite lookup_empty. by intros [? ?].
Qed.

Lemma process_row_tallied (members : list (string * Member))
    (member_cols : list string) (st st' : LoadState)
    (row : gmap string string) :
  process_row members member_cols st row = Some st' ->
  Forall (tallied members) (ls_votes st) ->
  Forall (tallied members) (ls_votes st').
Proof.
  intros H Hold. destruct (process_row_cases _ _ _ _ _ H)
    as [[-> _]|(m & u & e & _ & _ & _ & _ & _ & _ & _ & _ & Hv)]; [done|].
  destruct Hv as [(v & -> & _ & _ & Hmv & Hne & Ha & Hn & Hab & Hs & _)
                 |(-> & _)]; [|done].
  apply Forall_app. split; [done|]. constructor; [|constructor].
  repeat (split; [done|]). intros name c Hc. rewrite Hmv in Hc. split.
  - intros ->. by apply collect_member_votes_no_recusal in Hc.
  - apply (collect_member_votes_roster members member_cols row).
    by rewrite Hc.
Qed.

(** X9.  The tallies of every loaded vote count its vote mapping: ayes, noes,
    abstentions and absences are the numbers of members recorded with each
    choice, they add up to the number of members recorded, which is at
    least one, and every member recorded is on the roster. *)
Theorem vote_tallies_add_up (self self' : Builder)
    (votes_files : list VotesFile) (v : Vote) :
  votes self = [] ->
  _load_all_csv_data self votes_files = Some self' ->
  v ∈ votes self' ->
  ayes v = tally AYE (member_votes v)
  ∧ noes v = tally NAY (member_votes v)
  ∧ abstain v = tally ABSTAIN (member_votes v)
  ∧ absent v = tally ABSENT (member_votes v)
  ∧ ayes v + noes v + abstain v + absent v = Z.of_nat (size (member_votes v))
  ∧ 0 < ayes v + noes v + abstain v + absent v
  ∧ 0 <= ayes v ∧ 0 <= noes v ∧ 0 <= abstain v ∧ 0 <= absent v
  ∧ forall name c, member_votes v !! name = Some c ->
                   c ≠ RECUSAL ∧ is_Some (table_get (members self) name).
Proof.
  intros Hnone Hload Hv.
  destruct (load_result _ _ _ Hload) as (st & Hrun & _ & Hvotes & _).
  assert (Forall (tallied (members self)) (ls_votes st)) as Hall.
  { refine (load_preserves
              (fun s => Forall (tallied (members self)) (ls_votes s))
              _ _ _ _ _ Hrun _).
    - intros cols s row s'. apply process_row_tallied.
    - cbn. rewrite Hnone. constructor. }
  rewrite Forall_forall in Hall. rewrite Hvotes in Hv.
  unfold Py.sorted_reverse in Hv. apply elem_of_sorted in Hv.
  destruct (Hall v Hv) as (Ha & Hn & Hab & Hs & Hne & Hmem).
  assert (ayes v + noes v + abstain v + absent v
          = Z.of_nat (size (member_votes v))) as Hsum.
  { rewrite Ha, Hn, Hab, Hs. apply tally_sum.
    intros name Hr. by destruct (Hmem name RECUSAL Hr). }
  assert (size (member_votes v) ≠ 0%nat) as Hsize
    by (by intros ?%map_size_empty_inv).
  do 4 (split; [done|]). split; [done|]. split; [lia|].
  rewrite Ha, Hn, Hab, Hs.
  do 4 (split; [apply tally_nonneg|]). done.
Qed.

Lemma vote_tallies_add_up_witness :
  exists self' v,
    _load_all_csv_data (Samples.builder []) [Samples.votes_file] = Some self'
    ∧ v ∈ votes self'
    ∧ ayes v + noes v + abstain v + absent v = Z.of_nat (size (member_votes v)).
Proof.
  destruct (_load_all_csv_data (Samples.builder []) [Samples.votes_file])
    as [self'|] eqn:Hload; [|vm_compute in Hload; discriminate Hload].
  destruct (votes self') as [|v vs] eqn:Hvotes.
  { vm_compute in Hload. injection Hload as <-. discriminate Hvotes. }
  exists self', v. rewrite Hvotes. split; [reflexivity|]. split; [left|].
  apply (vote_tallies_add_up (Samples.builder []) self'
           [Samples.votes_file] v eq_refl Hload).
  rewrite Hvotes. left.
Defined.

End Tallies.

(* ===================================================================== *)
(** * Further properties: member statistics *)
(* ===================================================================== *)

Section MemberFigures.
Import PyStr BuildSite Aggregates Figures.

Lemma count_vote_balanced (name : string) (c : Counters) (v : Vote) :
  balanced c -> balanced (count_vote name c v).
Proof.
  unfold balanced, count_vote.
  destruct (member_votes v !! name) as [mv|]; [|done].
  destruct mv, (outcome v), (Z.abs (ayes v - noes v) <=? 2);
    unfold bump; cbn; repeat case_bool_decide; try congruence; lia.
Qed.

Lemma count_votes_balanced (name : string) (votes : list Vote) :
  balanced (count_votes name votes).
Proof.
  unfold count_votes.
  assert (forall c, balanced c -> balanced (foldl (count_vote name) c votes))
    as H.
  { induction votes as [|v votes IH]; intros c Hc; cbn [foldl]; [done|].
    by apply IH, count_vote_balanced. }
  apply H. unfold balanced, zero_counters. cbn. lia.
Qed.

(** X10.  The counts of a member's statistics add up: the five choice counts
    make up total_votes, which is the number of records the member appears
    in; winning-side and losing-side votes make up the ayes and nays; the
    close dissents are among the losing-side votes; and no count is
    negative. *)
Theorem member_counts_add_up (self : Builder) (name : string) :
  let s := _compute_member_stats self name in
  s_aye_count s + s_nay_count s + s_abstain_count s + s_absent_count s
  + s_recusal_count s = s_total_votes s
  ∧ s_total_votes s = count_where (took_part name) (votes self)
  ∧ s_votes_on_winning_side s + s_votes_on_losing_side s
    = s_aye_count s + s_nay_count s
  ∧ 0 <= s_close_vote_dissents s <= s_votes_on_losing_side s
  ∧ 0 <= s_votes_on_winning_side s
  ∧ 0 <= s_aye_count s ∧ 0 <= s_nay_count s ∧ 0 <= s_abstain_count s
  ∧ 0 <= s_absent_count s ∧ 0 <= s_recusal_count s.
Proof.
  cbv zeta. unfold _compute_member_stats. cbn.
  pose proof (count_votes_balanced name (votes self)) as Hb.
  pose proof (count_votes_from name (votes self) zero_counters) as Hc.
  cbv zeta in Hc. fold (count_votes name (votes self)) in Hc.
  destruct Hc as (Htotal & _). cbn in Htotal.
  unfold balanced in Hb. repeat split; lia.
Qed.

Lemma dissent_denom_positive (name : string) (votes : list Vote) :
  0 < dissent_denom name votes.
Proof.
  unfold dissent_denom. cbv zeta.
  destruct (_ >? _) eqn:E; [|lia]. apply Z.gtb_lt in E. lia.
Qed.

(** X11.  The rates of a member's statistics: the aye percentage and the
    participation rate lie between 0 and 100, the dissent rate is not
    negative, and all three are 0 for a member who appears in no
    record. *)
Theorem member_rates_in_range (self : Builder) (name : string) :
  let s := _compute_member_stats self name in
  (0 <= s_aye_percentage s <= 100)%Q
  ∧ (0 <= s_participation_rate s <= 100)%Q
  ∧ (0 <= s_dissent_rate s)%Q
  ∧ (s_total_votes s = 0 ->
     s_aye_percentage s = 0%Q ∧ s_participation_rate s = 0%Q
     ∧ s_dissent_rate s = 0%Q).
Proof.
  cbv zeta. unfold _compute_member_stats. cbn.
  pose proof (count_votes_balanced name (votes self)) as Hb.
  pose proof (dissent_denom_positive name (votes self)) as Hd.
  unfold balanced in Hb. set (c := count_votes name (votes self)) in *.
  split; [|split; [|split]].
  - destruct (total c =? 0) eqn:E; [lra|]. apply Z.eqb_neq in E.
    apply round1_range, percent_range; lia.
  - destruct (total c =? 0) eqn:E; [lra|]. apply Z.eqb_neq in E.
    apply round1_range, percent_range; lia.
  - destruct (dissent_denom name (votes self) =? 0) eqn:E; [lra|].
    apply round1_nonneg, percent_nonneg; lia.
  - intros Hzero. rewrite Hzero. cbn. split; [done|]. split; [done|].
    destruct (dissent_denom name (votes self) =? 0); [done|].
    assert (votes_on_losing_side c = 0) as -> by lia.
    rewrite percent_zero. by apply round1_zero.
Qed.

End MemberFigures.

(* ===================================================================== *)
(** * Further properties: pairwise alignment *)
(* ===================================================================== *)

Section AlignmentMore.
Import PyStr BuildSite Aggregates.

Lemma rate_leb_total (p q : AlignmentPair) :
  rate_leb p q = true \/ rate_leb q p = true.
Proof.
  unfold rate_leb. rewrite !Qle_bool_iff.
  destruct (Qlt_le_dec (agreement_rate p) (agreement_rate q)) as [H|H].
  - left. by apply Qlt_le_weak.
  - by right.
Qed.

Lemma rate_leb_trans (p q r : AlignmentPair) :
  rate_leb p q = true -> rate_leb q r = true -> rate_leb p r = true.
Proof. unfold rate_leb. rewrite !Qle_bool_iff. apply Qle_trans. Qed.

(** A sorted list, cut in two: the front is sorted, and nothing in it
    comes after anything in the rest. *)
Lemma sorted_take_drop {X} (R : X -> X -> Prop) (n : nat) (l : list X) :
  Transitive R -> Sorted R l ->
  Sorted R (take n l)
  ∧ forall x y, x ∈ take n l -> y ∈ drop n l -> R x y.
Proof.
  intros Htrans Hsorted. apply Sorted_StronglySorted in Hsorted; [|done].
  rewrite <- (take_drop n l) in Hsorted.
  apply StronglySorted_app in Hsorted as (Hcut & Hfront & _).
  split; [by apply StronglySorted_Sorted|done].
Qed.

(** X12.  The alignment report lists the pairs by rising agreement rate.
    least_aligned is its first three entries, or all of them when there are
    fewer, and no other pair has a lower rate; most_aligned is its last
    three entries, highest first, or all of them when there are fewer, and
    no other pair has a higher rate. *)
Theorem most_and_least_aligned (self : Builder) :
  let al := _generate_alignment_json self in
  let pairs := alignment_pairs al in
  Sorted (fun p q => rate_leb p q = true) pairs
  ∧ least_aligned al = take 3 pairs
  ∧ most_aligned al = take 3 (reverse pairs)
  ∧ length (least_aligned al) = (3 `min` length pairs)%nat
  ∧ length (most_aligned al) = (3 `min` length pairs)%nat
  ∧ (forall p q, p ∈ least_aligned al -> q ∈ drop 3 pairs ->
                 (agreement_rate p <= agreement_rate q)%Q)
  ∧ (forall p q, p ∈ most_aligned al -> q ∈ drop 3 (reverse pairs) ->
                 (agreement_rate q <= agreement_rate p)%Q)
  ∧ Sorted (fun p q => rate_leb q p = true) (most_aligned al).
Proof.
  cbv zeta. unfold _generate_alignment_json.
  cbn [alignment_pairs least_aligned most_aligned].
  set (pairs := Py.sorted rate_leb _).
  assert (Sorted (fun p q => rate_leb p q = true) pairs) as Hsorted
    by apply sorted_Sorted, rate_leb_total.
  assert (Transitive (fun p q => rate_leb p q = true)) as Htrans
    by exact rate_leb_trans.
  assert (Transitive (flip (fun p q => rate_leb p q = true))) as Htrans'.
  { intros p q r H1 H2. unfold flip in *. by apply (rate_leb_trans r q p). }
  assert ((if (3 <=? length pairs)%nat then take 3 pairs else pairs)
          = take 3 pairs) as ->.
  { destruct (3 <=? length pairs)%nat eqn:E; [done|].
    apply Nat.leb_gt in E. rewrite take_ge; [done|lia]. }
  assert ((if (3 <=? length pairs)%nat
           then reverse (drop (length pairs - 3) pairs) else reverse pairs)
          = take 3 (reverse pairs)) as ->.
  { rewrite take_reverse. destruct (3 <=? length pairs)%nat eqn:E; [done|].
    apply Nat.leb_gt in E.
    by replace (length pairs - 3)%nat with 0%nat by lia. }
  destruct (sorted_take_drop _ 3 pairs Htrans Hsorted) as [_ Hleast].
  destruct (sorted_take_drop _ 3 (reverse pairs) Htrans'
              (Sorted_reverse _ _ Hsorted)) as [Hmost_sorted Hmost].
  split; [done|]. split; [done|]. split; [done|].
  split; [rewrite length_take; lia|].
  split; [rewrite length_take, length_reverse; lia|].
  split; [|split; [|done]].
  - intros p q Hp Hq. apply Qle_bool_iff. by apply Hleast.
  - intros p q Hp Hq. apply Qle_bool_iff. by apply (Hmost p q).
Qed.

End AlignmentMore.

(* ===================================================================== *)
(** * Further properties: date ranges, paging and minutes links *)
(* ===================================================================== *)

Section Quarters.
Import PyStr Fetch.

(** X13.  The date range is defined for the quarters 1 to 4 and for no other
    number, and the quarters tile the calendar: the end of a quarter, which
    is excluded from it, is the start of the next quarter, the first quarter
    of the next year after a fourth quarter. *)
Theorem quarters_tile (year quarter : Z) :
  (is_Some (get_quarter_dates year quarter) <-> 1 <= quarter <= 4)
  ∧ (1 <= quarter <= 4 ->
     exists start end_date later,
       get_quarter_dates year quarter = Some (start, end_date)
       ∧ get_quarter_dates (next_quarter year quarter).1
           (next_quarter year quarter).2 = Some (end_date, later)).
Proof.
  split.
  - unfold get_quarter_dates, QUARTER_DATES. cbn [quarter_lookup].
    destruct (1 =? quarter) eqn:E1; [apply Z.eqb_eq in E1; split; [lia|by eexists]|].
    destruct (2 =? quarter) eqn:E2; [apply Z.eqb_eq in E2; split; [lia|by eexists]|].
    destruct (3 =? quarter) eqn:E3; [apply Z.eqb_eq in E3; split; [lia|by eexists]|].
    destruct (4 =? quarter) eqn:E4; [apply Z.eqb_eq in E4; split; [lia|by eexists]|].
    apply Z.eqb_neq in E1, E2, E3, E4. cbn [mbind option_bind].
    split; [by intros [? ?]|lia].
  - intros Hq.
    assert (quarter = 1 \/ quarter = 2 \/ quarter = 3 \/ quarter = 4)
      as [-> | [-> | [-> | ->]]] by lia; by eexists _, _, _.
Qed.

End Quarters.

Section Paging.
Import PyStr Fetch.
Context {A : Type}.

Lemma length_page (page_size : Z) (rest : list A) :
  0 < page_size ->
  Z.of_nat (length (take (Z.to_nat page_size) rest))
  = Z.min page_size (Z.of_nat (length rest)).
Proof. intros H. rewrite length_take. lia. Qed.

Lemma drop_next_page (page_size skip : Z) (data : list A) :
  0 < page_size -> 0 <= skip ->
  drop (Z.to_nat (skip + page_size)) data
  = drop (Z.to_nat page_size) (drop (Z.to_nat skip) data).
Proof. intros HP Hs. rewrite drop_drop. f_equal. lia. Qed.

(** With enough requests allowed, the loop returns what it had and the
    rest of the data. *)
Lemma fetch_pages_serves (page_size : Z) (data : list A) (fuel : nat)
    (skip : Z) (acc : list A) :
  0 < page_size -> 0 <= skip ->
  Z.of_nat (length (drop (Z.to_nat skip) data)) / page_size < Z.of_nat fuel ->
  fetch_pages page_size (serves page_size data) fuel skip acc
  = Some (acc ++ drop (Z.to_nat skip) data).
Proof.
  intros HP. revert skip acc.
  induction fuel as [|fuel IH]; intros skip acc Hs Hfuel.
  { pose proof (Z.div_pos (Z.of_nat (length (drop (Z.to_nat skip) data)))
                  page_size). lia. }
  cbn [fetch_pages]. unfold serves at 1.
  set (rest := drop (Z.to_nat skip) data) in *.
  rewrite (length_page _ _ HP).
  destruct (Z.min page_size (Z.of_nat (length rest)) <? page_size) eqn:E.
  - apply Z.ltb_lt in E. rewrite take_ge by lia. done.
  - apply Z.ltb_ge in E.
    rewrite IH; [|lia|].
    + rewrite (drop_next_page _ _ _ HP Hs). fold rest.
      by rewrite <- app_assoc, take_drop.
    + rewrite (drop_next_page _ _ _ HP Hs). fold rest.
      rewrite length_drop.
      replace (Z.of_nat (length rest - Z.to_nat page_size))
        with (Z.of_nat (length rest) + (-1) * page_size) by lia.
      rewrite Z.div_add by lia. lia.
Qed.

(** With fewer requests allowed, it does not come to an end. *)
Lemma fetch_pages_short_of_fuel (page_size : Z) (data : list A) (fuel : nat)
    (skip : Z) (acc : list A) :
  0 < page_size -> 0 <= skip ->
  Z.of_nat fuel <= Z.of_nat (length (drop (Z.to_nat skip) data)) / page_size ->
  fetch_pages page_size (serves page_size data) fuel skip acc = None.
Proof.
  intros HP. revert skip acc.
  induction fuel as [|fuel IH]; intros skip acc Hs Hfuel; [done|].
  cbn [fetch_pages]. unfold serves at 1.
  set (rest := drop (Z.to_nat skip) data) in *.
  rewrite (length_page _ _ HP).
  assert (page_size <= Z.of_nat (length rest)) as Hfull.
  { destruct (Z_lt_le_dec (Z.of_nat (length rest)) page_size) as [Hlt|]; [|done].
    rewrite Z.div_small in Hfuel by lia. lia. }
  rewrite (proj2 (Z.ltb_ge _ _)) by lia.
  apply IH; [lia|].
  rewrite (drop_next_page _ _ _ HP Hs). fold rest. rewrite length_drop.
  replace (Z.of_nat (length rest - Z.to_nat page_size))
    with (Z.of_nat (length rest) + (-1) * page_size) by lia.
  rewrite Z.div_add by lia. lia.
Qed.

Lemma fetch_pages_all (page_size : Z) (data : list A) (fuel : nat) :
  0 < page_size ->
  fetch_pages page_size (serves page_size data) fuel 0 []
  = if decide (Z.of_nat (length data) / page_size < Z.of_nat fuel)
    then Some data else None.
Proof.
  intros HP. case_decide as Hfuel.
  - by rewrite fetch_pages_serves.
  - apply fetch_pages_short_of_fuel; [done|done|].
    change (drop (Z.to_nat 0) data) with data. lia.
Qed.

(** When the request for the page at offset [limit] fails, the loop
    returns the pages before it. *)
Lemma fetch_pages_until (page_size : Z) (data : list A) (k fuel : nat)
    (skip : Z) (acc : list A) :
  0 < page_size -> 0 <= skip -> (k < fuel)%nat ->
  skip + Z.of_nat k * page_size <= Z.of_nat (length data) ->
  fetch_pages page_size
    (serves_until (skip + Z.of_nat k * page_size) page_size data)
    fuel skip acc
  = Some (acc ++ take (k * Z.to_nat page_size) (drop (Z.to_nat skip) data)).
Proof.
  intros HP. revert fuel skip acc.
  induction k as [|k IH]; intros fuel skip acc Hs Hfuel Hdata;
    (destruct fuel as [|fuel]; [lia|]); cbn [fetch_pages];
    unfold serves_until at 1.
  - rewrite (proj2 (Z.ltb_ge _ _)) by lia. cbn. by rewrite app_nil_r.
  - rewrite (proj2 (Z.ltb_lt _ _)) by lia. unfold serves.
    set (rest := drop (Z.to_nat skip) data) in *.
    assert (Z.of_nat (length rest) = Z.of_nat (length data) - skip) as Hrest.
    { unfold rest. rewrite length_drop. lia. }
    rewrite (length_page _ _ HP).
    rewrite (proj2 (Z.ltb_ge _ _)) by lia.
    replace (skip + Z.of_nat (S k) * page_size)
      with ((skip + page_size) + Z.of_nat k * page_size) by lia.
    rewrite IH by lia.
    rewrite (drop_next_page _ _ _ HP Hs). fold rest.
    rewrite <- app_assoc. do 2 f_equal.
    replace (S k * Z.to_nat page_size)%nat
      with (Z.to_nat page_size + k * Z.to_nat page_size)%nat by lia.
    rewrite <- take_take_drop. done.
Qed.

End Paging.

Section PagingResults.
Import PyStr Fetch.

(** X14.  The paging loops put the data together again.  Against a server that
    answers every request with the page asked for, [_legistar_get_all]
    (pages of 1000) and [fetch_socrata_votes] (pages of 50000) return the
    whole data, in order, after one request more than there are full pages,
    and not before: a last, short or empty, page ends the loop. *)
Theorem paging_returns_all_records {A} (data : list A) (fuel : nat) :
  _legistar_get_all (serves LEGISTAR_PAGE_SIZE data) fuel
  = (if decide (Z.of_nat (length data) / LEGISTAR_PAGE_SIZE < Z.of_nat fuel)
     then Some data else None)
  ∧ fetch_socrata_votes (serves SOCRATA_PAGE_SIZE data) fuel
    = (if decide (Z.of_nat (length data) / SOCRATA_PAGE_SIZE < Z.of_nat fuel)
       then Some data else None).
Proof. split; by apply fetch_pages_all. Qed.

(** X15.  A failed request ends the loop without an error: when the request for
    page [k] (counting from 0) fails, the loops return the [k] pages before
    it, as if they were all there is. *)
Theorem paging_stops_at_failed_request {A} (data : list A) (k fuel : nat) :
  (k < fuel)%nat ->
  (Z.of_nat k * LEGISTAR_PAGE_SIZE <= Z.of_nat (length data) ->
   _legistar_get_all
     (serves_until (Z.of_nat k * LEGISTAR_PAGE_SIZE) LEGISTAR_PAGE_SIZE data)
     fuel
   = Some (take (k * Z.to_nat LEGISTAR_PAGE_SIZE) data))
  ∧ (Z.of_nat k * SOCRATA_PAGE_SIZE <= Z.of_nat (length data) ->
     fetch_socrata_votes
       (serves_until (Z.of_nat k * SOCRATA_PAGE_SIZE) SOCRATA_PAGE_SIZE data)
       fuel
     = Some (take (k * Z.to_nat SOCRATA_PAGE_SIZE) data)).
Proof.
  intros Hfuel. split; intros Hdata.
  - apply (fetch_pages_until LEGISTAR_PAGE_SIZE data k fuel 0 []); done.
  - apply (fetch_pages_until SOCRATA_PAGE_SIZE data k fuel 0 []); done.
Qed.

Lemma paging_stops_at_failed_request_witness :
  let data := replicate 1000 7 ++ [8] in
  _legistar_get_all
    (serves_until (Z.of_nat 1 * LEGISTAR_PAGE_SIZE) LEGISTAR_PAGE_SIZE data) 2
  = Some (take (1 * Z.to_nat LEGISTAR_PAGE_SIZE) data).
Proof.
  cbv zeta.
  apply (proj1 (paging_stops_at_failed_request (replicate 1000 7 ++ [8]) 1 2
                  ltac:(lia))).
  rewrite length_app, length_replicate. vm_compute. discriminate.
Defined.

End PagingResults.

Section MinutesLinks.
Import PyStr Fetch.

Lemma decimal_cases (c : ascii) :
  isdecimal_char c = true ->
  c ∈ ["0"; "1"; "2"; "3"; "4"; "5"; "6"; "7"; "8"; "9"]%char.
Proof.
  destruct c as [[|] [|] [|] [|] [|] [|] [|] [|]]; intros H;
    vm_compute in H; try discriminate H; clear H;
    repeat first [apply list_elem_of_here | apply list_elem_of_further].
Qed.

(** Two decimal digits, read as a number and written with two digits
    again, or after a century. *)
Lemma two_digits (a b : ascii) :
  isdecimal_char a = true -> isdecimal_char b = true ->
  exists n,
    int_of_digits (String a (String b "")) = Some n
    ∧ pad2 n = String a (String b "")
    ∧ str_of_N (1900 + n) = String "1" (String "9" (String a (String b "")))
    ∧ str_of_N (2000 + n) = String "2" (String "0" (String a (String b ""))).
Proof.
  intros Ha%decimal_cases Hb%decimal_cases.
  repeat (apply elem_of_cons in Ha as [->|Ha]);
    [..|by apply elem_of_nil in Ha];
    (repeat (apply elem_of_cons in Hb as [->|Hb]);
     [..|by apply elem_of_nil in Hb]);
    (eexists; split; [reflexivity|]; vm_compute; by repeat split).
Qed.

(** X16.  A stamp MMDDYY of six decimal digits becomes the ISO date with the
    same month, day and two-digit year; the year is in the 1900s when its
    two digits are 97 or more and in the 2000s otherwise.  Month and day are
    not checked. *)
Theorem minutes_date_of_stamp (m1 m2 d1 d2 y1 y2 : ascii) :
  Forall (fun c => isdecimal_char c = true) [m1; m2; d1; d2; y1; y2] ->
  exists yy,
    int_of_digits (String y1 (String y2 "")) = Some yy
    ∧ minutes_date
        (String m1 (String m2 (String d1 (String d2 (String y1 (String y2 ""))))))
      = Some ((if (97 <=? yy)%N then "19" else "20")
              +:+ String y1 (String y2 "") +:+ "-"
              +:+ String m1 (String m2 "") +:+ "-"
              +:+ String d1 (String d2 "")).
Proof.
  intros H. repeat (apply Forall_cons in H as [? H]).
  destruct (two_digits m1 m2) as (mm & Hmm & Hpm & _); [done..|].
  destruct (two_digits d1 d2) as (dd & Hdd & Hpd & _); [done..|].
  destruct (two_digits y1 y2) as (yy & Hyy & _ & H19 & H20); [done..|].
  exists yy. split; [done|]. unfold minutes_date.
  cbn [String.substring]. rewrite Hmm, Hdd, Hyy. cbn [mbind option_bind].
  rewrite Hpm, Hpd. destruct (97 <=? yy)%N; by rewrite ?H19, ?H20.
Qed.

Lemma minutes_date_of_stamp_witness :
  minutes_date "101525" = Some "2025-10-15"
  ∧ minutes_date "123198" = Some "1998-12-31".
Proof.
  split.
  - destruct (minutes_date_of_stamp "1" "0" "1" "5" "2" "5") as (yy & Hyy & ->).
    + repeat constructor.
    + vm_compute in Hyy. injection Hyy as <-. reflexivity.
  - destruct (minutes_date_of_stamp "1" "2" "3" "1" "9" "8") as (yy & Hyy & ->).
    + repeat constructor.
    + vm_compute in Hyy. injection Hyy as <-. reflexivity.
Defined.

(** X17.  The link kept for a date is the first one found: after the matches
    of a page are added, a date that had a link has it still, and any other
    date has the link of the first match with that date, if there is one.
    A match whose stamp is not a date is passed over. *)
Theorem first_minutes_link_is_kept (date_to_url : gmap string string)
    (matches : list (string * string)) (iso_date : string) :
  add_minutes_links date_to_url matches !! iso_date
  = match date_to_url !! iso_date with
    | Some url => Some url
    | None => first_link iso_date matches
    end.
Proof.
  unfold add_minutes_links. revert date_to_url.
  induction matches as [|[url stamp] matches IH]; intros date_to_url;
    cbn [foldl].
  { unfold first_link. cbn. by destruct (date_to_url !! iso_date). }
  rewrite IH. unfold add_minutes_link, first_link. cbn [List.filter snd].
  destruct (minutes_date stamp) as [d|] eqn:Hd.
  - destruct (decide (d = iso_date)) as [->|Hne].
    + rewrite bool_decide_eq_true_2 by done. cbn [head fmap option_fmap option_map fst].
      destruct (date_to_url !! iso_date) as [u|] eqn:Hu.
      * by rewrite Hu.
      * by rewrite lookup_insert_eq.
    + rewrite bool_decide_eq_false_2 by congruence.
      destruct (date_to_url !! d); [done|]. by rewrite lookup_insert_ne.
  - by rewrite bool_decide_eq_false_2.
Qed.

End MinutesLinks.

(* ===================================================================== *)
(** * Further properties: the persons file *)
(* ===================================================================== *)

Section TextOrder.

Lemma string_leb_refl (s : string) : String.leb s s = true.
Proof. unfold String.leb. by rewrite string_compare_refl. Qed.

Lemma string_leb_trans (s1 s2 s3 : string) :
  String.leb s1 s2 = true -> String.leb s2 s3 = true ->
  String.leb s1 s3 = true.
Proof.
  intros H12 H23. apply Is_true_true.
  apply Is_true_true in H12, H23.
  change (String.le s1 s3). by transitivity s2.
Qed.

Lemma string_ltb_leb (s1 s2 : string) :
  String.ltb s1 s2 = true -> String.leb s1 s2 = true.
Proof. unfold String.ltb, String.leb. by destruct (String.compare s1 s2). Qed.

Lemma string_ltb_false (s1 s2 : string) :
  String.ltb s1 s2 = false -> String.leb s2 s1 = true.
Proof.
  unfold String.ltb, String.leb. rewrite (String.compare_antisym s2 s1).
  by destruct (String.compare s1 s2).
Qed.

Lemma string_leb_ne_ltb (s1 s2 : string) :
  String.leb s1 s2 = true -> s1 ≠ s2 -> String.ltb s1 s2 = true.
Proof.
  unfold String.ltb, String.leb. destruct (String.compare s1 s2) eqn:E;
    [|done|done].
  apply String.compare_eq_iff in E. by intros _ [].
Qed.

(** A list without repetitions that is in order is in strict order. *)
Lemma sorted_strict (l : list string) :
  NoDup l -> Sorted (fun a b => String.leb a b = true) l ->
  Sorted (fun a b => String.ltb a b = true) l.
Proof.
  induction l as [|x l IH]; [constructor|].
  intros [Hx Hl]%NoDup_cons [Hs Hhd]%Sorted_inv.
  constructor; [by apply IH|].
  destruct Hhd as [|y l' Hxy]; constructor.
  apply string_leb_ne_ltb; [done|]. intros ->. apply Hx. by left.
Qed.

End TextOrder.

Section PersonsFile.
Import PyStr Extract Persons.

Lemma records_of_snoc (name : string) (rs : list SocrataPerson)
    (r : SocrataPerson) :
  records_of name (rs ++ [r])
  = records_of name rs
    ++ (if String.eqb (voter_name (base r)) name then [r] else []).
Proof. unfold records_of. by rewrite List.filter_app. Qed.

(** The dict after the loop: an entry for each voter name that is not
    empty and has a record, and the entry sums up the voter's records. *)
Lemma person_data_spec (rs : list SocrataPerson) (name : string) :
  match foldl person_step ∅ rs !! name with
  | Some row => name ≠ "" ∧ summarizes row name rs
  | None => name = "" \/ records_of name rs = []
  end.
Proof.
  induction rs as [|r rs IH] using rev_ind.
  { cbn. rewrite lookup_empty. by right. }
  unfold summarizes in *. cbv zeta in *.
  rewrite foldl_snoc, !records_of_snoc. unfold person_step at 1.
  set (d := foldl person_step ∅ rs) in *.
  destruct (is_empty (voter_name (base r))) eqn:He.
  { apply is_empty_true in He. rewrite He.
    destruct (d !! name) as [row|].
    - destruct IH as [Hne Hrow]. split; [done|].
      assert (String.eqb "" name = false) as ->
        by (apply String.eqb_neq; congruence).
      by rewrite app_nil_r.
    - destruct IH as [->|Hnone]; [by left|].
      destruct (String.eqb "" name) eqn:E.
      + apply String.eqb_eq in E. by left.
      + right. by rewrite app_nil_r. }
  assert (voter_name (base r) ≠ "") as Hname.
  { intros E. rewrite E in He. discriminate He. }
  destruct (decide (voter_name (base r) = name)) as [Heq|Hne].
  - subst name. rewrite lookup_insert_eq, String.eqb_refl.
    split; [done|].
    destruct (d !! voter_name (base r)) as [row|] eqn:Hd; cbn [default].
    + destruct IH as [_ (Hn & Hc & (r1 & rest & Hmine & Hdis & Htit)
                         & (rf & Hrf & Hfirst) & (rl & Hrl & Hlast) & Hb)].
      cbn. split; [done|]. split.
      { rewrite length_app. cbn [length]. lia. }
      split.
      { exists r1, (rest ++ [r]). by rewrite Hmine. }
      split; [|split].
      * destruct (String.ltb (date_of r) (p_first_seen row)).
        -- exists r. split; [|done]. apply elem_of_app. right. by left.
        -- exists rf. split; [|done]. apply elem_of_app. by left.
      * destruct (String.ltb (p_last_seen row) (date_of r)).
        -- exists r. split; [|done]. apply elem_of_app. right. by left.
        -- exists rl. split; [|done]. apply elem_of_app. by left.
      * intros r' [Hr'|Hr']%elem_of_app.
        -- destruct (Hb r' Hr') as [H1 H2]. split.
           ++ destruct (String.ltb (date_of r) (p_first_seen row)) eqn:E;
                [|done].
              apply (string_leb_trans _ (p_first_seen row)); [|done].
              by apply string_ltb_leb.
           ++ destruct (String.ltb (p_last_seen row) (date_of r)) eqn:E;
                [|done].
              apply (string_leb_trans _ (p_last_seen row)); [done|].
              by apply string_ltb_leb.
        -- apply list_elem_of_singleton in Hr' as ->. split.
           ++ destruct (String.ltb (date_of r) (p_first_seen row)) eqn:E.
              ** apply string_leb_refl.
              ** by apply string_ltb_false.
           ++ destruct (String.ltb (p_last_seen row) (date_of r)) eqn:E.
              ** apply string_leb_refl.
              ** by apply string_ltb_false.
    + destruct IH as [Hempty|Hnone]; [done|]. rewrite Hnone. cbn.
      assert (String.ltb (date_of r) (date_of r) = false) as Hirr.
      { unfold String.ltb. by rewrite string_compare_refl. }
      rewrite Hirr.
      split; [done|]. split; [done|]. split; [by exists r, []|].
      split; [exists r; split; [by left|done]|].
      split; [exists r; split; [by left|done]|].
      intros r' ->%list_elem_of_singleton. split; apply string_leb_refl.
  - rewrite lookup_insert_ne by done.
    assert (String.eqb (voter_name (base r)) name = false) as ->
      by (by apply String.eqb_neq).
    rewrite app_nil_r. exact IH.
Qed.

Lemma omap_names (d : gmap string PersonRow) (names : list string) :
  (forall name, name ∈ names ->
     exists row, d !! name = Some row ∧ p_voter_name row = name) ->
  p_voter_name <$> omap (fun name => d !! name) names = names.
Proof.
  induction names as [|name names IH]; intros H; [done|]. cbn [omap list_omap].
  destruct (H name) as (row & -> & Hrow); [by left|].
  cbn [fmap list_fmap]. rewrite Hrow. f_equal. apply IH.
  intros n Hn. apply H. by right.
Qed.

(** X18.  The persons file written from the Socrata records has one row for
    each voter name that is not empty, in strictly ascending order of the
    names; the row gives the number of the voter's records, the earliest and
    the latest of their dates, and the district and title of the voter's
    first record. *)
Theorem persons_file_summarizes (socrata_records : list SocrataPerson) :
  let rows := _write_persons_csv_from_socrata socrata_records in
  Sorted (fun a b => String.ltb a b = true) (p_voter_name <$> rows)
  ∧ (forall name,
       name ∈ p_voter_name <$> rows
       <-> name ≠ "" ∧ records_of name socrata_records ≠ [])
  ∧ (forall row, row ∈ rows ->
       summarizes row (p_voter_name row) socrata_records).
Proof.
  cbv zeta. unfold _write_persons_csv_from_socrata.
  set (d := foldl person_step ∅ socrata_records).
  set (names := Py.sorted String.leb (elements (dom d))).
  assert (forall name, name ∈ names <-> is_Some (d !! name)) as Hnames.
  { intros name. unfold names.
    by rewrite elem_of_sorted, elem_of_elements, elem_of_dom. }
  assert (forall name row, d !! name = Some row ->
            name ≠ "" ∧ summarizes row name socrata_records) as Hsome.
  { intros name row Hrow.
    pose proof (person_data_spec socrata_records name) as H.
    fold d in H. by rewrite Hrow in H. }
  assert (p_voter_name <$> omap (fun name => d !! name) names = names) as Hn.
  { apply omap_names. intros name [row Hrow]%Hnames. exists row.
    split; [done|]. by destruct (Hsome name row Hrow) as [_ [? _]]. }
  split; [|split].
  - rewrite Hn. apply sorted_strict.
    + unfold names. apply NoDup_sorted, NoDup_elements.
    + apply sorted_Sorted, String.leb_total.
  - intros name. rewrite Hn, Hnames. split.
    + intros [row Hrow]. destruct (Hsome name row Hrow) as [Hne Hs].
      split; [done|]. destruct Hs as (_ & _ & (r & rest & -> & _) & _). done.
    + intros [Hne Hrec].
      pose proof (person_data_spec socrata_records name) as H. fold d in H.
      destruct (d !! name) as [row|]; [by eexists|]. by destruct H.
  - intros row Hrow. apply list_elem_of_omap in Hrow as (name & _ & Hrow).
    destruct (Hsome name row Hrow) as [_ Hs].
    assert (p_voter_name row = name) as -> by (by destruct Hs).
    exact Hs.
Qed.

End PersonsFile.

(* ===================================================================== *)
(** * Further properties: the roster *)
(* ===================================================================== *)

Section Tables.
Import PyStr BuildSite Roster.
Context {V : Type}.

Lemma table_get_set (k k' : string) (v : V) (t : list (string * V)) :
  table_get (table_set k v t) k'
  = if String.eqb k k' then Some v else table_get t k'.
Proof.
  induction t as [|[k0 v0] t IH]; cbn [table_set table_get]; [done|].
  destruct (String.eqb k0 k) eqn:E0; cbn [table_get].
  - apply String.eqb_eq in E0 as ->. by destruct (String.eqb k k').
  - rewrite IH. destruct (String.eqb k0 k') eqn:E1; [|done].
    apply String.eqb_eq in E1 as ->. by rewrite String.eqb_sym, E0.
Qed.

Lemma table_get_None (k : string) (t : list (string * V)) :
  table_get t k = None <-> k ∉ t.*1.
Proof.
  induction t as [|[k0 v0] t IH]; cbn [table_get fmap list_fmap fst].
  - split; [|done]. intros _ H. by apply elem_of_nil in H.
  - rewrite not_elem_of_cons. destruct (String.eqb k0 k) eqn:E.
    + apply String.eqb_eq in E as ->. split; [done|]. by intros [? _].
    + apply String.eqb_neq in E. rewrite IH. split; [|tauto].
      intros H. split; [congruence|done].
Qed.

Lemma table_get_elem_of (k : string) (v : V) (t : list (string * V)) :
  table_get t k = Some v -> (k, v) ∈ t.
Proof.
  induction t as [|[k0 v0] t IH]; cbn [table_get]; [done|].
  destruct (String.eqb k0 k) eqn:E.
  - apply String.eqb_eq in E as ->. intros [= ->]. by left.
  - intros H. right. by apply IH.
Qed.

Lemma table_get_NoDup (k : string) (v : V) (t : list (string * V)) :
  NoDup t.*1 -> (k, v) ∈ t -> table_get t k = Some v.
Proof.
  induction t as [|[k0 v0] t IH]; cbn [table_get fmap list_fmap fst].
  - intros _ H. by apply elem_of_nil in H.
  - intros [Hk0 Ht]%NoDup_cons [[= -> ->]|Hin]%elem_of_cons.
    + by rewrite String.eqb_refl.
    + destruct (String.eqb k0 k) eqn:E; [|by apply IH].
      apply String.eqb_eq in E as ->. exfalso. apply Hk0.
      apply list_elem_of_fmap. by exists (k, v).
Qed.

Lemma table_set_keys (k : string) (v : V) (t : list (string * V)) :
  (table_set k v t).*1
  = match table_get t k with Some _ => t.*1 | None => t.*1 ++ [k] end.
Proof.
  induction t as [|[k0 v0] t IH]; cbn [table_set table_get]; [done|].
  destruct (String.eqb k0 k) eqn:E; [done|].
  cbn [fmap list_fmap fst]. rewrite IH. by destruct (table_get t k).
Qed.

Lemma table_set_NoDup (k : string) (v : V) (t : list (string * V)) :
  NoDup t.*1 -> NoDup (table_set k v t).*1.
Proof.
  intros H. rewrite table_set_keys.
  destruct (table_get t k) eqn:E; [done|].
  apply NoDup_app. split; [done|]. split; [|apply NoDup_singleton].
  intros x Hx ->%list_elem_of_singleton. by apply table_get_None in E.
Qed.

End Tables.

Section LoopFacts.

Lemma foldM_concat {X S} (f : S -> X -> option S) (s : S) (ls : list (list X)) :
  Py.foldM (Py.foldM f) s ls = Py.foldM f s (concat ls).
Proof.
  revert s. induction ls as [|l ls IH]; intros s; cbn [Py.foldM concat];
    [done|].
  rewrite foldM_app. destruct (Py.foldM f s l); cbn [mbind option_bind];
    [apply IH|done].
Qed.

Lemma foldM_snoc {X S} (f : S -> X -> option S) (s : S) (l : list X) (x : X) :
  Py.foldM f s (l ++ [x]) = s' ← Py.foldM f s l; f s' x.
Proof.
  rewrite foldM_app. destruct (Py.foldM f s l) as [s'|];
    cbn [mbind option_bind Py.foldM]; [|done].
  by destruct (f s' x).
Qed.

End LoopFacts.

Section RosterRows.
Import PyStr BuildSite Roster.

Lemma member_rows_snoc (name : string) (rs : list PersonsRow) (r : PersonsRow) :
  member_rows name (rs ++ [r])
  = member_rows name rs
    ++ (if bool_decide (normalize_name <$> r !! "voter_name" = Some name)
        then [r] else []).
Proof. unfold member_rows. by rewrite List.filter_app. Qed.

Lemma string_ltb_empty (s : string) : String.ltb s "" = false.
Proof. by destruct s. Qed.

Lemma string_leb_empty (s : string) : String.leb "" s = true.
Proof. by destruct s. Qed.

Lemma string_ltb_irrefl (s : string) : String.ltb s s = false.
Proof. unfold String.ltb. by rewrite string_compare_refl. Qed.

Lemma Forall_table_set {V} (P : string * V -> Prop) (k : string) (v : V)
    (t : list (string * V)) :
  Forall P t -> P (k, v) -> Forall P (table_set k v t).
Proof.
  intros Ht Hv. induction t as [|[k0 v0] t IH]; cbn [table_set].
  - by constructor.
  - apply Forall_cons in Ht as [H0 Ht].
    destruct (String.eqb k0 k) eqn:E; constructor; auto.
    by apply String.eqb_eq in E as ->.
Qed.

(** The first row of a member. *)
Lemma on_record_first (m' : Member) (name : string) (r : PersonsRow)
    (fs ls : string) :
  r !! "first_seen" = Some fs -> r !! "last_seen" = Some ls ->
  full_name m' = name ->
  short_name m'
  = default (default "" (last (split name)))
      (table_get SHORT_NAME_OVERRIDES name) ->
  titles m' = (if is_empty (title_of r) then ∅ else {[title_of r]} ∪ ∅) ->
  first_seen m' = fs -> last_seen m' = ls ->
  on_record m' name [r].
Proof.
  intros Hfs Hls Hname Hshort Htitles Hfirst Hlast.
  split; [done|]. split; [done|]. split; [|split; [|split; [|split; [|split]]]].
  - intros t. rewrite Htitles.
    destruct (is_empty (title_of r)) eqn:E.
    + apply is_empty_true in E. split; [by intros ?%elem_of_empty|].
      intros [Hne (row & ->%list_elem_of_singleton & <-)]. done.
    + rewrite elem_of_union, elem_of_singleton. split.
      * intros [->|?%elem_of_empty]; [|done]. split.
        -- intros E'. by rewrite E' in E.
        -- exists r. split; [by left|done].
      * intros [_ (row & ->%list_elem_of_singleton & <-)]. by left.
  - exists r. split; [by left|]. by rewrite Hlast.
  - intros row ls' ->%list_elem_of_singleton Hls'.
    rewrite Hlast. assert (ls' = ls) as -> by congruence.
    apply string_leb_refl.
  - exists r. split; [by left|]. by rewrite Hfirst.
  - intros row fs' ->%list_elem_of_singleton Hfs' _.
    rewrite Hfirst. assert (fs' = fs) as -> by congruence.
    apply string_leb_refl.
  - rewrite Hfirst. cbn [head]. split.
    + intros ->. by exists r.
    + intros (row & [= <-] & Hrow). congruence.
Qed.

(** One more row of a member. *)
Lemma on_record_next (m m' : Member) (name : string) (rows : list PersonsRow)
    (r : PersonsRow) (fs ls : string) :
  r !! "first_seen" = Some fs -> r !! "last_seen" = Some ls ->
  full_name m' = full_name m -> short_name m' = short_name m ->
  titles m' = (if is_empty (title_of r) then titles m
               else {[title_of r]} ∪ titles m) ->
  first_seen m' = (if negb (is_empty fs) && String.ltb fs (first_seen m)
                   then fs else first_seen m) ->
  last_seen m' = (if negb (is_empty ls) && String.ltb (last_seen m) ls
                  then ls else last_seen m) ->
  on_record m name rows -> on_record m' name (rows ++ [r]).
Proof.
  intros Hfs Hls Hname Hshort Htitles Hfirst Hlast
    (Hn & Hs & Ht & (rl & Hrl & Hrll) & Hlb & (rf & Hrf & Hrff) & Hfb & Hfe).
  assert (forall x, x ∈ rows -> x ∈ rows ++ [r]) as Hold
    by (intros x Hx; apply elem_of_app; by left).
  assert (r ∈ rows ++ [r]) as Hnew
    by (apply elem_of_app; right; by left).
  split; [congruence|]. split; [congruence|].
  split; [|split; [|split; [|split; [|split]]]].
  - intros t. rewrite Htitles.
    assert (t ∈ titles m
            <-> t ≠ "" ∧ exists row, row ∈ rows ∧ title_of row = t) as Ht'
      by apply Ht.
    destruct (is_empty (title_of r)) eqn:E.
    + apply is_empty_true in E. rewrite Ht'. split.
      * intros [Hne (row & Hrow & Hrt)]. split; [done|]. exists row. auto.
      * intros [Hne (row & [Hrow|Hrow]%elem_of_app & Hrt)].
        -- split; [done|]. by exists row.
        -- apply list_elem_of_singleton in Hrow as ->. congruence.
    + rewrite elem_of_union, elem_of_singleton, Ht'. split.
      * intros [->|[Hne (row & Hrow & Hrt)]].
        -- split; [intros E'; by rewrite E' in E|]. by exists r.
        -- split; [done|]. exists row. auto.
      * intros [Hne (row & [Hrow|Hrow]%elem_of_app & Hrt)].
        -- right. split; [done|]. by exists row.
        -- apply list_elem_of_singleton in Hrow as ->. by left.
  - rewrite Hlast.
    destruct (negb (is_empty ls) && String.ltb (last_seen m) ls).
    + by exists r.
    + exists rl. auto.
  - intros row ls' [Hrow|Hrow]%elem_of_app Hls'; rewrite Hlast.
    + pose proof (Hlb row ls' Hrow Hls') as Hb.
      destruct (negb (is_empty ls) && String.ltb (last_seen m) ls) eqn:E;
        [|done].
      apply andb_true_iff in E as [_ E].
      apply (string_leb_trans _ (last_seen m)); [done|].
      by apply string_ltb_leb.
    + apply list_elem_of_singleton in Hrow as ->.
      assert (ls' = ls) as -> by congruence.
      destruct (is_empty ls) eqn:Hempty.
      * apply is_empty_true in Hempty as ->. cbn. apply string_leb_empty.
      * cbn. destruct (String.ltb (last_seen m) ls) eqn:E.
        -- apply string_leb_refl.
        -- by apply string_ltb_false.
  - rewrite Hfirst.
    destruct (negb (is_empty fs) && String.ltb fs (first_seen m)).
    + by exists r.
    + exists rf. auto.
  - intros row fs' [Hrow|Hrow]%elem_of_app Hfs' Hne; rewrite Hfirst.
    + pose proof (Hfb row fs' Hrow Hfs' Hne) as Hb.
      destruct (negb (is_empty fs) && String.ltb fs (first_seen m)) eqn:E;
        [|done].
      apply andb_true_iff in E as [_ E].
      apply (string_leb_trans _ (first_seen m)); [|done].
      by apply string_ltb_leb.
    + apply list_elem_of_singleton in Hrow as ->.
      assert (fs' = fs) as -> by congruence.
      assert (is_empty fs = false) as -> by (by destruct fs).
      cbn. destruct (String.ltb fs (first_seen m)) eqn:E.
      * apply string_leb_refl.
      * by apply string_ltb_false.
  - assert (head (rows ++ [r]) = head rows) as ->.
    { destruct rows; [|done]. by apply elem_of_nil in Hrl. }
    rewrite <- Hfe, Hfirst.
    destruct (negb (is_empty fs) && String.ltb fs (first_seen m)) eqn:E;
      [|done].
    apply andb_true_iff in E as [E1 E2]. split.
    + intros ->. discriminate E1.
    + intros Hm. rewrite Hm, string_ltb_empty in E2. discriminate E2.
Qed.

(** One row keeps the roster in step with the rows read, and a row that
    is read is readable. *)
Lemma load_member_row_spec (rs : list PersonsRow)
    (ms0 ms : list (string * Member)) (r : PersonsRow) :
  roster_of rs ms0 -> load_member_row ms0 r = Some ms ->
  roster_of (rs ++ [r]) ms ∧ readable r.
Proof.
  intros (Hnodup & Hwords & Hrec). unfold load_member_row.
  destruct (r !! "voter_name") as [v|] eqn:Hv; [|done].
  destruct (r !! "first_seen") as [fs|] eqn:Hfs; [|done].
  destruct (r !! "last_seen") as [ls|] eqn:Hls; [|done].
  cbn [mbind option_bind]. set (name := normalize_name v).
  assert (forall name',
            name' ≠ name ->
            member_rows name' (rs ++ [r]) = member_rows name' rs) as Hother.
  { intros name' Hne. rewrite member_rows_snoc, Hv. cbn.
    rewrite bool_decide_eq_false_2, app_nil_r; [done|].
    intros [= E]. by apply Hne. }
  assert (member_rows name (rs ++ [r]) = member_rows name rs ++ [r]) as Hmine.
  { rewrite member_rows_snoc, Hv. cbn. by rewrite bool_decide_eq_true_2. }
  pose proof (Hrec name) as Hname.
  destruct (table_get ms0 name) as [m|] eqn:Hget; cbn [mbind option_bind].
  - intros [= <-].
    assert (split name ≠ []) as Hsplit.
    { apply table_get_elem_of in Hget. rewrite Forall_forall in Hwords.
      apply (Hwords _ Hget). }
    split; [|split; [by eexists|split; [by eexists|by exists v]]].
    split; [by apply table_set_NoDup|]. split.
    { by apply Forall_table_set. }
    intros name'. rewrite table_get_set.
    destruct (String.eqb name name') eqn:E.
    + apply String.eqb_eq in E as <-. rewrite Hmine.
      by apply (on_record_next m _ name _ r fs ls).
    + apply String.eqb_neq in E. rewrite Hother by congruence. apply Hrec.
  - destruct (last (split name)) as [lw|] eqn:Hlast;
      cbn [mbind option_bind]; [|done].
    intros [= <-].
    assert (split name ≠ []) as Hsplit.
    { intros E. rewrite E in Hlast. discriminate Hlast. }
    split; [|split; [by eexists|split; [by eexists|by exists v]]].
    split; [by apply table_set_NoDup|]. split.
    { by apply Forall_table_set. }
    intros name'. rewrite table_get_set.
    destruct (String.eqb name name') eqn:E.
    + apply String.eqb_eq in E as <-. rewrite Hmine, Hname. cbn [app].
      apply (on_record_first _ name r fs ls); try done;
        cbn [short_name first_seen last_seen].
      * by rewrite Hlast.
      * by rewrite string_ltb_irrefl, andb_false_r.
      * by rewrite string_ltb_irrefl, andb_false_r.
    + apply String.eqb_neq in E. rewrite Hother by congruence. apply Hrec.
Qed.

(** A readable row is read. *)
Lemma load_member_row_readable (rs : list PersonsRow)
    (ms0 : list (string * Member)) (r : PersonsRow) :
  readable r -> is_Some (load_member_row ms0 r).
Proof.
  intros ([fs Hfs] & [ls Hls] & v & Hv & Hsplit). unfold load_member_row.
  rewrite Hv, Hfs, Hls. cbn [mbind option_bind].
  destruct (table_get ms0 (normalize_name v)); cbn [mbind option_bind];
    [by eexists|].
  destruct (last (split (normalize_name v))) as [lw|] eqn:Hlast;
    cbn [mbind option_bind]; [by eexists|].
  apply last_None in Hlast. done.
Qed.

Lemma roster_of_nil : roster_of [] [].
Proof. split; [constructor|]. split; [constructor|]. done. Qed.

(** The roster after the rows of all files. *)
Lemma load_rows_spec (rs : list PersonsRow) (ms : list (string * Member)) :
  Py.foldM load_member_row [] rs = Some ms ->
  roster_of rs ms ∧ Forall readable rs.
Proof.
  revert ms. induction rs as [|r rs IH] using rev_ind; intros ms.
  - intros [= <-]. split; [apply roster_of_nil|constructor].
  - rewrite foldM_snoc.
    destruct (Py.foldM load_member_row [] rs) as [ms0|];
      cbn [mbind option_bind]; [|done].
    intros Hrow. destruct (IH ms0 eq_refl) as [Hroster Hread].
    destruct (load_member_row_spec rs ms0 ms r Hroster Hrow) as [H1 H2].
    split; [done|]. apply Forall_app. split; [done|]. by constructor.
Qed.

Lemma load_rows_readable (rs : list PersonsRow) (ms0 : list (string * Member)) :
  Forall readable rs -> is_Some (Py.foldM load_member_row ms0 rs).
Proof.
  revert ms0. induction rs as [|r rs IH]; intros ms0 Hall; cbn [Py.foldM].
  - by eexists.
  - apply Forall_cons in Hall as [Hr Hall].
    destruct (load_member_row_readable [] ms0 r Hr) as [ms1 ->].
    cbn [mbind option_bind]. by apply IH.
Qed.

End RosterRows.

Section RosterResults.
Import PyStr BuildSite Roster.

Lemma load_members_rows (self self' : Builder)
    (persons_files : list (list PersonsRow)) :
  members self = [] ->
  _load_members self persons_files = Some self' ->
  roster_of (concat persons_files) (members self')
  ∧ Forall readable (concat persons_files).
Proof.
  intros Hnone. unfold _load_members. rewrite Hnone, foldM_concat.
  destruct (Py.foldM load_member_row [] (concat persons_files)) as [ms|] eqn:E;
    cbn [mbind option_bind]; [|done].
  intros [= <-]. cbn [with_members members]. by apply load_rows_spec.
Qed.

(** The roster after [_load_members], against the rows of the files. *)
Lemma load_members_spec (self self' : Builder)
    (persons_files : list (list PersonsRow)) :
  members self = [] ->
  _load_members self persons_files = Some self' ->
  NoDup (members self').*1
  ∧ (forall name,
       name ∈ (members self').*1 <-> rows_of name persons_files ≠ [])
  ∧ (forall name m,
       (name, m) ∈ members self' ->
       on_record m name (rows_of name persons_files)).
Proof.
  intros Hnone Hload.
  destruct (load_members_rows _ _ _ Hnone Hload)
    as [(Hnodup & _ & Hrec) _].
  split; [done|]. split.
  - intros name. pose proof (Hrec name) as H. unfold rows_of.
    destruct (table_get (members self') name) as [m|] eqn:Hget.
    + split.
      * intros _ E. destruct H as (_ & _ & _ & (row & Hrow & _) & _).
        rewrite E in Hrow. by apply elem_of_nil in Hrow.
      * intros _. apply table_get_elem_of in Hget.
        apply list_elem_of_fmap. by exists (name, m).
    + split; [|done]. intros Hin. by apply table_get_None in Hget.
  - intros name m Hin. pose proof (Hrec name) as H.
    by rewrite (table_get_NoDup name m _ Hnodup Hin) in H.
Qed.


(** X19.  The roster loaded from the persons files has one entry for each
    canonical name with a row, and the entry holds what is on record for the
    rows of that name: the name, the short name, the titles, the latest
    last_seen, and the earliest first_seen that is not empty, or the empty
    one of the member's first row. *)
Theorem load_members_roster (self self' : Builder)
    (persons_files : list (list PersonsRow)) :
  members self = [] ->
  _load_members self persons_files = Some self' ->
  NoDup (members self').*1
  ∧ (forall name,
       name ∈ (members self').*1 <-> rows_of name persons_files ≠ [])
  ∧ (forall name m,
       (name, m) ∈ members self' ->
       on_record m name (rows_of name persons_files)).
Proof. apply load_members_spec. Qed.

Lemma load_members_roster_witness :
  exists self',
    _load_members Fixtures.new_builder Fixtures.persons_files = Some self'
    ∧ NoDup (members self').*1.
Proof.
  destruct (_load_members Fixtures.new_builder Fixtures.persons_files)
    as [self'|] eqn:Hload; [|vm_compute in Hload; discriminate Hload].
  exists self'. split; [reflexivity|].
  exact (proj1 (load_members_roster Fixtures.new_builder self'
                  Fixtures.persons_files eq_refl Hload)).
Defined.

(** X20.  The roster is loaded exactly when every row can be read: when it has
    the columns voter_name, first_seen and last_seen, and its name is not
    blank.  Any other row makes the load fail. *)
Theorem load_members_returns (self : Builder)
    (persons_files : list (list PersonsRow)) :
  members self = [] ->
  is_Some (_load_members self persons_files)
  <-> Forall readable (concat persons_files).
Proof.
  intros Hnone. split.
  - intros [self' Hload]. by destruct (load_members_rows _ _ _ Hnone Hload).
  - intros Hall. unfold _load_members. rewrite foldM_concat.
    destruct (load_rows_readable _ (members self) Hall) as [ms ->].
    by eexists.
Qed.

Lemma load_members_returns_witness :
  _load_members Fixtures.new_builder
    [[Fixtures.persons_row "  " "" "2023-06-20" "2023-09-27"]] = None.
Proof.
  destruct (_load_members Fixtures.new_builder
              [[Fixtures.persons_row "  " "" "2023-06-20" "2023-09-27"]])
    as [self'|] eqn:Hload; [|reflexivity].
  assert (is_Some (Some self')) as Hsome by (by eexists).
  rewrite <- Hload in Hsome.
  apply (load_members_returns Fixtures.new_builder _ eq_refl) in Hsome.
  apply Forall_cons in Hsome as [(_ & _ & v & Hv & Hsplit) _].
  vm_compute in Hv. injection Hv as <-. exfalso. apply Hsplit. reflexivity.
Defined.

(** X21.  The current members are the canonical names of the rows of the last
    persons file, or nobody when there is no file; and each of them is on
    the roster loaded from the same files. *)
Theorem current_members_are_latest (self self' : Builder)
    (persons_files : list (list PersonsRow)) :
  _load_current_members self persons_files = Some self' ->
  (forall name,
     _is_current self' name = true
     <-> exists latest row,
           last persons_files = Some latest ∧ row ∈ latest
           ∧ normalize_name <$> row !! "voter_name" = Some name)
  ∧ members self' = members self
  ∧ (forall self0 self1 name,
       members self0 = [] ->
       _load_members self0 persons_files = Some self1 ->
       _is_current self' name = true -> name ∈ (members self1).*1).
Proof.
  unfold _load_current_members.
  destruct (last persons_files) as [latest|] eqn:Hlast;
    cbn [mbind option_bind].
  - destruct (mapM _ latest) as [names|] eqn:Hnames; cbn [mbind option_bind];
      [|done].
    intros [= <-]. unfold _is_current. cbn [_current_members members].
    apply mapM_Some in Hnames.
    assert (forall name,
              bool_decide (name ∈ (list_to_set names : gset string)) = true
              <-> exists latest0 row,
                    Some latest = Some latest0 ∧ row ∈ latest0
                    ∧ normalize_name <$> row !! "voter_name" = Some name)
      as Hcur.
    { intros name. rewrite bool_decide_eq_true, elem_of_list_to_set. split.
      - intros Hin. apply list_elem_of_lookup in Hin as [i Hi].
        destruct (Forall2_lookup_r _ _ _ _ _ Hnames Hi) as (row & Hrow & Hn).
        exists latest, row. split; [done|]. split; [|done].
        by apply list_elem_of_lookup_2 in Hrow.
      - intros (latest0 & row & [= <-] & Hin & Hn).
        apply list_elem_of_lookup in Hin as [i Hi].
        destruct (Forall2_lookup_l _ _ _ _ _ Hnames Hi) as (n & Hnn & Hn').
        assert (n = name) as <- by congruence.
        by apply list_elem_of_lookup_2 in Hnn. }
    split; [done|]. split; [done|].
    intros self0 self1 name Hnone Hload
      (latest0 & row & [= <-] & Hrow & Hn)%Hcur.
    apply (load_members_spec self0 self1 persons_files Hnone Hload).
    unfold rows_of. intros E.
    assert (row ∈ member_rows name (concat persons_files)) as Hin.
    { apply list_elem_of_In, List.filter_In. split.
      - apply List.in_concat. exists latest.
        split; [|by apply list_elem_of_In].
        apply list_elem_of_In, list_elem_of_lookup.
        exists (length persons_files - 1)%nat.
        rewrite last_lookup in Hlast.
        by replace (length persons_files - 1)%nat
          with (Nat.pred (length persons_files)) by lia.
      - by apply bool_decide_eq_true. }
    rewrite E in Hin. by apply elem_of_nil in Hin.
  - intros [= <-]. unfold _is_current. cbn [_current_members members].
    split; [|split; [done|]].
    + intros name. split; [|by intros (? & ? & ? & _)].
      intros H. apply bool_decide_eq_true in H. by apply elem_of_empty in H.
    + intros self0 self1 name _ _ H. apply bool_decide_eq_true in H.
      by apply elem_of_empty in H.
Qed.

Lemma current_members_are_latest_witness :
  exists self',
    _load_current_members Fixtures.new_builder Fixtures.persons_files
    = Some self'
    ∧ _is_current self' "Eric Johnson" = true
    ∧ _is_current self' "Carolyn King Arnold" = false.
Proof.
  destruct (_load_current_members Fixtures.new_builder Fixtures.persons_files)
    as [self'|] eqn:Hload; [|vm_compute in Hload; discriminate Hload].
  exists self'. split; [reflexivity|].
  pose proof (proj1 (current_members_are_latest _ _ _ Hload)) as Hcur.
  split.
  - apply Hcur. eexists _, _. split; [reflexivity|]. split; [right; left|].
    reflexivity.
  - destruct (_is_current self' "Carolyn King Arnold") eqn:E; [|reflexivity].
    apply Hcur in E as (latest & row & [= <-] & Hrow & Hn). exfalso.
    repeat (apply elem_of_cons in Hrow as [->|Hrow];
            [vm_compute in Hn; discriminate Hn|]).
    by apply elem_of_nil in Hrow.
Defined.

End RosterResults.

Section Positions.
Import PyStr BuildSite Roster.

(** X22.  The position shown for a member is the highest of the titles the
    member's rows carry: Mayor when a row has the title Mayor, else Mayor Pro
    Tem, else Deputy Mayor Pro Tem, and Council Member when the rows have
    none of these titles or the name is not on the roster. *)
Theorem position_from_titles (self self' : Builder)
    (persons_files : list (list PersonsRow)) (name : string) :
  members self = [] ->
  _load_members self persons_files = Some self' ->
  let has := fun t => exists row, row ∈ rows_of name persons_files
                                  ∧ title_of row = t in
  (_get_position self' name = "Mayor" <-> has "Mayor")
  ∧ (_get_position self' name = "Mayor Pro Tem"
     <-> ¬ has "Mayor" ∧ has "Mayor Pro Tem")
  ∧ (_get_position self' name = "Deputy Mayor Pro Tem"
     <-> ¬ has "Mayor" ∧ ¬ has "Mayor Pro Tem" ∧ has "Deputy Mayor Pro Tem")
  ∧ (_get_position self' name = "Council Member"
     <-> ¬ has "Mayor" ∧ ¬ has "Mayor Pro Tem"
         ∧ ¬ has "Deputy Mayor Pro Tem").
Proof.
  intros Hnone Hload has.
  destruct (load_members_rows _ _ _ Hnone Hload) as [(_ & _ & Hrec) _].
  pose proof (Hrec name) as H. unfold _get_position.
  set (titles := match table_get (members self') name with
                 | Some m => BuildSite.titles m
                 | None => ∅
                 end).
  assert (forall t, t ≠ "" -> t ∈ titles <-> has t) as Ht.
  { intros t Hne. unfold titles, has, rows_of.
    destruct (table_get (members self') name) as [m|].
    - destruct H as (_ & _ & Hm & _). rewrite Hm. tauto.
    - rewrite H. split; [by intros ?%elem_of_empty|].
      by intros (row & ?%elem_of_nil & _). }
  rewrite <- (Ht "Mayor"), <- (Ht "Mayor Pro Tem"),
    <- (Ht "Deputy Mayor Pro Tem") by done.
  repeat case_bool_decide; repeat split; try done; try tauto;
    intros; try tauto; try discriminate.
Qed.

Lemma position_from_titles_witness :
  exists self',
    _load_members Fixtures.new_builder Fixtures.persons_files = Some self'
    ∧ _get_position self' "Eric Johnson" = "Mayor".
Proof.
  destruct (_load_members Fixtures.new_builder Fixtures.persons_files)
    as [self'|] eqn:Hload; [|vm_compute in Hload; discriminate Hload].
  exists self'. split; [reflexivity|].
  apply (proj1 (position_from_titles Fixtures.new_builder self'
                  Fixtures.persons_files "Eric Johnson" eq_refl Hload)).
  exists (Fixtures.persons_row "Eric Johnson" "Mayor" "2023-10-11"
            "2023-12-13").
  split; [|reflexivity]. apply list_elem_of_In, List.filter_In.
  split; [|reflexivity]. cbn. tauto.
Defined.

End Positions.

Section MemberIds.
Import PyStr BuildSite Roster.

Lemma number_members_snoc (l : list string) (x : string) :
  number_members (l ++ [x])
  = <[x := Z.of_nat (length l) + 1]> (number_members l).
Proof.
  unfold number_members. rewrite length_app. cbn [length].
  replace (length l + 1)%nat with (S (length l)) by lia.
  rewrite seqZ_S, zip_with_app by (rewrite length_seqZ; lia).
  rewrite foldl_app. cbn. f_equal. lia.
Qed.

(** The id of a name is its place in the list, counted from 1. *)
Lemma number_members_lookup (l : list string) (name : string) (i : Z) :
  NoDup l ->
  number_members l !! name = Some i
  <-> exists k, l !! k = Some name ∧ i = Z.of_nat k + 1.
Proof.
  revert i. induction l as [|x l IH] using rev_ind; intros i Hnodup.
  { change (number_members []) with (∅ : gmap string Z).
    rewrite lookup_empty. split; [done|]. by intros (k & Hk & _). }
  apply NoDup_app in Hnodup as (Hl & Hx & _).
  rewrite number_members_snoc.
  destruct (decide (x = name)) as [->|Hne].
  - rewrite lookup_insert_eq. split.
    + intros [= <-]. exists (length l). split; [|done].
      by rewrite lookup_app_r, Nat.sub_diag by lia.
    + intros (k & Hk & ->). f_equal.
      destruct (decide (k < length l)%nat) as [Hlt|Hge].
      * rewrite lookup_app_l in Hk by done. exfalso.
        apply (Hx name); [|by left]. by apply list_elem_of_lookup_2 in Hk.
      * apply lookup_lt_Some in Hk. rewrite length_app in Hk. cbn in Hk. lia.
  - rewrite lookup_insert_ne by done. rewrite (IH i Hl). split.
    + intros (k & Hk & ->). exists k. split; [|done].
      by apply lookup_app_l_Some.
    + intros (k & Hk & ->). exists k. split; [|done].
      destruct (decide (k < length l)%nat) as [Hlt|Hge].
      * by rewrite lookup_app_l in Hk.
      * rewrite lookup_app_r in Hk by lia.
        destruct (k - length l)%nat; cbn in Hk; [congruence|done].
Qed.

Lemma member_leb_key (ms : list (string * Member)) (n1 n2 : string) :
  member_leb ms n1 n2
  = Extract.key_leb (first_seen_of ms n1, n1) (first_seen_of ms n2, n2).
Proof. reflexivity. Qed.

Lemma member_leb_total (ms : list (string * Member)) (n1 n2 : string) :
  member_leb ms n1 n2 = true \/ member_leb ms n2 n1 = true.
Proof. rewrite !member_leb_key. apply key_leb_total. Qed.

Lemma member_leb_trans (ms : list (string * Member)) (n1 n2 n3 : string) :
  member_leb ms n1 n2 = true -> member_leb ms n2 n3 = true ->
  member_leb ms n1 n3 = true.
Proof. rewrite !member_leb_key. apply key_leb_trans. Qed.

Lemma member_leb_antisym (ms : list (string * Member)) (n1 n2 : string) :
  member_leb ms n1 n2 = true -> member_leb ms n2 n1 = true -> n1 = n2.
Proof.
  rewrite !member_leb_key. intros H1 H2.
  by injection (key_leb_antisym _ _ H1 H2).
Qed.

(** In a sorted list, what stands earlier is not greater. *)
Lemma sorted_lookup_le {X} (R : X -> X -> Prop) (l : list X) (k1 k2 : nat)
    (x1 x2 : X) :
  Transitive R -> Sorted R l -> (k1 < k2)%nat ->
  l !! k1 = Some x1 -> l !! k2 = Some x2 -> R x1 x2.
Proof.
  intros Htrans Hsorted Hlt H1 H2.
  destruct (sorted_take_drop R k2 l Htrans Hsorted) as [_ Hcut].
  apply Hcut.
  - apply list_elem_of_lookup. exists k1. by rewrite lookup_take_lt.
  - apply list_elem_of_lookup. exists 0%nat. rewrite lookup_drop.
    by rewrite Nat.add_0_r.
Qed.

Lemma disambiguate_keys (ms ms0 ms' : list (string * Member)) :
  mapM (disambiguate ms0) ms = Some ms' -> ms'.*1 = ms.*1.
Proof.
  intros H. apply mapM_Some in H.
  induction H as [|km km' ms ms' Hkm _ IH]; [done|].
  cbn [fmap list_fmap]. f_equal; [|exact IH].
  unfold disambiguate in Hkm.
  destruct (1 <? _)%nat; [|by injection Hkm as <-].
  destruct (first_initial km.1); cbn [mbind option_bind] in Hkm; [|done].
  by injection Hkm as <-.
Qed.

(** What [_assign_member_ids] hands out. *)
Lemma assign_member_ids_spec (self self' : Builder)
    (member_id_map : gmap string Z) :
  NoDup (members self).*1 ->
  _assign_member_ids self = Some (member_id_map, self') ->
  (forall name,
     is_Some (member_id_map !! name) <-> name ∈ (members self).*1)
  ∧ (forall name i,
       member_id_map !! name = Some i ->
       1 <= i <= Z.of_nat (length (members self)))
  ∧ (forall i, 1 <= i <= Z.of_nat (length (members self)) ->
               exists name, member_id_map !! name = Some i)
  ∧ (forall n1 n2 i,
       member_id_map !! n1 = Some i -> member_id_map !! n2 = Some i ->
       n1 = n2)
  ∧ (forall n1 n2 i1 i2,
       member_id_map !! n1 = Some i1 -> member_id_map !! n2 = Some i2 ->
       (i1 <= i2 <-> member_leb (members self) n1 n2 = true))
  ∧ (members self').*1 = (members self).*1.
Proof.
  intros Hnodup. unfold _assign_member_ids.
  destruct (mapM _ (members self)) as [ms'|] eqn:Hshort;
    cbn [mbind option_bind]; [|done].
  intros [= <- <-].
  set (l := Py.sorted (member_leb (members self)) (members self).*1).
  assert (NoDup l) as Hl by (by apply NoDup_sorted).
  assert (length l = length (members self)) as Hlen
    by (unfold l; by rewrite length_sorted, length_fmap).
  assert (Sorted (fun a b => member_leb (members self) a b = true) l)
    as Hsorted by apply sorted_Sorted, member_leb_total.
  assert (Transitive (fun a b => member_leb (members self) a b = true))
    as Htrans by (intros a b c; apply member_leb_trans).
  assert (forall k1 k2 n1 n2,
            l !! k1 = Some n1 -> l !! k2 = Some n2 -> (k1 <= k2)%nat ->
            member_leb (members self) n1 n2 = true) as Hle.
  { intros k1 k2 n1 n2 H1 H2 Hk.
    destruct (decide (k1 = k2)) as [->|Hne].
    - assert (n1 = n2) as -> by congruence.
      by destruct (member_leb_total (members self) n2 n2).
    - apply (sorted_lookup_le
               (fun a b => member_leb (members self) a b = true) l k1 k2);
        try done. lia. }
  split; [|split; [|split; [|split; [|split]]]].
  - intros name. split.
    + intros [i (k & Hk & _)%number_members_lookup]; [|done].
      apply list_elem_of_lookup_2 in Hk. by apply elem_of_sorted in Hk.
    + intros Hin. apply (elem_of_sorted (member_leb (members self))) in Hin.
      apply list_elem_of_lookup in Hin as [k Hk].
      exists (Z.of_nat k + 1). apply number_members_lookup; [done|].
      by exists k.
  - intros name i (k & Hk & ->)%number_members_lookup; [|done].
    apply lookup_lt_Some in Hk. lia.
  - intros i Hi.
    destruct (lookup_lt_is_Some_2 l (Z.to_nat (i - 1))) as [name Hname];
      [lia|].
    exists name. apply number_members_lookup; [done|].
    exists (Z.to_nat (i - 1)). split; [done|lia].
  - intros n1 n2 i (k1 & Hk1 & ->)%number_members_lookup
      (k2 & Hk2 & Heq)%number_members_lookup; try done.
    assert (k1 = k2) as -> by lia. congruence.
  - intros n1 n2 i1 i2 (k1 & Hk1 & ->)%number_members_lookup
      (k2 & Hk2 & ->)%number_members_lookup; try done.
    split.
    + intros Hi. apply (Hle k1 k2); try done. lia.
    + intros Hleb.
      destruct (decide (k1 <= k2)%nat) as [Hk|Hk]; [lia|].
      assert (member_leb (members self) n2 n1 = true) as Hleb'
        by (apply (Hle k2 k1); try done; lia).
      pose proof (member_leb_antisym _ _ _ Hleb Hleb') as ->.
      assert (k1 = k2); [|lia].
      by apply (NoDup_lookup l k1 k2 n2).
  - cbn [with_members members]. by apply (disambiguate_keys _ (members self)).
Qed.


(** X23.  The member ids are the ranks of the members in the order of first
    appearance and name: every member has an id, the ids are the numbers
    from 1 to the number of members, no two members share one, and a member
    with a smaller pair of first_seen and name has a smaller id.  The names
    on the roster stay as they are. *)
Theorem member_ids_are_ranks (self self' : Builder)
    (member_id_map : gmap string Z) :
  NoDup (members self).*1 ->
  _assign_member_ids self = Some (member_id_map, self') ->
  (forall name,
     is_Some (member_id_map !! name) <-> name ∈ (members self).*1)
  ∧ (forall name i,
       member_id_map !! name = Some i ->
       1 <= i <= Z.of_nat (length (members self)))
  ∧ (forall i, 1 <= i <= Z.of_nat (length (members self)) ->
               exists name, member_id_map !! name = Some i)
  ∧ (forall n1 n2 i,
       member_id_map !! n1 = Some i -> member_id_map !! n2 = Some i ->
       n1 = n2)
  ∧ (forall n1 n2 i1 i2,
       member_id_map !! n1 = Some i1 -> member_id_map !! n2 = Some i2 ->
       (i1 <= i2 <-> member_leb (members self) n1 n2 = true))
  ∧ (members self').*1 = (members self).*1.
Proof. apply assign_member_ids_spec. Qed.

Lemma member_ids_are_ranks_witness :
  exists ids self',
    _assign_member_ids (Samples.builder []) = Some (ids, self')
    ∧ is_Some (ids !! "Bo Burke").
Proof.
  destruct (_assign_member_ids (Samples.builder [])) as [[ids self']|] eqn:H;
    [|vm_compute in H; discriminate H].
  exists ids, self'. split; [reflexivity|].
  assert (NoDup (members (Samples.builder [])).*1) as Hnodup.
  { cbn. apply NoDup_cons. split; [|apply NoDup_singleton].
    intros H'%list_elem_of_singleton. discriminate H'. }
  apply (proj1 (member_ids_are_ranks _ _ _ Hnodup H)).
  cbn. right. left.
Defined.

End MemberIds.

(* ===================================================================== *)
(** * Further properties: the reports *)
(* ===================================================================== *)

Section VoteDetail.
Import PyStr BuildSite Roster Reports Bookkeeping.

Lemma loaded_votes_tallied (self self' : Builder)
    (votes_files : list VotesFile) :
  votes self = [] ->
  _load_all_csv_data self votes_files = Some self' ->
  Forall (tallied (members self)) (votes self').
Proof.
  intros Hnone Hload.
  destruct (load_result _ _ _ Hload) as (st & Hrun & _ & Hvotes & _).
  rewrite Hvotes. unfold Py.sorted_reverse. apply Forall_sorted.
  refine (load_preserves
            (fun s => Forall (tallied (members self)) (ls_votes s))
            _ _ _ _ _ Hrun _).
  - intros cols s row s'. apply process_row_tallied.
  - cbn. rewrite Hnone. constructor.
Qed.

Lemma omap_total {X Y Z0} (f : X -> option Y) (g : Y -> Z0) (h : X -> Z0)
    (l : list X) :
  (forall x, x ∈ l -> exists y, f x = Some y ∧ g y = h x) ->
  g <$> omap f l = h <$> l.
Proof.
  induction l as [|x l IH]; intros H; [done|]. cbn [omap list_omap].
  destruct (H x) as (y & -> & Hy); [by left|].
  cbn [fmap list_fmap]. rewrite Hy. f_equal. apply IH.
  intros x' Hx'. apply H. by right.
Qed.

(** X24.  The detail file of a loaded vote lists every member of its vote
    mapping: once ids are assigned, every member recorded on the vote has an
    id, so the test that drops entries without one drops nothing.  The list
    has one line for each member recorded, with the member's id and choice,
    in strictly ascending order of the names. *)
Theorem vote_detail_lists_every_member (self self1 self2 : Builder)
    (votes_files : list VotesFile) (member_id_map : gmap string Z)
    (v : Vote) :
  votes self = [] ->
  NoDup (members self).*1 ->
  _load_all_csv_data self votes_files = Some self1 ->
  _assign_member_ids self1 = Some (member_id_map, self2) ->
  v ∈ votes self1 ->
  let lines := member_votes_list member_id_map v in
  length lines = size (member_votes v)
  ∧ (forall name c,
       member_votes v !! name = Some c
       <-> exists line, line ∈ lines ∧ mv_full_name line = name
                        ∧ vote_choice line = c)
  ∧ (forall line, line ∈ lines ->
       member_id_map !! mv_full_name line = Some (member_id line)
       ∧ 1 <= member_id line)
  ∧ Sorted (fun a b => String.ltb a b = true) (mv_full_name <$> lines).
Proof.
  intros Hnone Hnodup Hload Hids Hv. cbv zeta.
  pose proof (loaded_votes_tallied _ _ _ Hnone Hload) as Htallied.
  rewrite Forall_forall in Htallied.
  destruct (Htallied v Hv) as (_ & _ & _ & _ & _ & Hroster).
  destruct (load_result _ _ _ Hload) as (st & _ & _ & _ & _ & _ & Hmembers).
  rewrite <- Hmembers in Hnodup.
  destruct (assign_member_ids_spec _ _ _ Hnodup Hids)
    as (Hhas & Hrange & _).
  unfold member_votes_list.
  set (entries := Py.sorted year_leb (map_to_list (member_votes v))).
  assert (forall e, e ∈ entries <-> member_votes v !! e.1 = Some e.2)
    as Hentries.
  { intros [name c]. unfold entries.
    by rewrite elem_of_sorted, elem_of_map_to_list. }
  assert (forall e, e ∈ entries ->
            exists line, member_vote_line member_id_map e = Some line
                         ∧ mv_full_name line = e.1 ∧ vote_choice line = e.2
                         ∧ member_id_map !! e.1 = Some (member_id line)
                         ∧ 1 <= member_id line) as Hline.
  { intros e He%Hentries. destruct (Hroster _ _ He) as [_ Hon].
    assert (e.1 ∈ (members self1).*1) as Hkey.
    { rewrite Hmembers. destruct Hon as [m Hm].
      apply table_get_elem_of in Hm. apply list_elem_of_fmap.
      by exists (e.1, m). }
    apply Hhas in Hkey as [i Hi]. pose proof (Hrange _ _ Hi) as Hr.
    unfold member_vote_line. rewrite Hi.
    destruct (i =? 0) eqn:E; [apply Z.eqb_eq in E; lia|].
    eexists. split; [done|]. cbn.
    split; [done|]. split; [done|]. split; [done|lia]. }
  assert (mv_full_name <$> omap (member_vote_line member_id_map) entries
          = fst <$> entries) as Hnames.
  { apply omap_total. intros e He.
    destruct (Hline e He) as (line & Hl & Hn & _). by exists line. }
  split; [|split; [|split]].
  - rewrite <- (length_fmap mv_full_name), Hnames, length_fmap.
    unfold entries. by rewrite length_sorted, length_map_to_list.
  - intros name c. split.
    + intros Hc. destruct (Hline (name, c)) as (line & Hl & Hn & Hch & _).
      { by apply Hentries. }
      exists line. split; [|done]. apply list_elem_of_omap. exists (name, c).
      split; [|done]. by apply Hentries.
    + intros (line & (e & He & Hl)%list_elem_of_omap & <- & <-).
      destruct (Hline e He) as (line' & Hl' & Hn & Hch & _).
      assert (line' = line) as -> by congruence.
      rewrite Hn, Hch. by apply Hentries.
  - intros line (e & He & Hl)%list_elem_of_omap.
    destruct (Hline e He) as (line' & Hl' & Hn & _ & Hid & Hpos).
    assert (line' = line) as -> by congruence. by rewrite Hn.
  - rewrite Hnames. apply sorted_strict.
    + unfold entries. rewrite sorted_Permutation.
      apply NoDup_fst_map_to_list.
    + apply (Sorted_fmap fst (fun a b => year_leb a b = true)
               (fun a b => String.leb a b = true)); [done|].
      apply sorted_Sorted. intros a b. unfold year_leb.
      apply String.leb_total.
Qed.

Lemma vote_detail_lists_every_member_witness :
  exists self1 ids self2 v,
    _load_all_csv_data (Samples.builder []) [Samples.votes_file] = Some self1
    ∧ _assign_member_ids self1 = Some (ids, self2)
    ∧ v ∈ votes self1
    ∧ length (member_votes_list ids v) = size (member_votes v).
Proof.
  destruct (_load_all_csv_data (Samples.builder []) [Samples.votes_file])
    as [self1|] eqn:Hload; [|vm_compute in Hload; discriminate Hload].
  destruct (_assign_member_ids self1) as [[ids self2]|] eqn:Hids.
  2:{ vm_compute in Hload. injection Hload as <-. vm_compute in Hids.
      discriminate Hids. }
  destruct (votes self1) as [|v vs] eqn:Hvotes.
  { vm_compute in Hload. injection Hload as <-. discriminate Hvotes. }
  exists self1, ids, self2, v. rewrite Hvotes.
  split; [reflexivity|]. split; [exact Hids|]. split; [left|].
  apply (vote_detail_lists_every_member (Samples.builder []) self1 self2
           [Samples.votes_file] ids v eq_refl); [|exact Hload|exact Hids|].
  - cbn. apply NoDup_cons. split; [|apply NoDup_singleton].
    intros H'%list_elem_of_singleton. discriminate H'.
  - rewrite Hvotes. left.
Defined.

End VoteDetail.

Section ReportSums.
Import PyStr BuildSite Reports.

Lemma sum_of_acc {X} (f : X -> Z) (l : list X) (a : Z) :
  foldl (fun acc x => acc + f x) a l = a + sum_of f l.
Proof.
  unfold sum_of. revert a.
  induction l as [|x l IH]; intros a; cbn [foldl]; [lia|].
  rewrite (IH (a + f x)), (IH (0 + f x)). lia.
Qed.

Lemma sum_of_cons {X} (f : X -> Z) (x : X) (l : list X) :
  sum_of f (x :: l) = f x + sum_of f l.
Proof. unfold sum_of at 1. cbn [foldl]. by rewrite sum_of_acc. Qed.

Lemma sum_of_app {X} (f : X -> Z) (l1 l2 : list X) :
  sum_of f (l1 ++ l2) = sum_of f l1 + sum_of f l2.
Proof.
  induction l1 as [|x l1 IH]; [done|].
  cbn [app]. rewrite !sum_of_cons, IH. lia.
Qed.

Lemma sum_of_Permutation {X} (f : X -> Z) (l1 l2 : list X) :
  l1 ≡ₚ l2 -> sum_of f l1 = sum_of f l2.
Proof.
  induction 1 as [|x l1 l2 _ IH|x y l|l1 l2 l3 _ IH1 _ IH2];
    rewrite ?sum_of_cons; [done|by rewrite IH|lia|congruence].
Qed.

Lemma sum_of_fmap {X Y} (f : Y -> Z) (g : X -> Y) (l : list X) :
  sum_of f (g <$> l) = sum_of (fun x => f (g x)) l.
Proof.
  induction l as [|x l IH]; [done|].
  cbn [fmap list_fmap]. by rewrite !sum_of_cons, IH.
Qed.

Lemma sum_of_ext {X} (f g : X -> Z) (l : list X) :
  (forall x, f x = g x) -> sum_of f l = sum_of g l.
Proof.
  intros Hfg. induction l as [|x l IH]; [done|].
  by rewrite !sum_of_cons, IH, Hfg.
Qed.

Lemma sum_of_range {X} (f : X -> Z) (l : list X) :
  (forall x, 0 <= f x <= 1) -> 0 <= sum_of f l <= Z.of_nat (length l).
Proof.
  intros Hf. induction l as [|x l IH]; [done|].
  rewrite sum_of_cons. cbn [length]. specialize (Hf x). lia.
Qed.

Lemma count_of_range {X} (f : X -> bool) (l : list X) :
  0 <= count_of f l <= Z.of_nat (length l).
Proof. apply sum_of_range. intros x. destruct (f x); lia. Qed.

(** Filing a meeting changes a total over the meetings by the difference
    between what is filed and what it replaces. *)
Lemma sum_of_meetings_set (f : Meeting -> Z) (key : MeetingKey)
    (m : Meeting) (d : list (MeetingKey * Meeting)) :
  sum_of (fun km => f km.2) (meetings_set key m d)
  = sum_of (fun km => f km.2) d + f m
    - from_option f 0 (meetings_get key d).
Proof.
  induction d as [|[k0 m0] d IH]; cbn [meetings_set meetings_get].
  - rewrite sum_of_cons. cbn. lia.
  - destruct (decide (k0 = key)) as [->|Hne].
    + rewrite !sum_of_cons. cbn. lia.
    + rewrite !sum_of_cons, IH. cbn [snd]. lia.
Qed.

Lemma process_row_accounted (members : list (string * Member))
    (member_cols : list string) (st st' : LoadState)
    (row : gmap string string) :
  process_row members member_cols st row = Some st' ->
  accounted st -> accounted st'.
Proof.
  unfold process_row. cbv zeta.
  destruct (is_empty (strip (cell row "event_date"))); [by intros [= <-]|].
  destruct (is_empty (strip (cell row "title"))); [by intros [= <-]|].
  destruct (bool_decide _); [by intros [= <-]|].
  set (key := (strip (cell row "event_id"), strip (cell row "event_date"))).
  unfold accounted. cbv zeta.
  destruct (meetings_get key (meetings_by_key st)) as [m|] eqn:Hget;
    (destruct (item_sequence _ _) as [n|]; cbn [mbind option_bind]; [|done]);
    (destruct (negb _);
     [|destruct (classify_non_voted_item _ _ _ _) as [[c imp] disp]]);
    intros [= <-] (Hitems & Hvotes & Hfirst);
    cbn [meetings_by_key ls_votes];
    rewrite !sum_of_meetings_set, Hget, ?length_app;
    cbn [from_option record_entry new_meeting agenda_item_count vote_count
           non_voted_count first_reading_count length];
    try destruct (bool_decide (c = first_reading)); lia.
Qed.

Lemma load_accounted (self self' : Builder) (votes_files : list VotesFile) :
  votes self = [] ->
  _load_all_csv_data self votes_files = Some self' ->
  sum_of agenda_item_count (meetings self')
  = Z.of_nat (length (votes self')) + sum_of non_voted_count (meetings self')
  ∧ sum_of vote_count (meetings self') = Z.of_nat (length (votes self'))
  ∧ 0 <= sum_of first_reading_count (meetings self')
      <= sum_of non_voted_count (meetings self').
Proof.
  intros Hnone Hload.
  destruct (load_result _ _ _ Hload) as (st & Hrun & Hmeetings & Hvotes & _).
  assert (accounted st) as Hst.
  { refine (load_preserves accounted _ _ _ _ _ Hrun _).
    - intros cols s row s'. apply process_row_accounted.
    - unfold accounted. cbn. rewrite Hnone. cbn. lia. }
  assert (forall f : Meeting -> Z,
            (forall m, f (sort_agenda m) = f m) ->
            sum_of f (meetings self')
            = sum_of (fun km : MeetingKey * Meeting => f km.2)
                (meetings_by_key st)) as Hsum.
  { intros f Hf. rewrite Hmeetings. unfold Py.sorted_reverse.
    rewrite (sum_of_Permutation f _ _ (sorted_Permutation _ _)).
    rewrite sum_of_fmap. apply sum_of_ext. intros km. apply Hf. }
  rewrite !Hsum by done. rewrite Hvotes. unfold Py.sorted_reverse.
  rewrite length_sorted. exact Hst.
Qed.

End ReportSums.

Section StatsFile.
Import PyStr BuildSite Reports.

Lemma elem_of_sorted_set (d : string) (dates : list string) :
  d ∈ sorted_set dates <-> d ∈ dates.
Proof.
  unfold sorted_set.
  by rewrite elem_of_sorted, elem_of_elements, elem_of_list_to_set.
Qed.

Lemma sorted_set_Sorted (dates : list string) :
  Sorted (fun a b => String.leb a b = true) (sorted_set dates).
Proof. apply sorted_Sorted, String.leb_total. Qed.

(** The ends of a sorted list bound every element of it. *)
Lemma sorted_ends (l : list string) (d : string) :
  Sorted (fun a b => String.leb a b = true) l -> d ∈ l ->
  String.leb (default "" (head l)) d = true
  ∧ String.leb d (default "" (last l)) = true.
Proof.
  intros Hsorted (k & Hk)%list_elem_of_lookup.
  assert (Transitive (fun a b => String.leb a b = true)) as Htrans.
  { intros a b c. apply string_leb_trans. }
  pose proof (lookup_lt_Some _ _ _ Hk) as Hlen.
  split.
  - destruct l as [|h t]; [done|]. cbn [head default].
    destruct k as [|k].
    + injection Hk as ->. apply string_leb_refl.
    + by apply (sorted_lookup_le _ (h :: t) 0 (S k) h d Htrans Hsorted);
        [lia| |].
  - rewrite last_lookup.
    destruct (l !! Nat.pred (length l)) as [e|] eqn:He.
    2:{ apply lookup_ge_None in He. lia. }
    cbn [default].
    destruct (decide (k = Nat.pred (length l))) as [->|Hne].
    + assert (e = d) as -> by congruence. apply string_leb_refl.
    + by apply (sorted_lookup_le _ l k (Nat.pred (length l)) d e Htrans
                  Hsorted); [lia| |].
Qed.

Lemma sorted_ends_elem_of (l : list string) :
  l ≠ [] -> default "" (head l) ∈ l ∧ default "" (last l) ∈ l.
Proof.
  intros Hne. split.
  - destruct l as [|h t]; [done|]. by left.
  - destruct (last l) as [e|] eqn:He.
    + by apply last_Some_elem_of.
    + by apply last_None in He.
Qed.

(** X25.  The two rates of [stats.json] are percentages, and its date range
    spans every date on file: the start is not after, and the end not
    before, any meeting's date and any vote's date that is not empty.
    When there is such a date, both ends are dates on file; when there is
    none, both are empty. *)
Theorem stats_rates_and_date_range (self : Builder) :
  let s := _generate_stats_json self in
  let on_file d :=
    d ∈ meeting_date <$> meetings self
    ∨ d ≠ "" ∧ d ∈ v_meeting_date <$> votes self in
  (0 <= pass_rate s <= 100)%Q
  ∧ (0 <= unanimous_rate s <= 100)%Q
  ∧ (forall d, on_file d ->
       String.leb (date_start s) d = true
       ∧ String.leb d (date_end s) = true
       ∧ on_file (date_start s) ∧ on_file (date_end s))
  ∧ ((forall d, ¬ on_file d) -> date_start s = "" ∧ date_end s = "").
Proof.
  cbv zeta. unfold _generate_stats_json. cbv zeta.
  cbn [pass_rate unanimous_rate date_start date_end].
  set (n := Z.of_nat (length (votes self))).
  set (dates := List.filter _ _ ++ _).
  assert (forall d, d ∈ dates <->
            d ∈ meeting_date <$> meetings self
            ∨ d ≠ "" ∧ d ∈ v_meeting_date <$> votes self) as Hdates.
  { intros d. unfold dates.
    rewrite elem_of_app, (list_elem_of_In (List.filter _ _) d),
      List.filter_In, <- list_elem_of_In.
    split.
    - intros [[Hd He]|Hd]; [right|by left]. split; [|done].
      intros ->. discriminate He.
    - intros [Hd|[He Hd]]; [by right|left]. split; [done|].
      by destruct d. }
  assert (forall f : Vote -> bool,
            (0 <= (if n =? 0 then 0
                   else Py.round1 (Py.percent (count_of f (votes self)) n))
               <= 100)%Q) as Hrate.
  { intros f. destruct (n =? 0) eqn:E; [split; by compute|].
    apply Z.eqb_neq in E.
    pose proof (count_of_range f (votes self)) as Hc. fold n in Hc.
    apply round1_range, percent_range; lia. }
  split; [apply Hrate|]. split; [apply Hrate|]. split.
  - intros d Hd. apply Hdates, elem_of_sorted_set in Hd.
    destruct (sorted_ends _ d (sorted_set_Sorted dates) Hd) as [H1 H2].
    split; [done|]. split; [done|].
    destruct (sorted_ends_elem_of (sorted_set dates)) as [H3 H4].
    { intros Hnil. rewrite Hnil in Hd. by apply elem_of_nil in Hd. }
    split; by apply Hdates, elem_of_sorted_set.
  - intros Hnone. destruct (sorted_set dates) as [|d l] eqn:E; [done|].
    exfalso. apply (Hnone d), Hdates, elem_of_sorted_set. rewrite E. by left.
Qed.

(** X26.  After a load that started without votes, [stats.json] accounts for
    every agenda item: the total of agenda items is the total of votes plus
    the total of non-voted items, the vote counts of the meetings add up to
    the total of votes, and the first readings are among the non-voted
    items. *)
Theorem stats_items_are_votes_and_non_voted (self self' : Builder)
    (votes_files : list VotesFile) :
  votes self = [] ->
  _load_all_csv_data self votes_files = Some self' ->
  let s := _generate_stats_json self' in
  total_agenda_items s = total_votes s + total_non_voted_items s
  ∧ sum_of vote_count (meetings self') = total_votes s
  ∧ 0 <= first_readings s <= total_non_voted_items s.
Proof. intros Hnone Hload. exact (load_accounted _ _ _ Hnone Hload). Qed.

Lemma stats_items_are_votes_and_non_voted_witness :
  exists self',
    _load_all_csv_data (Samples.builder []) [Samples.votes_file] = Some self'
    ∧ total_agenda_items (_generate_stats_json self')
      = total_votes (_generate_stats_json self')
        + total_non_voted_items (_generate_stats_json self').
Proof.
  destruct (_load_all_csv_data (Samples.builder []) [Samples.votes_file])
    as [self'|] eqn:Hload; [|vm_compute in Hload; discriminate Hload].
  exists self'. split; [reflexivity|].
  exact (proj1 (stats_items_are_votes_and_non_voted (Samples.builder [])
                  self' [Samples.votes_file] eq_refl Hload)).
Defined.

End StatsFile.

Section VotesByYear.
Import PyStr BuildSite Roster Reports.

(** Appending under a year is an assignment to the year's list. *)
Lemma year_append_table_set {V} (year : string) (x : V)
    (by_year : list (string * list V)) :
  year_append year x by_year
  = table_set year (default [] (table_get by_year year) ++ [x]) by_year.
Proof.
  induction by_year as [|[y xs] rest IH];
    cbn [year_append table_set table_get]; [done|].
  destruct (String.eqb y year); [done|]. by rewrite IH.
Qed.

Lemma by_year_spec (l : list Vote) :
  let by_year :=
    foldl (fun by_year v => year_append (year_of v) (vote_line v) by_year)
      [] l in
  NoDup by_year.*1
  ∧ forall year,
      table_get by_year year
      = match List.filter (fun v => String.eqb (year_of v) year) l with
        | [] => None
        | vs => Some (vote_line <$> vs)
        end.
Proof.
  cbv zeta. induction l as [|v l [IHn IHg]] using rev_ind.
  { split; [constructor|done]. }
  rewrite foldl_snoc, year_append_table_set.
  split; [by apply table_set_NoDup|].
  intros year. rewrite table_get_set, List.filter_app. cbn [List.filter].
  destruct (String.eqb (year_of v) year) eqn:E.
  - apply String.eqb_eq in E as <-. rewrite IHg.
    destruct (List.filter _ l) as [|v0 vs]; [done|].
    cbn [default app fmap list_fmap]. by rewrite fmap_app.
  - by rewrite IHg, app_nil_r.
Qed.

(** X27.  The votes files partition the votes by year.  There is one file for
    each year in which a vote was taken and no other; a year's file holds
    the votes of that year, all of them and in the order of the votes list;
    the files are written in strictly ascending order of the year. *)
Theorem votes_by_year_partition (self : Builder) :
  let files := _generate_votes_by_year self in
  let of_year year :=
    List.filter (fun v => String.eqb (year_of v) year) (votes self) in
  Sorted (fun a b => String.ltb a b = true) files.*1
  ∧ (forall year lines,
       (year, lines) ∈ files
       <-> of_year year ≠ [] ∧ lines = vote_line <$> of_year year)
  ∧ (forall v, v ∈ votes self ->
       exists lines, (year_of v, lines) ∈ files ∧ vote_line v ∈ lines).
Proof.
  cbv zeta. unfold _generate_votes_by_year. cbv zeta.
  destruct (by_year_spec (votes self)) as [Hnodup Hget]. cbv zeta in *.
  set (by_year := foldl _ _ _) in *.
  assert (forall year lines,
            (year, lines) ∈ Py.sorted year_leb by_year
            <-> List.filter (fun v => String.eqb (year_of v) year)
                  (votes self) ≠ []
                ∧ lines = vote_line
                          <$> List.filter
                                (fun v => String.eqb (year_of v) year)
                                (votes self)) as Hfiles.
  { intros year lines. rewrite elem_of_sorted. split.
    - intros Hin. apply (table_get_NoDup _ _ _ Hnodup) in Hin.
      rewrite Hget in Hin.
      destruct (List.filter _ (votes self)); [done|].
      split; [done|]. congruence.
    - intros [Hne ->]. apply table_get_elem_of. rewrite Hget.
      by destruct (List.filter _ (votes self)). }
  split; [|split; [exact Hfiles|]].
  - apply sorted_strict.
    + by rewrite sorted_Permutation.
    + apply (Sorted_fmap fst (fun a b => year_leb a b = true)
               (fun a b => String.leb a b = true)); [done|].
      apply sorted_Sorted. intros a b. unfold year_leb.
      apply String.leb_total.
  - intros v Hv.
    assert (v ∈ List.filter (fun v0 => String.eqb (year_of v0) (year_of v))
                  (votes self)) as Hin.
    { apply list_elem_of_In, List.filter_In. split; [by apply list_elem_of_In|].
      apply String.eqb_refl. }
    eexists. split.
    + apply Hfiles. split; [|done]. intros Hnil. rewrite Hnil in Hin.
      by apply elem_of_nil in Hin.
    + by apply list_elem_of_fmap_2.
Qed.

End VotesByYear.

(* ===================================================================== *)
(** * Further properties: section and topics *)
(* ===================================================================== *)

Section Sections.
Import PyStr Tagging.

Lemma prefix_contains (kw s : string) :
  String.prefix kw s = true -> contains kw s = true.
Proof. intros H. destruct s; cbn [contains]; by rewrite H. Qed.

Lemma contains_cons (kw : string) (c : ascii) (s : string) :
  contains kw s = true -> contains kw (String c s) = true.
Proof. intros H. cbn [contains]. rewrite H. apply orb_true_r. Qed.

Lemma prefix_app_head (a b s : string) :
  String.prefix (a +:+ b) s = true -> String.prefix a s = true.
Proof.
  revert s. induction a as [|x a IH]; intros s; [by destruct s|].
  rewrite string_app_cons. destruct s as [|c s]; [done|].
  cbn [String.prefix]. destruct (ascii_dec x c); [apply IH|done].
Qed.

Lemma prefix_app_tail (a b s : string) :
  String.prefix (a +:+ b) s = true -> contains b s = true.
Proof.
  revert s. induction a as [|x a IH]; intros s.
  { apply prefix_contains. }
  rewrite string_app_cons. destruct s as [|c s]; [done|].
  cbn [String.prefix]. destruct (ascii_dec x c); [|done].
  intros H. by apply contains_cons, IH.
Qed.

(** What contains a text contains every piece of it. *)
Lemma contains_pieces (a b s : string) :
  contains (a +:+ b) s = true -> contains a s = true ∧ contains b s = true.
Proof.
  induction s as [|c s IH]; cbn [contains].
  - rewrite !orb_false_r. intros H. split.
    + by apply prefix_app_head in H as ->.
    + apply prefix_app_tail in H. cbn [contains] in H.
      by rewrite orb_false_r in H.
  - intros [H|H]%orb_true_iff.
    + split.
      * by apply prefix_app_head in H as ->.
      * apply prefix_app_tail in H. cbn [contains] in H. exact H.
    + destruct (IH H) as [-> ->]. by rewrite !orb_true_r.
Qed.

(** X28.  The section of an item is decided by four tests on the upper-cased
    status and title, in this order: a hearing in either makes it a public
    hearing, consent in the status a consent item, an individual status a
    general item, zoning in the title a public hearing, and everything else
    is a consent item.  The agenda information plays no part, and the tests
    for a public hearing in the title and for a consent agenda in the status
    never decide, each being covered by the test before it. *)
Theorem classify_section_decides (matter_status title agenda_info
    : option string) :
  let ms := upper (or_empty matter_status) in
  let t := upper (or_empty title) in
  classify_section matter_status title agenda_info = section_rule ms t
  ∧ (contains "PUBLIC HEARING" t = true -> contains "HEARING" t = true)
  ∧ (contains "CONSENT AGENDA" ms = true -> contains "CONSENT" ms = true)
  ∧ (classify_section matter_status title agenda_info = GENERAL
     <-> contains "HEARING" ms = false ∧ contains "HEARING" t = false
         ∧ contains "CONSENT" ms = false ∧ contains "INDIVIDUAL" ms = true).
Proof.
  cbv zeta. unfold classify_section, section_rule. cbv zeta.
  set (ms := upper (or_empty matter_status)).
  set (t := upper (or_empty title)).
  assert (contains "PUBLIC HEARING" t = true -> contains "HEARING" t = true)
    as Hhearing.
  { intros H. by apply (contains_pieces "PUBLIC " "HEARING"). }
  assert (contains "CONSENT AGENDA" ms = true -> contains "CONSENT" ms = true)
    as Hconsent.
  { intros H. by apply (contains_pieces "CONSENT" " AGENDA"). }
  split; [|split; [done|split; [done|]]].
  - destruct (contains "PUBLIC HEARING" t);
      [rewrite (Hhearing eq_refl)|];
      (destruct (contains "CONSENT AGENDA" ms);
       [rewrite (Hconsent eq_refl)|]);
      by rewrite ?orb_true_r, ?orb_false_r.
  - destruct (contains "PUBLIC HEARING" t);
      [rewrite (Hhearing eq_refl)|];
      (destruct (contains "CONSENT AGENDA" ms);
       [rewrite (Hconsent eq_refl)|]);
      destruct (contains "HEARING" ms), (contains "HEARING" t),
        (contains "CONSENT" ms), (contains "INDIVIDUAL" ms),
        (contains "ZONING" t); cbn; split;
      first [done | by intros (? & ? & ? & ?)].
Qed.

End Sections.

Section Topics.
Import PyStr Tagging.

Lemma filter_sublist {X} (f : X -> bool) (l : list X) :
  List.filter f l `sublist_of` l.
Proof.
  induction l as [|x l IH]; cbn [List.filter]; [done|].
  destruct (f x); by constructor.
Qed.

(** X29.  The topics of a title are the first three topics of the table with a
    keyword in the lower-cased title, in the order of the table, and
    General when there is none.  So the result has one to three topics,
    none twice, and a topic with a keyword in the title is left out only
    when three such topics stand before it in the table. *)
Theorem classify_topics_first_three (title : string) :
  let topics := classify_topics title in
  let matching := matching_topics (lower title) in
  (forall topic,
     topic ∈ matching
     <-> exists kws kw, (topic, kws) ∈ TOPIC_KEYWORDS ∧ kw ∈ kws
                        ∧ contains kw (lower title) = true)
  ∧ matching `sublist_of` TOPIC_KEYWORDS.*1
  ∧ topics = (if bool_decide (matching = []) then ["General"]
              else take 3 matching)
  ∧ (1 <= length topics <= 3)%nat
  ∧ NoDup topics.
Proof.
  cbv zeta.
  assert (matching_topics (lower title) `sublist_of` TOPIC_KEYWORDS.*1)
    as Hsub.
  { unfold matching_topics. apply fmap_sublist, filter_sublist. }
  assert (NoDup TOPIC_KEYWORDS.*1) as Hnodup.
  { apply (bool_decide_unpack (NoDup TOPIC_KEYWORDS.*1)). by vm_compute. }
  assert (classify_topics title
          = if bool_decide (matching_topics (lower title) = [])
            then ["General"] else take 3 (matching_topics (lower title)))
    as Heq.
  { unfold classify_topics. destruct title as [|c s]; [done|].
    cbn [is_empty]. cbv zeta.
    by destruct (matching_topics (lower (String c s))). }
  split; [|split; [done|split; [done|]]].
  - intros topic. unfold matching_topics.
    rewrite list_elem_of_fmap. split.
    + intros ([t kws] & -> & Hin).
      apply list_elem_of_In, List.filter_In in Hin as [Hin Hkw].
      apply existsb_exists in Hkw as (kw & Hkw & Hc).
      exists kws, kw. by rewrite !list_elem_of_In.
    + intros (kws & kw & Hin & Hkw & Hc). exists (topic, kws).
      split; [done|]. apply list_elem_of_In, List.filter_In.
      split; [by apply list_elem_of_In|].
      apply existsb_exists. exists kw. by rewrite <- list_elem_of_In.
  - rewrite Heq. destruct (matching_topics (lower title)) as [|m ms] eqn:E.
    { split; [cbn; lia|]. apply NoDup_singleton. }
    rewrite bool_decide_eq_false_2 by done. split.
    + rewrite length_take. cbn [length]. lia.
    + apply (sublist_NoDup _ TOPIC_KEYWORDS.*1); [done|].
      etrans; [apply sublist_take|done].
Qed.

End Topics.
